(** * A shallow embedding of the assistant-comparison toolkit

    The first half gives the definitions, translated from the Python
    sources module by module:

    - [Py]            the JSON-shaped values the program stores and reads;
    - [DataManager]   data_manager.py: the file-backed results and progress
                      stores and the work queues derived from them;
    - [RunLLMJudge]   run_llm_judge.py: the automated scorer's two loops and
                      what they write;
    - [App]           app.py: the request handlers that save scores and
                      responses;
    - [Sampling]      sampling.py: the stratified sampler and the
                      composition of a sample;
    - [ChatGPTClient] chatgpt_client.py: retry loop and batch runner;
    - [Analyzer]      analyzer.py: the paired test and its effect size;
    - [Migration]     migrate_web_search_field.py: the one-off migration
                      of the stored ChatGPT responses.

    The second half states and proves what holds of them, one module of
    proofs per module of definitions.  Exceptions are modelled by their
    effect: a function whose body sits in [try ... except Exception] returns
    its failure value, one that lets the exception out returns [None]. *)

From stdpp Require Import gmap strings list pretty sorting.
From Stdlib Require Import QArith Floats.

Local Open Scope string_scope.
Local Open Scope Z_scope.

(* ===================================================================== *)
(** * Python values *)
(* ===================================================================== *)

Module Py.

(** What [json.load] yields and [json.dump] accepts.  Dictionaries have
    string keys, as every dictionary the program persists does. *)
#[local] Unset Elimination Schemes.
Inductive pyval : Type :=
| PNone
| PBool (b : bool)
| PInt (z : Z)
| PFloat (f : float)
| PStr (s : string)
| PList (l : list pyval)
| PDict (d : gmap string pyval).
#[local] Set Elimination Schemes.

(** [bool(v)]: Python's truth value. *)
Definition truthy (v : pyval) : bool :=
  match v with
  | PNone => false
  | PBool b => b
  | PInt z => negb (z =? 0)
  | PFloat f => negb (PrimFloat.eqb f 0%float)
  | PStr s => negb (String.eqb s "")
  | PList l => negb (Nat.eqb (length l) 0)
  | PDict d => negb (Nat.eqb (size d) 0)
  end.

(** [d.get(k)]: the value under [k], [None] when the key is absent. *)
Definition get (d : gmap string pyval) (k : string) : pyval :=
  default PNone (d !! k).

(** [d.get(k, dflt)]. *)
Definition get_or (d : gmap string pyval) (k : string) (dflt : pyval) : pyval :=
  default dflt (d !! k).

(** [str(n)] for an integer. *)
Definition str_int (z : Z) : string := pretty z.

End Py.

Import Py.

(* ===================================================================== *)
(** * data_manager.py *)
(* ===================================================================== *)

Module DataManager.

Definition RESULTS_FILE : string := "results.json".
Definition PROGRESS_FILE : string := "progress.json".

(** A file either holds a JSON document or text that [json.load] rejects
    with [JSONDecodeError]. *)
Inductive file : Type :=
| FJson (v : pyval)
| FText (raw : string).

(** The directory the program runs in: path to content.  [json.dump]
    followed by [json.load] returns the value written, so a JSON file is
    kept as the value it holds. *)
Abbreviation fs := (gmap string file).

(** One reading of [datetime.now()], in the two formats the module prints
    it in.  The readings taken inside one operation are taken to be the
    same instant. *)
Record instant : Type := Instant {
  isoformat : string;      (* datetime.now().isoformat() *)
  stamp : string           (* strftime('%Y%m%d_%H%M%S') *)
}.

(** [backup_file]: copy the file to "<path>.backup_<stamp>"; nothing
    happens when the file does not exist. *)
Definition backup_file (now : instant) (filepath : string) (d : fs) : fs :=
  match d !! filepath with
  | None => d
  | Some c => <[filepath ++ ".backup_" ++ stamp now := c]> d
  end.

(** [load_results] and [load_progress] share their shape: a missing file
    reads as the empty dictionary, an undecodable one is backed up and
    reads as the empty dictionary. *)
Definition load_json (now : instant) (filepath : string) (d : fs) : pyval * fs :=
  match d !! filepath with
  | None => (PDict ∅, d)
  | Some (FJson v) => (v, d)
  | Some (FText _) => (PDict ∅, backup_file now filepath d)
  end.

Definition load_results (now : instant) (d : fs) : pyval * fs :=
  load_json now RESULTS_FILE d.

Definition load_progress (now : instant) (d : fs) : pyval * fs :=
  load_json now PROGRESS_FILE d.

(** The progress entry [update_progress] creates for a query it has not
    seen. *)
Definition fresh_progress : gmap string pyval :=
  {[ "chatgpt_done" := PBool false;
     "google_done" := PBool false;
     "scored" := PBool false;
     "last_updated" := PNone ]}.

(** [update_progress].  Every statement of the body sits in the [try]; an
    exception (the loaded document or the query's entry is not a
    dictionary, so the item assignment raises [TypeError]) leaves the file
    as it was and returns [False].  The progress file is written without a
    backup. *)
Definition update_progress (now : instant) (query_id : Z) (status_field : string)
    (d : fs) : bool * fs :=
  let '(progress, d1) := load_progress now d in
  match progress with
  | PDict p =>
      let k := str_int query_id in
      let p1 := match p !! k with
                | None => <[k := PDict fresh_progress]> p
                | Some _ => p
                end in
      match p1 !! k with
      | Some (PDict e) =>
          let e1 := <[status_field := PBool true]> e in
          let e2 := <["last_updated" := PStr (isoformat now)]> e1 in
          (true, <[PROGRESS_FILE := FJson (PDict (<[k := PDict e2]> p1))]> d1)
      | _ => (false, d1)
      end
  | _ => (false, d1)
  end.

(** The results entry [save_result] creates for a query it has not seen. *)
Definition fresh_result (query_id : Z) : gmap string pyval :=
  {[ "query_id" := PInt query_id;
     "chatgpt" := PNone;
     "google" := PNone;
     "scores" := PNone ]}.

(** The response as stored: the caller's dictionary, with a timestamp added
    when it carries none. *)
Definition with_timestamp (now : instant) (response_data : gmap string pyval)
    : gmap string pyval :=
  match response_data !! "timestamp" with
  | None => <["timestamp" := PStr (isoformat now)]> response_data
  | Some _ => response_data
  end.

(** [save_result].  [response_data] is a dictionary, as both callers build
    it.  The result of [update_progress] is not looked at. *)
Definition save_result (now : instant) (query_id : Z) (platform : string)
    (response_data : gmap string pyval) (d : fs) : bool * fs :=
  let '(results, d1) := load_results now d in
  match results with
  | PDict r =>
      let k := str_int query_id in
      let r1 := match r !! k with
                | None => <[k := PDict (fresh_result query_id)]> r
                | Some _ => r
                end in
      match r1 !! k with
      | Some (PDict e) =>
          let e1 := <[platform := PDict (with_timestamp now response_data)]> e in
          let d2 := backup_file now RESULTS_FILE d1 in
          let d3 := <[RESULTS_FILE := FJson (PDict (<[k := PDict e1]> r1))]> d2 in
          let '(_, d4) := update_progress now query_id (platform ++ "_done") d3 in
          (true, d4)
      | _ => (false, d1)
      end
  | _ => (false, d1)
  end.

(** [save_scores].  [scores] is whatever the caller passes; only a
    dictionary accepts the timestamp assignment.  A results document that
    is a list or a string answers the membership test, but then fails at
    the subscript, so every document that is not a dictionary ends in
    [False] with nothing written. *)
Definition save_scores (now : instant) (query_id : Z) (scores : pyval)
    (d : fs) : bool * fs :=
  let '(results, d1) := load_results now d in
  match results with
  | PDict r =>
      let k := str_int query_id in
      match r !! k with
      | None => (false, d1)
      | Some entry =>
          match scores, entry with
          | PDict s, PDict e =>
              let s1 := <["timestamp" := PStr (isoformat now)]> s in
              let e1 := <["scores" := PDict s1]> e in
              let d2 := backup_file now RESULTS_FILE d1 in
              let d3 := <[RESULTS_FILE := FJson (PDict (<[k := PDict e1]> r))]> d2 in
              let '(_, d4) := update_progress now query_id "scored" d3 in
              (true, d4)
          | _, _ => (false, d1)
          end
      end
  | _ => (false, d1)
  end.

(** [reset_progress]: back the progress file up and remove it. *)
Definition reset_progress (now : instant) (d : fs) : bool * fs :=
  match d !! PROGRESS_FILE with
  | None => (true, d)
  | Some _ => (true, delete PROGRESS_FILE (backup_file now PROGRESS_FILE d))
  end.

(** ** The query dataset *)

(** A query dictionary, by the keys the program reads.  [None] stands for
    an absent key; the two response keys are the ones
    [get_queries_needing_scores] adds. *)
Record query : Type := Query {
  id : Z;
  text : option string;                 (* 'query' *)
  category : option string;
  quality : option string;
  intent_clarity : option string;
  chatgpt_response : option pyval;
  google_response : option pyval
}.

(** A row of query_dataset.json, whose id may be missing. *)
Record dataset_row : Type := DatasetRow {
  row_id : option Z;
  row_text : option string;
  row_category : option string;
  row_quality : option string;
  row_intent_clarity : option string
}.

(** [load_queries]: rows without an id get their position as id.  [None]
    is the file that is missing or does not parse. *)
Definition load_queries (dataset : option (list dataset_row)) : list query :=
  match dataset with
  | None => []
  | Some rows =>
      imap (λ idx r,
              Query (default (Z.of_nat idx) (row_id r)) (row_text r)
                    (row_category r) (row_quality r) (row_intent_clarity r)
                    None None) rows
  end.

(** ** Work queues *)

(** [k in v] for a string [k]: [None] is the [TypeError] of a value that
    supports no membership test. *)
Definition is_str (k : string) (v : pyval) : bool :=
  match v with PStr s => String.eqb s k | _ => false end.

Fixpoint is_substring (k s : string) : bool :=
  String.prefix k s ||
  match s with
  | EmptyString => false
  | String _ s' => is_substring k s'
  end.

Definition contains (v : pyval) (k : string) : option bool :=
  match v with
  | PDict d => Some (bool_decide (is_Some (d !! k)))
  | PList l => Some (existsb (is_str k) l)
  | PStr s => Some (is_substring k s)
  | _ => None
  end.

(** The body of the loop of [get_queries_needing_scores] for one query:
    [None] is an exception ([.get] on a value that is not a dictionary,
    a subscript that fails), [Some None] a query that is left out,
    [Some (Some q')] a query that is returned, with its responses
    attached when the results hold an entry for it. *)
Definition needing_scores_item (progress results : pyval) (q : query)
    : option (option query) :=
  let query_id := str_int (id q) in
  match progress with
  | PDict p =>
      match get_or p query_id (PDict ∅) with
      | PDict query_progress =>
          if truthy (get_or query_progress "chatgpt_done" (PBool false))
             && truthy (get_or query_progress "google_done" (PBool false))
             && negb (truthy (get_or query_progress "scored" (PBool false)))
          then
            match contains results query_id with
            | None => None
            | Some false => Some (Some q)
            | Some true =>
                match results with
                | PDict r =>
                    match r !! query_id with
                    | Some (PDict e) =>
                        Some (Some (Query (id q) (text q) (category q) (quality q)
                                          (intent_clarity q)
                                          (Some (get e "chatgpt"))
                                          (Some (get e "google"))))
                    | _ => None
                    end
                | _ => None
                end
            end
          else Some None
      | _ => None
      end
  | _ => None
  end.

Fixpoint needing_scores_loop (progress results : pyval) (queries : list query)
    : option (list query) :=
  match queries with
  | [] => Some []
  | q :: rest =>
      match needing_scores_item progress results q with
      | None => None
      | Some r =>
          match needing_scores_loop progress results rest with
          | None => None
          | Some needed => Some (from_option (λ q', q' :: needed) needed r)
          end
      end
  end.

(** [get_queries_needing_scores]: the queue is read off the progress file;
    the results file only supplies the responses that are attached.
    [queries] is what [load_queries()] returned. *)
Definition get_queries_needing_scores (now : instant) (queries : list query)
    (d : fs) : option (list query) * fs :=
  let '(progress, d1) := load_progress now d in
  let '(results, d2) := load_results now d1 in
  (needing_scores_loop progress results queries, d2).

(** ** Completion statistics *)

(** The flags [get_completion_stats] computes for one results entry: it
    reads the results file, not the progress file, and counts automated
    scores as scores. *)
Definition has_chatgpt (e : gmap string pyval) : bool := truthy (get e "chatgpt").
Definition has_google (e : gmap string pyval) : bool := truthy (get e "google").
Definition has_scores (e : gmap string pyval) : bool :=
  truthy (get e "scores") || truthy (get e "llm_scores").

Record completion_stats : Type := CompletionStats {
  total_queries : nat;
  chatgpt_responses : nat;
  google_responses : nat;
  scored : nat;
  fully_complete : nat
}.

(** [get_completion_stats], without the percentage (a float).  The file is
    read directly: any failure to read it counts as no results, and no
    backup is made.  [None] is the [AttributeError] of an entry, or of a
    document, that is not a dictionary. *)
Definition get_completion_stats (queries : list query) (d : fs)
    : option completion_stats :=
  let results := match d !! RESULTS_FILE with
                 | Some (FJson v) => v
                 | _ => PDict ∅
                 end in
  let count (p : gmap string pyval → bool) (es : list (gmap string pyval)) : nat :=
    length (filter (λ e, p e = true) es) in
  match results with
  | PDict r =>
      es ← mapM (λ v, match v with PDict e => Some e | _ => None end)
                (snd <$> map_to_list r);
      Some (CompletionStats (length queries)
              (count has_chatgpt es) (count has_google es) (count has_scores es)
              (count (λ e, has_chatgpt e && has_google e && has_scores e) es))
  | PList l => if bool_decide (l = []) then
                 Some (CompletionStats (length queries) 0 0 0 0) else None
  | PStr s => if bool_decide (s = "") then
                Some (CompletionStats (length queries) 0 0 0 0) else None
  | _ => None
  end.

(** ** Views and invariants used in the statements *)

(** What a reader finds in a file, without the reader's side effect. *)
Definition read_json (filepath : string) (d : fs) : pyval :=
  match d !! filepath with
  | Some (FJson v) => v
  | _ => PDict ∅
  end.

Definition as_dict (v : pyval) : gmap string pyval :=
  match v with PDict m => m | _ => ∅ end.

Definition results_of (d : fs) : gmap string pyval :=
  as_dict (read_json RESULTS_FILE d).

Definition progress_of (d : fs) : gmap string pyval :=
  as_dict (read_json PROGRESS_FILE d).

(** [results.get(k, {}).get(field)]: how the readers look a field up. *)
Definition field_of (m : gmap string pyval) (k field : string) : pyval :=
  get (as_dict (get_or m k (PDict ∅))) field.

(** The progress invariant on one entry, read the way the work queues read
    the flags. *)
Definition entry_ok (e : gmap string pyval) : bool :=
  implb (truthy (get_or e "scored" (PBool false)))
        (truthy (get_or e "chatgpt_done" (PBool false))
         && truthy (get_or e "google_done" (PBool false))).

Definition progress_invariant (d : fs) : Prop :=
  ∀ k e, progress_of d !! k = Some (PDict e) → entry_ok e = true.

(** Both response flags of a query are set in the progress file. *)
Definition both_done (d : fs) (query_id : Z) : bool :=
  match progress_of d !! str_int query_id with
  | Some (PDict e) =>
      truthy (get_or e "chatgpt_done" (PBool false))
      && truthy (get_or e "google_done" (PBool false))
  | _ => false
  end.

(** The two save operations, as a sequence to run. *)
Inductive op : Type :=
| SaveResult (now : instant) (query_id : Z) (platform : string)
             (response_data : gmap string pyval)
| SaveScores (now : instant) (query_id : Z) (scores : pyval).

Definition run_op (o : op) (d : fs) : bool * fs :=
  match o with
  | SaveResult now q platform rd => save_result now q platform rd d
  | SaveScores now q scores => save_scores now q scores d
  end.

Definition run (ops : list op) (d : fs) : fs :=
  foldl (λ acc o, (run_op o acc).2) d ops.

(** Every [save_scores] of the sequence that goes through finds both
    response flags of its query set. *)
Fixpoint scores_follow_responses (ops : list op) (d : fs) : Prop :=
  match ops with
  | [] => True
  | o :: rest =>
      match o with
      | SaveScores now q scores =>
          (save_scores now q scores d).1 = true → both_done d q = true
      | SaveResult _ _ _ _ => True
      end
      ∧ scores_follow_responses rest (run_op o d).2
  end.

(** ** The queues for the two response stages *)

(** [progress.get(query_id, {}).get(flag, False)], as a truth value;
    [None] is the [AttributeError] of a progress document, or of an entry,
    that is not a dictionary. *)
Definition progress_flag (progress : pyval) (query_id flag : string) : option bool :=
  match progress with
  | PDict p =>
      match get_or p query_id (PDict ∅) with
      | PDict e => Some (truthy (get_or e flag (PBool false)))
      | _ => None
      end
  | _ => None
  end.

(** The loop the three batch functions share: a query that needs work is
    appended, and the loop is left as soon as the list has [batch_size]
    elements.  The test comes after the append, in every iteration. *)
Fixpoint needing_loop (needs : query → option bool) (batch_size : Z)
    (queries : list query) (needed : list query) : option (list query) :=
  match queries with
  | [] => Some needed
  | q :: rest =>
      match needs q with
      | None => None
      | Some b =>
          let needed' := if b then (needed ++ [q])%list else needed in
          if bool_decide (batch_size ≤ Z.of_nat (length needed')) then Some needed'
          else needing_loop needs batch_size rest needed'
      end
  end.

(** [get_queries_needing_chatgpt] and [get_queries_needing_google]. *)
Definition get_queries_needing_chatgpt (now : instant) (queries : list query)
    (batch_size : Z) (d : fs) : option (list query) * fs :=
  let '(progress, d1) := load_progress now d in
  (needing_loop (λ q, negb <$> progress_flag progress (str_int (id q)) "chatgpt_done")
                batch_size queries [], d1).

Definition get_queries_needing_google (now : instant) (queries : list query)
    (batch_size : Z) (d : fs) : option (list query) * fs :=
  let '(progress, d1) := load_progress now d in
  (needing_loop (λ q, negb <$> progress_flag progress (str_int (id q)) "google_done")
                batch_size queries [], d1).

(** [get_next_batch]: the queries with some stage left. *)
Definition get_next_batch (now : instant) (queries : list query)
    (batch_size : Z) (d : fs) : option (list query) * fs :=
  let '(progress, d1) := load_progress now d in
  (needing_loop
     (λ q, let k := str_int (id q) in
           a ← progress_flag progress k "chatgpt_done";
           b ← progress_flag progress k "google_done";
           c ← progress_flag progress k "scored";
           Some (negb (a && b && c)))
     batch_size queries [], d1).

(** A progress file the readers can use: missing, unreadable (it then
    reads as empty), or a dictionary whose entries are dictionaries. *)
Definition progress_well_formed (d : fs) : Prop :=
  ∃ p, read_json PROGRESS_FILE d = PDict p
       ∧ ∀ k v, p !! k = Some v → ∃ e, v = PDict e.

End DataManager.

(* ===================================================================== *)
(** * run_llm_judge.py *)
(* ===================================================================== *)

Module RunLLMJudge.
Import DataManager.
Local Open Scope list_scope.

(** [v[k]] for a string [k]: the value under the key of a dictionary;
    [None] is the [KeyError] of an absent key or the [TypeError] of a
    value that is not a dictionary. *)
Definition subscript (v : pyval) (k : string) : option pyval :=
  match v with
  | PDict m => m !! k
  | _ => None
  end.

(** [query_dataset[n]] for an integer [n], as far as the script can go on
    with it: an element of a list, counted from the end when [n] is
    negative.  [None] is the [IndexError] of a list, the [KeyError] of a
    dictionary (the keys of a JSON object are strings), the [TypeError] of
    a number, and also the character a string gives, on which the next
    subscript raises. *)
Definition dataset_row_at (query_dataset : pyval) (n : Z) : option pyval :=
  match query_dataset with
  | PList rows =>
      let len := Z.of_nat (length rows) in
      if bool_decide (0 ≤ n < len) then rows !! Z.to_nat n
      else if bool_decide (- len ≤ n < 0) then rows !! Z.to_nat (len + n)
      else None
  | _ => None
  end.

(** The dictionary the first loop appends to [queries_to_score]. *)
Record candidate : Type := Candidate {
  cand_id : Z;                        (* int(query_id) *)
  cand_query : pyval;                 (* query_info['query'] *)
  cand_category : pyval;
  cand_quality : pyval;
  cand_intent_clarity : pyval;
  cand_chatgpt_response : pyval;      (* data['chatgpt']['response'] *)
  cand_google_response : pyval        (* data['google']['response'] *)
}.

(** What the first loop does with one entry of the results: leave it out,
    queue it for scoring, or raise (the loop sits in no [try], so the
    script ends there, before anything is written). *)
Inductive candidacy : Type :=
| Skip
| Queue (c : candidate)
| Crash.

(** What the [try] block of the second loop comes to for one candidate,
    up to the assignment of [llm_scores]: no scores ([compare_responses]
    raises or returns nothing usable, or a verdict lacks a key), or the
    [llm_scores] dictionary assembled from the verdicts, the time and the
    model, together with whether the line that prints the averages goes
    through (it raises on scores that are not numbers, after the
    assignment and before the success is counted). *)
Inductive outcome : Type :=
| NoScores
| Scores (llm_scores : gmap string pyval) (summary_printed : bool).

(** The variables of the second loop that matter: [results_data],
    [successful], and the directory as last written. *)
Record judge_state : Type := JudgeState {
  results_data : gmap string pyval;
  successful : nat;
  directory : fs
}.

(** [query['query'][:50]]: a string or a list can be sliced. *)
Definition sliceable (v : pyval) : bool :=
  match v with
  | PStr _ | PList _ => true
  | _ => false
  end.

Section Judge.

(** [LLMJudge()] could be built. *)
Variable judge_ready : bool.

(** The parsed query_dataset.json; [None] when it cannot be loaded. *)
Variable query_dataset : option pyval.

(** [int(query_id)] on a key of the results; [None] is its [ValueError]. *)
Variable int_of : string → option Z.

(** [results_data.items()]: the entries in the order of the file. *)
Variable items : gmap string pyval → list (string * pyval).

(** The judge on the [i]-th candidate of the queue, counted from 1. *)
Variable evaluate : nat → candidate → outcome.

(** The body of the first loop. *)
Definition classify (dataset : pyval) (query_id : string) (data : pyval) : candidacy :=
  match data with
  | PDict e =>
      if negb (truthy (get e "chatgpt")) || negb (truthy (get e "google")) then Skip
      else if truthy (get e "scores") then Skip
      else if truthy (get e "llm_scores") then Skip
      else
        match int_of query_id with
        | None => Crash
        | Some n =>
            match dataset_row_at dataset n with
            | None => Crash
            | Some query_info =>
                match subscript query_info "query",
                      subscript query_info "category",
                      subscript query_info "quality",
                      subscript query_info "intent_clarity",
                      subscript (get e "chatgpt") "response",
                      subscript (get e "google") "response" with
                | Some q, Some c, Some ql, Some ic, Some cr, Some gr =>
                    Queue (Candidate n q c ql ic cr gr)
                | _, _, _, _, _, _ => Crash
                end
            end
        end
  | _ => Crash                          (* data.get: AttributeError *)
  end.

(** The first loop: [queries_to_score], or [None] when it raises. *)
Fixpoint queue (dataset : pyval) (entries : list (string * pyval))
    : option (list candidate) :=
  match entries with
  | [] => Some []
  | (query_id, data) :: rest =>
      match classify dataset query_id data with
      | Crash => None
      | Skip => queue dataset rest
      | Queue c =>
          match queue dataset rest with
          | Some cs => Some (c :: cs)
          | None => None
          end
      end
  end.

(** The body of the second loop for the [i]-th candidate.  [None] is the
    exception of the first line, which is outside the [try].  The scores
    go to the entry under [str(query['id'])], which is the key the
    candidate was read from only when that key is what [str] gives for its
    number; an entry that is not there is passed over.  After every fifth
    success the results are written out. *)
Definition judge_step (i : nat) (c : candidate) (st : judge_state)
    : option judge_state :=
  if negb (sliceable (cand_query c)) then None
  else
    match evaluate i c with
    | NoScores => Some st
    | Scores llm_scores summary_printed =>
        let query_id_str := str_int (cand_id c) in
        match results_data st !! query_id_str with
        | None => Some st                                   (* continue *)
        | Some (PDict e) =>
            let rd := <[query_id_str := PDict (<["llm_scores" := PDict llm_scores]> e)]>
                        (results_data st) in
            if summary_printed
            then
              let n := S (successful st) in
              Some (JudgeState rd n
                      (if (n mod 5 =? 0)%nat
                       then <[RESULTS_FILE := FJson (PDict rd)]> (directory st)
                       else directory st))
            else Some (JudgeState rd (successful st) (directory st))
        | Some _ => Some st               (* item assignment: TypeError, caught *)
        end
    end.

(** The second loop, from the [i]-th candidate on: the state it ends in,
    and whether it ran to its end. *)
Fixpoint judge_loop (i : nat) (cs : list candidate) (st : judge_state)
    : judge_state * bool :=
  match cs with
  | [] => (st, true)
  | c :: rest =>
      match judge_step i c st with
      | None => (st, false)
      | Some st' => judge_loop (S i) rest st'
      end
  end.

(** [run_llm_judge_on_remaining], as the directory it leaves.  The
    results file is opened directly, and rewritten in place after every
    fifth success and once more after the loop: no backup is made and
    progress.json is not opened.  A run that raises leaves the directory
    as last written. *)
Definition run_llm_judge_on_remaining (d : fs) : fs :=
  if negb judge_ready then d else
  match d !! RESULTS_FILE with
  | Some (FJson results) =>
      match query_dataset with
      | None => d
      | Some dataset =>
          match results with
          | PDict r =>
              match queue dataset (items r) with
              | None => d
              | Some [] => d
              | Some cs =>
                  let '(st, finished) := judge_loop 1 cs (JudgeState r 0 d) in
                  if (finished : bool)
                  then <[RESULTS_FILE := FJson (PDict (results_data st))]> (directory st)
                  else directory st
              end
          | _ => d                      (* results_data.items: AttributeError *)
          end
      end
  | _ => d
  end.

End Judge.

End RunLLMJudge.

(* ===================================================================== *)
(** * app.py: the save-scores request *)
(* ===================================================================== *)

Module App.
Import DataManager.

(** The JSON body of POST /api/save-scores, by the two keys the handler
    reads: [data.get('query_id')], an integer or nothing, and
    [data.get('scores')], any JSON value ([PNone] when absent). *)
Record scores_request : Type := ScoresRequest {
  body_query_id : option Z;
  body_scores : pyval
}.

(** The reply: the HTTP status and the keys of the JSON object. *)
Record response : Type := Response {
  status : Z;
  success : bool;
  error : option string;
  message : option string
}.

Definition required_fields : list string :=
  [ "chatgpt_relevance"; "chatgpt_completeness"; "chatgpt_source_quality";
    "google_relevance"; "google_completeness"; "google_source_quality";
    "chatgpt_intent_understood"; "google_intent_understood" ].

(** The validation loop: the first required field that is not in
    [scores] ends it; a value with no membership test raises. *)
Inductive validation : Type :=
| Valid
| MissingField (field : string)
| NotIterable.

Fixpoint validate (fields : list string) (scores : pyval) : validation :=
  match fields with
  | [] => Valid
  | field :: rest =>
      match contains scores field with
      | None => NotIterable
      | Some false => MissingField field
      | Some true => validate rest scores
      end
  end.

(** [str(e)] of the [TypeError] that [field not in scores] raises. *)
Definition not_iterable_text (scores : pyval) : string :=
  "argument of type '" ++
  match scores with
  | PInt _ => "int" | PFloat _ => "float" | PBool _ => "bool" | _ => "NoneType"
  end ++ "' is not iterable".

(** The handler of /api/save-scores. *)
Definition save_scores (now : instant) (data : scores_request) (d : fs)
    : response * fs :=
  match body_query_id data with
  | None => (Response 400 false (Some "Missing required fields") None, d)
  | Some query_id =>
      let scores := body_scores data in
      if negb (truthy scores)
      then (Response 400 false (Some "Missing required fields") None, d)
      else
        match validate required_fields scores with
        | MissingField field =>
            (Response 400 false (Some ("Missing score field: " ++ field)) None, d)
        | NotIterable =>
            (Response 500 false (Some (not_iterable_text scores)) None, d)
        | Valid =>
            let '(ok, d') := DataManager.save_scores now query_id scores d in
            (Response 200 ok None (Some "Scores saved"), d')
        end
  end.

(** The JSON body of POST /api/save-google-response, by the three keys
    the handler reads. *)
Record google_request : Type := GoogleRequest {
  google_query_id : option Z;
  google_response_text : pyval;          (* data.get('response') *)
  google_response_time_ms : pyval        (* data.get('response_time_ms') *)
}.

(** The handler of /api/save-google-response. *)
Definition save_google_response (now : instant) (data : google_request) (d : fs)
    : response * fs :=
  match google_query_id data with
  | None => (Response 400 false (Some "Missing required fields") None, d)
  | Some query_id =>
      if negb (truthy (google_response_text data))
      then (Response 400 false (Some "Missing required fields") None, d)
      else
        let response_data : gmap string pyval :=
          {[ "response" := google_response_text data;
             "timestamp" := PStr (isoformat now);
             "response_time_ms" := google_response_time_ms data ]} in
        let '(ok, d') := DataManager.save_result now query_id "google" response_data d in
        (Response 200 ok None (Some "Response saved"), d')
  end.

End App.

(* ===================================================================== *)
(** * sampling.py *)
(* ===================================================================== *)

Module Sampling.
Import DataManager.
Local Open Scope list_scope.

(** [query.get('category', 'Unknown')] and its two siblings. *)
Definition category_of (q : query) : string := default "Unknown" (category q).
Definition quality_of (q : query) : string := default "Unknown" (quality q).
Definition intent_of (q : query) : string := default "Unknown" (intent_clarity q).

(** A dictionary of lists, kept in insertion order, which is the order
    [list(d.keys())] returns. *)
Abbreviation groups := (list (string * list query)).

(** [if k not in d: d[k] = []] followed by [d[k].append(q)]. *)
Fixpoint group_add (k : string) (q : query) (d : groups) : groups :=
  match d with
  | [] => [(k, [q])]
  | (k', qs) :: rest =>
      if decide (k' = k) then (k', qs ++ [q]) :: rest
      else (k', qs) :: group_add k q rest
  end.

Definition group_by (key : query → string) (queries : list query) : groups :=
  foldl (λ d q, group_add (key q) q d) [] queries.

(** [d.get(k, [])]. *)
Fixpoint group_get (d : groups) (k : string) : list query :=
  match d with
  | [] => []
  | (k', qs) :: rest => if decide (k' = k) then qs else group_get rest k
  end.

(** [{q['id']: q for q in l}]: a later query with the same id replaces the
    earlier one, at the earlier one's place. *)
Fixpoint dict_set (k : Z) (q : query) (d : list (Z * query)) : list (Z * query) :=
  match d with
  | [] => [(k, q)]
  | (k', q') :: rest =>
      if decide (k' = k) then (k', q) :: rest else (k', q') :: dict_set k q rest
  end.

Definition unique_by_id (l : list query) : list query :=
  (foldl (λ d q, dict_set (id q) q d) [] l).*2.

(** [selected.sort(key=lambda q: q['id'])]: the stable sort by id. *)
Fixpoint insert_by_id (q : query) (l : list query) : list query :=
  match l with
  | [] => [q]
  | q' :: rest =>
      if decide (id q ≤ id q') then q :: q' :: rest
      else q' :: insert_by_id q rest
  end.

Definition sort_by_id (l : list query) : list query :=
  foldr insert_by_id [] l.

Section WithRandom.

(** The state of the [random] module, and [random.sample(population, k)]
    as a function of it. *)
Variable rng : Type.
Variable sample : rng → list query → nat → list query * rng.

(** What the sampler carries along: the queries selected so far, their
    ids, and the generator. *)
Definition selection : Type := list query * gset Z * rng.

(** [selected.extend(sampled)] and [selected_ids.update(...)] after a draw
    of [n] from [pool]. *)
Definition draw (pool : list query) (n : nat) (st : selection) : selection :=
  let '(selected, selected_ids, g) := st in
  let '(sampled, g') := sample g pool n in
  (selected ++ sampled, selected_ids ∪ list_to_set (id <$> sampled), g').

Definition unselected (selected_ids : gset Z) (l : list query) : list query :=
  filter (λ q, id q ∉ selected_ids) l.

(** The body of the loop over the categories. *)
Definition category_step (samples_per_category : Z) (st : selection)
    (group : string * list query) : selection :=
  let available := unselected st.1.2 group.2 in
  let n := Z.min samples_per_category (Z.of_nat (length available)) in
  draw available (Z.to_nat n) st.

(** The hard strata, deduplicated. *)
Definition priority_groups (by_quality by_intent : groups) (selected_ids : gset Z)
    : list query :=
  let poor_quality := group_get by_quality "Poorly-formed" ++ group_get by_quality "Ambiguous" in
  let low_intent := group_get by_intent "Low" ++ group_get by_intent "Very Low" in
  unique_by_id (unselected selected_ids poor_quality ++ unselected selected_ids low_intent).

(** The selection before the final sort. *)
Definition select_unsorted (queries : list query) (sample_size : Z) (g : rng)
    : option selection :=
  let by_category := group_by category_of queries in
  let by_quality := group_by quality_of queries in
  let by_intent := group_by intent_of queries in
  if decide (length by_category = 0%nat) then None        (* ZeroDivisionError *)
  else
    let samples_per_category :=
      Z.max 1 (sample_size `div` Z.of_nat (length by_category)) in
    let st1 := foldl (category_step samples_per_category) ([], ∅, g) by_category in
    let remaining := sample_size - Z.of_nat (length st1.1.1) in
    let '(st2, remaining2) :=
      if bool_decide (0 < remaining) then
        let priority := priority_groups by_quality by_intent st1.1.2 in
        match priority with
        | [] => (st1, remaining)
        | _ :: _ =>
            let n := Z.min remaining (Z.of_nat (length priority)) in
            (draw priority (Z.to_nat n) st1, remaining - n)
        end
      else (st1, remaining) in
    let st3 :=
      if bool_decide (0 < remaining2) then
        let available := unselected st2.1.2 queries in
        match available with
        | [] => st2
        | _ :: _ =>
            let n := Z.min remaining2 (Z.of_nat (length available)) in
            draw available (Z.to_nat n) st2
        end
      else st2 in
    Some st3.

(** [select_stratified_sample].  [None] is the [ZeroDivisionError] raised
    on an empty list of queries. *)
Definition select_stratified_sample (queries : list query) (sample_size : Z) (g : rng)
    : option (list query) :=
  st ← select_unsorted queries sample_size g;
  Some (sort_by_id st.1.1).

End WithRandom.

(** A sampler to run the model with: the generator is a counter, each draw
    takes the element at position [counter mod length] out of the pool. *)
Fixpoint pick (seed : nat) (pool : list query) (n : nat) : list query * nat :=
  match n with
  | O => ([], seed)
  | S n' =>
      let i := (seed `mod` length pool)%nat in
      match pool !! i with
      | None => ([], seed)
      | Some q =>
          let '(rest, seed') := pick (7 * seed + 3) (delete i pool) n' in
          (q :: rest, seed')
      end
  end.

(** ** The composition of a sample *)

(** A dictionary of counts, in insertion order. *)
Abbreviation counts := (list (string * nat)).

(** [d[k] = d.get(k, 0) + 1]. *)
Fixpoint count_add (k : string) (d : counts) : counts :=
  match d with
  | [] => [(k, 1%nat)]
  | (k', n) :: rest =>
      if decide (k' = k) then (k', S n) :: rest else (k', n) :: count_add k rest
  end.

Definition count_by (key : query → string) (sample : list query) : counts :=
  foldl (λ d q, count_add (key q) d) [] sample.

Record distribution : Type := Distribution {
  total : nat;
  by_category : counts;
  by_quality : counts;
  by_intent_clarity : counts
}.

(** [get_sample_distribution]; [None] is the empty dictionary returned for
    an empty sample. *)
Definition get_sample_distribution (sample : list query) : option distribution :=
  match sample with
  | [] => None
  | _ :: _ =>
      Some (Distribution (length sample) (count_by category_of sample)
              (count_by quality_of sample) (count_by intent_of sample))
  end.

End Sampling.

(* ===================================================================== *)
(** * chatgpt_client.py *)
(* ===================================================================== *)

Module ChatGPTClient.
Import DataManager.
Local Open Scope list_scope.

(** The attributes [query_chatgpt] reads off the API response, with the
    two clock readings it adds. *)
Record completion : Type := Completion {
  content : string;
  model_name : string;
  total_tokens : Z;
  prompt_tokens : Z;
  completion_tokens : Z;
  finish_reason : string;
  annotations : nat;               (* len(message.annotations), 0 when there are none *)
  timestamp : string;              (* datetime.now().isoformat() *)
  response_time_ms : float
}.

(** How the [try] block of [query_chatgpt] ends: with a response, or with
    an exception (timeout, API error, a response without the expected
    attributes). *)
Inductive api_outcome : Type :=
| Answers (c : completion)
| Fails (reason : string).

(** The upstream service: the outcome of the n-th request overall. *)
Abbreviation api := (nat → string → api_outcome).

(** What the client does that can be observed from outside. *)
Inductive event : Type :=
| EvRequest (query_text : string)
| EvSleep (seconds : Q)
| EvCallback (current total : nat) (query_id : Z) (result : option (gmap string pyval)).

Record world : Type := World {
  requests : nat;                  (* requests sent so far *)
  trace : list event               (* oldest first *)
}.

Definition emit (e : event) (w : world) : world :=
  World (requests w) (trace w ++ [e]).

(** config.json, by the keys the two loops read; [None] is a key that is
    not there. *)
Record config : Type := Config {
  rate_limit_delay : option Q;
  retry_attempts : option Z;
  retry_delay : option Q
}.

(** The dictionary [query_chatgpt] builds from a response. *)
Definition result_of (c : completion) : gmap string pyval :=
  {[ "response" := PStr (content c);
     "model" := PStr (model_name c);
     "timestamp" := PStr (timestamp c);
     "response_time_ms" := PFloat (response_time_ms c);
     "tokens_used" := PInt (total_tokens c);
     "prompt_tokens" := PInt (prompt_tokens c);
     "completion_tokens" := PInt (completion_tokens c);
     "finish_reason" := PStr (finish_reason c);
     "web_search_used" := PBool (bool_decide (0 < annotations c)%nat);
     "web_search_citations_count" := PInt (Z.of_nat (annotations c)) ]}.

(** [query_chatgpt]: one request; every exception of the [try] block is
    caught and turned into [None]. *)
Definition query_chatgpt (service : api) (query_text : string) (w : world)
    : option (gmap string pyval) * world :=
  let w1 := World (S (requests w)) (trace w ++ [EvRequest query_text]) in
  match service (requests w) query_text with
  | Answers c => (Some (result_of c), w1)
  | Fails _ => (None, w1)
  end.

(** How the call inside the [try] of [query_with_retry] can end. *)
Inductive attempt_outcome : Type :=
| Returned (result : option (gmap string pyval))
| Raised (e : string).

(** The loop of [query_with_retry] over [range(max_attempts)], from
    iteration [attempt] on, with [left] iterations to go.  [invoke] is the
    call [self.query_chatgpt(query_text)].  The backoff sleep sits in the
    [except] branch. *)
Fixpoint retry_loop (invoke : world → attempt_outcome * world)
    (delay : Q) (max_attempts : Z) (attempt left : nat) (w : world)
    : option (gmap string pyval) * world :=
  match left with
  | O => (None, w)
  | S left' =>
      match invoke w with
      | (Returned (Some result), w1) => (Some result, w1)
      | (Returned None, w1) =>
          retry_loop invoke delay max_attempts (S attempt) left' w1
      | (Raised _, w1) =>
          let w2 :=
            if bool_decide (Z.of_nat attempt < max_attempts - 1)
            then emit (EvSleep (Qmult delay (inject_Z (2 ^ Z.of_nat attempt)))) w1
            else w1 in
          retry_loop invoke delay max_attempts (S attempt) left' w2
      end
  end.

Definition retry_with (invoke : world → attempt_outcome * world) (cfg : config)
    (max_attempts : option Z) (w : world) : option (gmap string pyval) * world :=
  let n := default (default 3 (retry_attempts cfg)) max_attempts in
  retry_loop invoke (default (2 # 1)%Q (retry_delay cfg)) n 0 (Z.to_nat n) w.

(** [query_with_retry]. *)
Definition query_with_retry (service : api) (cfg : config) (query_text : string)
    (max_attempts : option Z) (w : world) : option (gmap string pyval) * world :=
  retry_with (λ w0, let '(r, w1) := query_chatgpt service query_text w0 in
                    (Returned r, w1))
             cfg max_attempts w.

(** An entry of the list [batch_query] returns. *)
Record batch_result : Type := BatchResult {
  result_query_id : Z;
  result_success : bool;
  result_data : option (gmap string pyval);
  result_error : option string
}.

(** [if result:] on what [query_with_retry] returned. *)
Definition succeeded (result : option (gmap string pyval)) : bool :=
  match result with
  | Some r => truthy (PDict r)
  | None => false
  end.

(** The body of the loop of [batch_query] for the query at position
    [idx]. *)
Definition batch_item (service : api) (cfg : config) (callback : bool) (total idx : nat)
    (q : query) (st : list batch_result * world) : list batch_result * world :=
  match text q with
  | None | Some "" => st                                     (* continue *)
  | Some query_text =>
      let '(result, w1) := query_with_retry service cfg query_text None st.2 in
      let entry :=
        if succeeded result
        then BatchResult (id q) true result None
        else BatchResult (id q) false None (Some "Failed after retries") in
      let w2 := if callback then emit (EvCallback (S idx) total (id q) result) w1
                else w1 in
      let w3 := if bool_decide (Z.of_nat idx < Z.of_nat total - 1)
                then emit (EvSleep (default 1%Q (rate_limit_delay cfg))) w2
                else w2 in
      (st.1 ++ [entry], w3)
  end.

Fixpoint batch_loop (service : api) (cfg : config) (callback : bool) (total idx : nat)
    (queries : list query) (st : list batch_result * world)
    : list batch_result * world :=
  match queries with
  | [] => st
  | q :: rest =>
      batch_loop service cfg callback total (S idx) rest
        (batch_item service cfg callback total idx q st)
  end.

(** [batch_query]. *)
Definition batch_query (service : api) (cfg : config) (callback : bool)
    (queries : list query) (w : world) : list batch_result * world :=
  batch_loop service cfg callback (length queries) 0 queries ([], w).

End ChatGPTClient.

(* ===================================================================== *)
(** * analyzer.py: the paired test *)
(* ===================================================================== *)

Module Analyzer.
Local Open Scope list_scope.
Local Set Warnings "-inexact-float".

(** A DataFrame by its numeric columns; a cell is a float (binary64, as in
    pandas) or missing. *)
Abbreviation dataframe := (gmap string (list (option float))).

Definition of_nat (n : nat) : float :=
  PrimFloat.of_uint63 (Uint63.of_Z (Z.of_nat n)).

(** [Series.sum], [Series.mean] and [Series.std] (sample standard
    deviation, ddof = 1) of a series without missing values. *)
Definition sum (xs : list float) : float := foldl PrimFloat.add 0%float xs.

Definition mean (xs : list float) : float :=
  PrimFloat.div (sum xs) (of_nat (length xs)).

Definition std (xs : list float) : float :=
  let m := mean xs in
  let squares := (λ x, PrimFloat.mul (PrimFloat.sub x m) (PrimFloat.sub x m)) <$> xs in
  PrimFloat.sqrt (PrimFloat.div (sum squares) (of_nat (length xs - 1))).

(** [df[[a, b]].dropna()]: the rows where both cells are present. *)
Definition dropna (rows : list (option float * option float)) : list (float * float) :=
  omap (λ r, match r with
             | (Some x, Some y) => Some (x, y)
             | _ => None
             end) rows.

(** [interpret_cohens_d]. *)
Definition interpret_cohens_d (d : float) : string :=
  let abs_d := PrimFloat.abs d in
  if PrimFloat.ltb abs_d 0.2%float then "negligible"
  else if PrimFloat.ltb abs_d 0.5%float then "small"
  else if PrimFloat.ltb abs_d 0.8%float then "medium"
  else "large".

(** The dictionary [paired_t_test] returns when the test is run. *)
Record t_test : Type := TTest {
  metric : string;
  n : nat;
  chatgpt_mean : float;
  google_mean : float;
  difference : float;
  t_statistic : float;
  p_value : float;
  significant : bool;
  cohens_d : float;
  interpretation : string
}.

Section WithLibraries.

(** [scipy.stats.ttest_rel]: the t statistic and the two-sided p-value. *)
Variable ttest_rel : list float → list float → float * float.

(** The builtin [round(x, ndigits)]. *)
Variable round : float → Z → float.

(** [paired_t_test]; [inl] is the dictionary with the single key
    [error]. *)
Definition paired_t_test (df : dataframe) (metric_name : string) : string + t_test :=
  let chatgpt_col := ("chatgpt_" ++ metric_name)%string in
  let google_col := ("google_" ++ metric_name)%string in
  match df !! chatgpt_col, df !! google_col with
  | Some chatgpt_cells, Some google_cells =>
      let paired_df := dropna (zip chatgpt_cells google_cells) in
      if (length paired_df <? 2)%nat then inl "Insufficient data for t-test"
      else
        let chatgpt_scores := paired_df.*1 in
        let google_scores := paired_df.*2 in
        let '(t, p) := ttest_rel chatgpt_scores google_scores in
        let chatgpt_m := mean chatgpt_scores in
        let google_m := mean google_scores in
        let diff := zip_with PrimFloat.sub chatgpt_scores google_scores in
        let d := PrimFloat.div (mean diff) (std diff) in
        inr (TTest metric_name (length paired_df)
               (round chatgpt_m 2) (round google_m 2)
               (round (PrimFloat.sub google_m chatgpt_m) 2)
               (round t 3) (round p 4)
               (PrimFloat.ltb p 0.05%float)
               (round d 3)
               (interpret_cohens_d d))
  | _, _ => inl ("Metric " ++ metric_name ++ " not found")%string
  end.

End WithLibraries.

End Analyzer.

(* ===================================================================== *)
(** * migrate_web_search_field.py *)
(* ===================================================================== *)

Module Migration.
Import DataManager.

Section Detect.

(** The number of citations the three groups of patterns find in a text:
    [len(domain_matches) + len(url_matches) + marker_matches]. *)
Variable count_citations : string → nat.

(** [detect_web_search_from_content].  A falsy value counts as no text;
    [None] is the [TypeError] of [re.findall] on a value that is truthy
    but not a string. *)
Definition detect_web_search_from_content (response_text : pyval) : option (bool * Z) :=
  if negb (truthy response_text) then Some (false, 0)
  else match response_text with
       | PStr s =>
           let total_citations := count_citations s in
           Some (bool_decide (0 < total_citations)%nat, Z.of_nat total_citations)
       | _ => None
       end.

(** The body of the loop of [migrate_results] for one entry: the entry as
    it is after the iteration, [None] when the iteration raises (a
    membership test on a value that has none, a subscript by a string on a
    string or a list, [.get] on a value that is not a dictionary). *)
Definition migrate_entry (data : pyval) : option pyval :=
  has_chatgpt ← contains data "chatgpt";
  if negb has_chatgpt then Some data else
  match data with
  | PDict e =>
      let chatgpt_data := get e "chatgpt" in
      if negb (truthy chatgpt_data) then Some data else
      known ← contains chatgpt_data "web_search_used";
      if (known : bool) then Some data else
      match chatgpt_data with
      | PDict c =>
          '(web_search_used, citation_count) ←
            detect_web_search_from_content (get_or c "response" (PStr ""));
          Some (PDict (<["chatgpt" :=
                          PDict (<["web_search_citations_count" := PInt citation_count]>
                                   (<["web_search_used" := PBool web_search_used]> c))]> e))
      | _ => None
      end
  | _ => None
  end.

(** [migrate_results], as whether it ran to its end and the directory it
    leaves.  Nothing in it is caught: a missing results file stops it at
    the copy, an undecodable one or one that holds no dictionary after the
    copy, and an entry that raises before anything is written back.  The
    results are written once, after the loop. *)
Definition migrate_results (now : instant) (d : fs) : bool * fs :=
  match d !! RESULTS_FILE with
  | None => (false, d)
  | Some content =>
      let d1 := <[RESULTS_FILE ++ ".backup_" ++ stamp now := content]> d in
      match content with
      | FJson (PDict results) =>
          if existsb (λ kv, negb (bool_decide (is_Some (migrate_entry kv.2)))) (map_to_list results)
          then (false, d1)
          else
            (true,
             <[RESULTS_FILE := FJson (PDict ((λ data, default data (migrate_entry data))
                                              <$> results))]> d1)
      | _ => (false, d1)
      end
  end.

End Detect.

End Migration.
(* ===================================================================== *)
(** * Facts about data_manager.py *)
(* ===================================================================== *)

Module DataManagerProofs.
Import DataManager.

(** ** Paths *)

Lemma append_nonempty_ne (a b : string) : b ≠ "" → (a ++ b)%string ≠ a.
Proof.
  intros Hb. induction a as [|c a IH]; simpl.
  - exact Hb.
  - intros H. injection H as H. by apply IH.
Qed.

Lemma backup_path_ne (now : instant) (filepath : string) :
  (filepath ++ ".backup_" ++ stamp now)%string ≠ filepath.
Proof. apply append_nonempty_ne. discriminate. Qed.

Lemma results_backup_not_progress (now : instant) :
  (RESULTS_FILE ++ ".backup_" ++ stamp now)%string ≠ PROGRESS_FILE.
Proof. discriminate. Qed.

Lemma progress_backup_not_results (now : instant) :
  (PROGRESS_FILE ++ ".backup_" ++ stamp now)%string ≠ RESULTS_FILE.
Proof. discriminate. Qed.

Lemma done_field_not_scored (platform : string) :
  (platform ++ "_done")%string ≠ "scored".
Proof.
  intros H.
  do 7 (destruct platform as [|? platform]; [simpl in H; discriminate H|]).
  simpl in H. discriminate H.
Qed.

(** ** Loading *)

Lemma load_json_fst (now : instant) (filepath : string) (d : fs) :
  (load_json now filepath d).1 = read_json filepath d.
Proof.
  unfold load_json, read_json.
  destruct (d !! filepath) as [[v|raw]|]; reflexivity.
Qed.

Lemma backup_file_lookup_ne (now : instant) (filepath path : string) (d : fs) :
  path ≠ (filepath ++ ".backup_" ++ stamp now)%string →
  backup_file now filepath d !! path = d !! path.
Proof.
  intros Hne. unfold backup_file.
  destruct (d !! filepath); [|reflexivity].
  by rewrite lookup_insert_ne.
Qed.

Lemma backup_file_lookup_backup (now : instant) (filepath : string) (d : fs) (c : file) :
  d !! filepath = Some c →
  backup_file now filepath d !! (filepath ++ ".backup_" ++ stamp now)%string = Some c.
Proof.
  intros Hc. unfold backup_file. rewrite Hc. apply lookup_insert_eq.
Qed.

Lemma load_json_snd_lookup_ne (now : instant) (filepath path : string) (d : fs) :
  path ≠ (filepath ++ ".backup_" ++ stamp now)%string →
  (load_json now filepath d).2 !! path = d !! path.
Proof.
  intros Hne. unfold load_json.
  destruct (d !! filepath) as [[v|raw]|]; simpl; try reflexivity.
  by apply backup_file_lookup_ne.
Qed.

Lemma load_json_snd_lookup_self (now : instant) (filepath : string) (d : fs) :
  (load_json now filepath d).2 !! filepath = d !! filepath.
Proof.
  apply load_json_snd_lookup_ne. intros H. symmetry in H.
  by apply backup_path_ne in H.
Qed.

Lemma read_json_ext (filepath : string) (d d' : fs) :
  d !! filepath = d' !! filepath → read_json filepath d = read_json filepath d'.
Proof. unfold read_json. by intros ->. Qed.

Lemma read_json_insert (filepath : string) (v : pyval) (d : fs) :
  read_json filepath (<[filepath := FJson v]> d) = v.
Proof. unfold read_json. by rewrite lookup_insert_eq. Qed.

(** ** What each operation writes *)

(** [update_progress] either fails and leaves the directory as it was, or
    rewrites the entry of its query, starting from the existing entry or
    from the fresh one. *)
Lemma update_progress_cases (now : instant) (q : Z) (sf : string) (d : fs) :
  update_progress now q sf d = (false, d)
  ∨ ∃ e,
      (progress_of d !! str_int q = Some (PDict e)
       ∨ (progress_of d !! str_int q = None ∧ e = fresh_progress))
      ∧ update_progress now q sf d =
          (true,
           <[PROGRESS_FILE :=
               FJson (PDict (<[str_int q :=
                                 PDict (<["last_updated" := PStr (isoformat now)]>
                                          (<[sf := PBool true]> e))]>
                               (progress_of d)))]>
             ((load_progress now d).2)).
Proof.
  unfold update_progress, progress_of, load_progress, load_json, read_json.
  destruct (d !! PROGRESS_FILE) as [[v|raw]|] eqn:Hfile; simpl.
  - destruct v as [| | | | | |p]; simpl; try (by left).
    destruct (p !! str_int q) as [entry|] eqn:Hk.
    + rewrite Hk. destruct entry as [| | | | | |e]; try (by left).
      right. exists e. split; [by left|]. reflexivity.
    + rewrite lookup_insert_eq. right. exists fresh_progress.
      split; [by right|]. by rewrite insert_insert_eq.
  - rewrite lookup_empty, lookup_insert_eq. right. exists fresh_progress.
    split; [by right|]. by rewrite insert_insert_eq.
  - rewrite lookup_empty, lookup_insert_eq. right. exists fresh_progress.
    split; [by right|]. by rewrite insert_insert_eq.
Qed.

(** Outside the progress file and its backup path, [update_progress]
    changes nothing. *)
Lemma update_progress_lookup_ne (now : instant) (q : Z) (sf path : string) (d : fs) :
  path ≠ PROGRESS_FILE →
  path ≠ (PROGRESS_FILE ++ ".backup_" ++ stamp now)%string →
  (update_progress now q sf d).2 !! path = d !! path.
Proof.
  intros Hp Hb.
  destruct (update_progress_cases now q sf d) as [->|(e & _ & ->)]; simpl.
  - reflexivity.
  - rewrite lookup_insert_ne by done.
    by apply load_json_snd_lookup_ne.
Qed.

(** The progress dictionary after [update_progress]. *)
Lemma update_progress_progress (now : instant) (q : Z) (sf : string) (d : fs) :
  progress_of (update_progress now q sf d).2 = progress_of d
  ∨ ∃ e,
      (progress_of d !! str_int q = Some (PDict e)
       ∨ (progress_of d !! str_int q = None ∧ e = fresh_progress))
      ∧ progress_of (update_progress now q sf d).2 =
          <[str_int q :=
              PDict (<["last_updated" := PStr (isoformat now)]>
                       (<[sf := PBool true]> e))]> (progress_of d).
Proof.
  destruct (update_progress_cases now q sf d) as [->|(e & He & ->)]; simpl.
  - by left.
  - right. exists e. split; [exact He|].
    unfold progress_of at 1. by rewrite read_json_insert.
Qed.

(** The directory [save_result] and [save_scores] hand to
    [update_progress]: the results file rewritten with the new entry, after
    the backup of its previous content. *)
Definition results_written (now : instant) (q : Z) (entry : gmap string pyval)
    (d : fs) : fs :=
  <[RESULTS_FILE := FJson (PDict (<[str_int q := PDict entry]> (results_of d)))]>
    (backup_file now RESULTS_FILE (load_results now d).2).

Lemma results_written_results (now : instant) (q : Z) (entry : gmap string pyval) (d : fs) :
  results_of (results_written now q entry d) = <[str_int q := PDict entry]> (results_of d).
Proof. unfold results_written, results_of at 1. by rewrite read_json_insert. Qed.

Lemma results_written_progress (now : instant) (q : Z) (entry : gmap string pyval) (d : fs) :
  results_written now q entry d !! PROGRESS_FILE = d !! PROGRESS_FILE.
Proof.
  unfold results_written. rewrite lookup_insert_ne by discriminate.
  rewrite backup_file_lookup_ne by (symmetry; apply results_backup_not_progress).
  apply load_json_snd_lookup_ne. symmetry. apply results_backup_not_progress.
Qed.

Lemma results_written_backup (now : instant) (q : Z) (entry : gmap string pyval)
    (d : fs) (c : file) :
  d !! RESULTS_FILE = Some c →
  results_written now q entry d !! (RESULTS_FILE ++ ".backup_" ++ stamp now)%string = Some c.
Proof.
  intros Hc. unfold results_written.
  rewrite lookup_insert_ne by (symmetry; apply backup_path_ne).
  apply backup_file_lookup_backup.
  unfold load_results. by rewrite load_json_snd_lookup_self.
Qed.

Lemma save_result_cases (now : instant) (q : Z) (platform : string)
    (rd : gmap string pyval) (d : fs) :
  save_result now q platform rd d = (false, d)
  ∨ ∃ e,
      (results_of d !! str_int q = Some (PDict e)
       ∨ (results_of d !! str_int q = None ∧ e = fresh_result q))
      ∧ save_result now q platform rd d =
          (true,
           (update_progress now q (platform ++ "_done")
              (results_written now q
                 (<[platform := PDict (with_timestamp now rd)]> e) d)).2).
Proof.
  unfold save_result, results_written, results_of, load_results, load_json, read_json.
  destruct (d !! RESULTS_FILE) as [[v|raw]|] eqn:Hfile; simpl.
  - destruct v as [| | | | | |r]; simpl; try (by left).
    destruct (r !! str_int q) as [entry|] eqn:Hk.
    + rewrite Hk. destruct entry as [| | | | | |e]; try (by left).
      right. exists e. split; [by left|].
      by destruct (update_progress _ _ _ _).
    + rewrite lookup_insert_eq. right. exists (fresh_result q).
      split; [by right|]. rewrite insert_insert_eq.
      by destruct (update_progress _ _ _ _).
  - rewrite lookup_empty, lookup_insert_eq. right. exists (fresh_result q).
    split; [by right|]. rewrite insert_insert_eq.
    by destruct (update_progress _ _ _ _).
  - rewrite lookup_empty, lookup_insert_eq. right. exists (fresh_result q).
    split; [by right|]. rewrite insert_insert_eq.
    by destruct (update_progress _ _ _ _).
Qed.

Lemma save_scores_cases (now : instant) (q : Z) (scores : pyval) (d : fs) :
  (save_scores now q scores d).1 = false
  ∧ (∀ path, path ≠ (RESULTS_FILE ++ ".backup_" ++ stamp now)%string →
             (save_scores now q scores d).2 !! path = d !! path)
  ∨ ∃ e s,
      results_of d !! str_int q = Some (PDict e)
      ∧ scores = PDict s
      ∧ save_scores now q scores d =
          (true,
           (update_progress now q "scored"
              (results_written now q
                 (<["scores" := PDict (<["timestamp" := PStr (isoformat now)]> s)]> e)
                 d)).2).
Proof.
  unfold save_scores, results_written, results_of, load_results, load_json, read_json.
  destruct (d !! RESULTS_FILE) as [[v|raw]|] eqn:Hfile; simpl.
  - destruct v as [| | | | | |r]; simpl; try (by left).
    destruct (r !! str_int q) as [entry|] eqn:Hk; [|by left].
    destruct scores as [| | | | | |s]; try (by left).
    destruct entry as [| | | | | |e]; try (by left).
    right. exists e, s. repeat split.
    by destruct (update_progress _ _ _ _).
  - rewrite lookup_empty. left. split; [done|].
    intros path Hne. by apply backup_file_lookup_ne.
  - rewrite lookup_empty. by left.
Qed.

(** ** The progress invariant *)

Lemma progress_of_ext (d d' : fs) :
  d !! PROGRESS_FILE = d' !! PROGRESS_FILE → progress_of d = progress_of d'.
Proof. intros H. unfold progress_of. by rewrite (read_json_ext _ _ _ H). Qed.

(** A flag of the rewritten entry: set when it is the field being marked,
    as before otherwise. *)
Lemma flag_after_update (e : gmap string pyval) (sf f : string) (v : pyval) :
  f ≠ "last_updated" →
  truthy (get_or (<["last_updated" := v]> (<[sf := PBool true]> e)) f (PBool false))
  = if decide (sf = f) then true else truthy (get_or e f (PBool false)).
Proof.
  intros Hf. unfold get_or.
  rewrite lookup_insert_ne by done. rewrite lookup_insert.
  by case_decide.
Qed.

Lemma entry_ok_fresh : entry_ok fresh_progress = true.
Proof. reflexivity. Qed.

Lemma entry_ok_mark (e : gmap string pyval) (sf : string) (v : pyval) :
  sf ≠ "scored" →
  entry_ok e = true →
  entry_ok (<["last_updated" := v]> (<[sf := PBool true]> e)) = true.
Proof.
  intros Hsf. unfold entry_ok.
  rewrite !flag_after_update by discriminate.
  rewrite decide_False by done.
  destruct (truthy (get_or e "scored" _)); [simpl|done].
  intros [-> ->]%andb_true_iff.
  by repeat case_decide.
Qed.

Lemma entry_ok_scored (e : gmap string pyval) (v : pyval) :
  truthy (get_or e "chatgpt_done" (PBool false))
  && truthy (get_or e "google_done" (PBool false)) = true →
  entry_ok (<["last_updated" := v]> (<["scored" := PBool true]> e)) = true.
Proof.
  intros H. unfold entry_ok.
  rewrite !flag_after_update by discriminate.
  rewrite decide_True by done.
  rewrite !decide_False by discriminate.
  by rewrite H.
Qed.

Lemma update_progress_preserves (now : instant) (q : Z) (sf : string) (d : fs) :
  progress_invariant d →
  sf ≠ "scored" ∨ both_done d q = true →
  progress_invariant (update_progress now q sf d).2.
Proof.
  intros Hinv Hsf k e'.
  destruct (update_progress_progress now q sf d) as [->|(e & He & ->)].
  { apply Hinv. }
  rewrite lookup_insert. case_decide as Hk; [|apply Hinv].
  intros [= <-].
  assert (entry_ok e = true) as Hok.
  { destruct He as [He|[_ ->]]; [by apply (Hinv _ _ He)|apply entry_ok_fresh]. }
  destruct Hsf as [Hsf|Hboth]; [by apply entry_ok_mark|].
  destruct (decide (sf = "scored")) as [->|Hne]; [|by apply entry_ok_mark].
  apply entry_ok_scored.
  unfold both_done in Hboth.
  destruct He as [He|[He _]]; rewrite He in Hboth; [exact Hboth|discriminate].
Qed.

Lemma progress_invariant_ext (d d' : fs) :
  d !! PROGRESS_FILE = d' !! PROGRESS_FILE →
  progress_invariant d → progress_invariant d'.
Proof.
  intros H Hinv k e. rewrite <- (progress_of_ext _ _ H). apply Hinv.
Qed.

Lemma both_done_ext (d d' : fs) (q : Z) :
  d !! PROGRESS_FILE = d' !! PROGRESS_FILE → both_done d q = both_done d' q.
Proof. intros H. unfold both_done. by rewrite (progress_of_ext _ _ H). Qed.

Lemma save_result_preserves (now : instant) (q : Z) (platform : string)
    (rd : gmap string pyval) (d : fs) :
  progress_invariant d →
  progress_invariant (save_result now q platform rd d).2.
Proof.
  intros Hinv.
  destruct (save_result_cases now q platform rd d) as [->|(e & _ & ->)]; simpl.
  { exact Hinv. }
  apply update_progress_preserves.
  - eapply progress_invariant_ext; [|exact Hinv].
    symmetry. apply results_written_progress.
  - left. apply done_field_not_scored.
Qed.

Lemma save_scores_preserves (now : instant) (q : Z) (scores : pyval) (d : fs) :
  progress_invariant d →
  ((save_scores now q scores d).1 = true → both_done d q = true) →
  progress_invariant (save_scores now q scores d).2.
Proof.
  intros Hinv Hguard.
  destruct (save_scores_cases now q scores d) as [[_ Hsame]|(e & s & _ & _ & Heq)].
  - eapply progress_invariant_ext; [|exact Hinv].
    symmetry. apply Hsame. symmetry. apply results_backup_not_progress.
  - rewrite Heq in Hguard |- *. simpl in *.
    apply update_progress_preserves.
    + eapply progress_invariant_ext; [|exact Hinv].
      symmetry. apply results_written_progress.
    + right. rewrite <- (Hguard eq_refl).
      apply both_done_ext, results_written_progress.
Qed.

(** C1, as amended.  From a store that satisfies the progress invariant,
    every sequence of [save_result] and [save_scores] in which each
    [save_scores] that succeeds finds both response flags of its query set
    leads to a store that satisfies it: every progress entry with
    [scored] set has [chatgpt_done] and [google_done] set. *)
Theorem progress_invariant_run (ops : list op) (d : fs) :
  progress_invariant d →
  scores_follow_responses ops d →
  progress_invariant (run ops d).
Proof.
  revert d. induction ops as [|o ops IH]; intros d Hinv Hops; simpl.
  { exact Hinv. }
  destruct Hops as [Hhere Hrest].
  apply IH; [|exact Hrest].
  destruct o as [now q platform rd|now q scores]; simpl.
  - by apply save_result_preserves.
  - by apply save_scores_preserves.
Qed.

(** ** The results store after a save *)

Lemma str_int_inj (q q' : Z) : str_int q = str_int q' → q = q'.
Proof. unfold str_int. apply (inj pretty). Qed.

Lemma update_progress_results (now : instant) (q : Z) (sf : string) (d : fs) :
  results_of (update_progress now q sf d).2 = results_of d.
Proof.
  unfold results_of. apply f_equal, read_json_ext.
  apply update_progress_lookup_ne; [discriminate|].
  symmetry. apply progress_backup_not_results.
Qed.

Lemma field_of_insert (m e : gmap string pyval) (k f : string) :
  field_of (<[k := PDict e]> m) k f = get e f.
Proof. unfold field_of, get_or. by rewrite lookup_insert_eq. Qed.

Lemma fresh_result_other (q : Z) (f : string) :
  f ≠ "query_id" → get (fresh_result q) f = PNone.
Proof.
  intros Hf. unfold get, fresh_result.
  rewrite lookup_insert_ne by done.
  repeat (rewrite lookup_insert; case_decide; [done|]).
  rewrite lookup_singleton. by case_decide.
Qed.

(** C10.  A [save_result] that returns [True] rewrites one entry of the
    results file.  The entries under every other key, so those of every
    other query, are the ones read before.  In the query's own entry the
    platform's field holds a dictionary with the caller's keys and values
    and a timestamp: the caller's when the payload carries one, the time of
    the call otherwise.  Every other field of the entry reads as before,
    the other platform's response and the scores among them; for an entry
    that was there before the call this holds key by key, [query_id]
    included, and an entry made by the call has [query_id] and nothing
    else that is set. *)
Theorem save_result_frame (now : instant) (q : Z) (platform : string)
    (rd : gmap string pyval) (d : fs) :
  (save_result now q platform rd d).1 = true →
  (∀ k, k ≠ str_int q →
        results_of (save_result now q platform rd d).2 !! k = results_of d !! k)
  ∧ (∀ q', q' ≠ q →
        results_of (save_result now q platform rd d).2 !! str_int q'
        = results_of d !! str_int q')
  ∧ (∃ stored,
        field_of (results_of (save_result now q platform rd d).2) (str_int q) platform
        = PDict stored
        ∧ stored !! "timestamp"
          = Some (match rd !! "timestamp" with
                  | Some t => t
                  | None => PStr (isoformat now)
                  end)
        ∧ ∀ k, k ≠ "timestamp" → stored !! k = rd !! k)
  ∧ (∀ f, f ≠ platform → f ≠ "query_id" →
        field_of (results_of (save_result now q platform rd d).2) (str_int q) f
        = field_of (results_of d) (str_int q) f)
  ∧ (∃ entry,
        results_of (save_result now q platform rd d).2 !! str_int q = Some (PDict entry)
        ∧ ∀ f, f ≠ platform →
            entry !! f = match results_of d !! str_int q with
                         | Some before => as_dict before !! f
                         | None => fresh_result q !! f
                         end).
Proof.
  intros Hok.
  destruct (save_result_cases now q platform rd d) as [Heq|(e & He & Heq)];
    rewrite Heq in Hok |- *; simpl in *; [discriminate|].
  rewrite update_progress_results, results_written_results.
  assert (∀ k, k ≠ str_int q →
    <[str_int q := PDict (<[platform := PDict (with_timestamp now rd)]> e)]>
      (results_of d) !! k = results_of d !! k) as Hother.
  { intros k Hk. by rewrite lookup_insert_ne. }
  split; [exact Hother|]. split.
  { intros q' Hq'. apply Hother. intros H. by apply str_int_inj in H. }
  split.
  { exists (with_timestamp now rd). split.
    { rewrite field_of_insert. unfold get. by rewrite lookup_insert_eq. }
    unfold with_timestamp. destruct (rd !! "timestamp") as [t|] eqn:Ht.
    - by split.
    - split; [by rewrite lookup_insert_eq|].
      intros k Hk. by rewrite lookup_insert_ne. }
  split.
  { intros f Hf Hid. rewrite field_of_insert.
    unfold get at 1. rewrite lookup_insert_ne by done.
    destruct He as [He|[He ->]].
    - unfold field_of, get_or, get. by rewrite He.
    - fold (get (fresh_result q) f). rewrite fresh_result_other by done.
      unfold field_of, get_or, get. rewrite He. simpl. by rewrite lookup_empty. }
  eexists. split; [by rewrite lookup_insert_eq|].
  intros f Hf. rewrite lookup_insert_ne by done.
  destruct He as [He|[He ->]]; by rewrite He.
Qed.

(** ** Concrete runs *)

Definition t0 : instant := Instant "2025-01-01T10:00:00" "20250101_100000".
Definition t1 : instant := Instant "2025-01-01T10:05:00" "20250101_100500".

Definition paris : gmap string pyval := {[ "response" := PStr "Paris" ]}.

Definition full_scores : gmap string pyval :=
  {[ "chatgpt_relevance" := PInt 5; "chatgpt_completeness" := PInt 4;
     "chatgpt_source_quality" := PInt 4; "google_relevance" := PInt 3;
     "google_completeness" := PInt 4; "google_source_quality" := PInt 5;
     "chatgpt_intent_understood" := PBool true;
     "google_intent_understood" := PBool true ]}.

(** One response saved, then the scores. *)
Definition scored_early : list op :=
  [SaveResult t0 0 "chatgpt" paris; SaveScores t1 0 (PDict full_scores)].

(** Both responses saved, then the scores. *)
Definition scored_late : list op :=
  [SaveResult t0 0 "chatgpt" paris; SaveResult t0 0 "google" paris;
   SaveScores t1 0 (PDict full_scores)].

Lemma progress_invariant_empty : progress_invariant ∅.
Proof. intros k e H. vm_compute in H. discriminate H. Qed.

(** C1, as stated, fails.  Starting from the empty directory, saving the
    ChatGPT response of query 0 and then its scores leaves the progress
    entry with [scored] set and [google_done] not set.  And when the
    progress file is gone (after [reset_progress]) while the results hold
    both responses, [save_scores] creates the entry with [scored] set and
    neither response flag set. *)
Lemma scored_before_both_responses :
  field_of (progress_of (run scored_early ∅)) "0" "scored" = PBool true
  ∧ field_of (progress_of (run scored_early ∅)) "0" "google_done" = PBool false
  ∧ ¬ progress_invariant (run scored_early ∅)
  ∧ (let d := (reset_progress t0
                 (run [SaveResult t0 0 "chatgpt" paris;
                       SaveResult t0 0 "google" paris] ∅)).2 in
     progress_of d !! "0" = None
     ∧ (save_scores t1 0 (PDict full_scores) d).1 = true
     ∧ field_of (progress_of (save_scores t1 0 (PDict full_scores) d).2) "0" "scored"
       = PBool true
     ∧ field_of (progress_of (save_scores t1 0 (PDict full_scores) d).2) "0" "chatgpt_done"
       = PBool false
     ∧ field_of (progress_of (save_scores t1 0 (PDict full_scores) d).2) "0" "google_done"
       = PBool false).
Proof.
  split; [by vm_compute|]. split; [by vm_compute|]. split.
  - intros Hinv.
    assert (∃ e, progress_of (run scored_early ∅) !! "0" = Some (PDict e)
                 ∧ entry_ok e = false) as (e & He & Hbad).
    { eexists. split; [vm_compute; reflexivity|]. by vm_compute. }
    specialize (Hinv _ _ He). congruence.
  - repeat split; by vm_compute.
Qed.

(** The amended C1 on the run that saves both responses before the
    scores. *)
Lemma progress_invariant_run_witness :
  progress_invariant ∅
  ∧ scores_follow_responses scored_late ∅
  ∧ progress_invariant (run scored_late ∅).
Proof.
  assert (scores_follow_responses scored_late ∅) as Hops.
  { vm_compute; repeat split; done. }
  split; [exact progress_invariant_empty|]. split; [exact Hops|].
  exact (progress_invariant_run scored_late ∅ progress_invariant_empty Hops).
Defined.

(** A store with two queries: query 0 has both responses and scores,
    query 1 a ChatGPT response. *)
Definition rome : gmap string pyval := {[ "response" := PStr "Rome" ]}.

Definition populated : fs :=
  run [SaveResult t0 0 "chatgpt" paris; SaveResult t0 0 "google" paris;
       SaveScores t0 0 (PDict full_scores); SaveResult t0 1 "chatgpt" paris] ∅.

(** C10 on that store, when the Google response of query 0 is saved again
    with another text and no timestamp: the entry of query 1, the ChatGPT
    response of query 0 and its scores are there and stay as they are, and
    the Google field changes to the new text with the time of the call. *)
Lemma save_result_frame_witness :
  (save_result t1 0 "google" rome populated).1 = true
  ∧ ((∀ k, k ≠ str_int 0 →
        results_of (save_result t1 0 "google" rome populated).2 !! k
        = results_of populated !! k)
     ∧ (∀ q', q' ≠ 0 →
        results_of (save_result t1 0 "google" rome populated).2 !! str_int q'
        = results_of populated !! str_int q')
     ∧ (∃ stored,
        field_of (results_of (save_result t1 0 "google" rome populated).2)
                 (str_int 0) "google" = PDict stored
        ∧ stored !! "timestamp"
          = Some (match rome !! "timestamp" with
                  | Some t => t
                  | None => PStr (isoformat t1)
                  end)
        ∧ ∀ k, k ≠ "timestamp" → stored !! k = rome !! k)
     ∧ (∀ f, f ≠ "google" → f ≠ "query_id" →
        field_of (results_of (save_result t1 0 "google" rome populated).2) (str_int 0) f
        = field_of (results_of populated) (str_int 0) f)
     ∧ (∃ entry,
        results_of (save_result t1 0 "google" rome populated).2 !! str_int 0
        = Some (PDict entry)
        ∧ ∀ f, f ≠ "google" →
            entry !! f = match results_of populated !! str_int 0 with
                         | Some before => as_dict before !! f
                         | None => fresh_result 0 !! f
                         end))
  ∧ results_of (save_result t1 0 "google" rome populated).2 !! "1"
    = Some (PDict {[ "query_id" := PInt 1;
                     "chatgpt" := PDict {[ "response" := PStr "Paris";
                                           "timestamp" := PStr "2025-01-01T10:00:00" ]};
                     "google" := PNone; "scores" := PNone ]})
  ∧ field_of (results_of (save_result t1 0 "google" rome populated).2) "0" "chatgpt"
    = PDict {[ "response" := PStr "Paris"; "timestamp" := PStr "2025-01-01T10:00:00" ]}
  ∧ field_of (results_of (save_result t1 0 "google" rome populated).2) "0" "scores"
    = PDict (<["timestamp" := PStr "2025-01-01T10:00:00"]> full_scores)
  ∧ field_of (results_of populated) "0" "google"
    = PDict {[ "response" := PStr "Paris"; "timestamp" := PStr "2025-01-01T10:00:00" ]}
  ∧ field_of (results_of (save_result t1 0 "google" rome populated).2) "0" "google"
    = PDict {[ "response" := PStr "Rome"; "timestamp" := PStr "2025-01-01T10:05:00" ]}.
Proof.
  assert ((save_result t1 0 "google" rome populated).1 = true) as Hok by (by vm_compute).
  pose proof (save_result_frame t1 0 "google" rome populated Hok) as Hframe.
  split; [exact Hok|]. split; [exact Hframe|].
  destruct Hframe as (Hkeys & _ & _ & Hfields & _).
  split.
  { rewrite (Hkeys "1") by done. by vm_compute. }
  split.
  { change "0" with (str_int 0). rewrite (Hfields "chatgpt") by done. by vm_compute. }
  split.
  { change "0" with (str_int 0). rewrite (Hfields "scores") by done. by vm_compute. }
  split; by vm_compute.
Defined.

(** ** Backups *)

(** A successful [save_result] leaves the previous results file under the
    backup path. *)
Lemma save_result_backs_up (now : instant) (q : Z) (platform : string)
    (rd : gmap string pyval) (d : fs) (c : file) :
  (save_result now q platform rd d).1 = true →
  d !! RESULTS_FILE = Some c →
  (save_result now q platform rd d).2 !! (RESULTS_FILE ++ ".backup_" ++ stamp now)%string
  = Some c.
Proof.
  intros Hok Hc.
  destruct (save_result_cases now q platform rd d) as [Heq|(e & _ & Heq)];
    rewrite Heq in Hok |- *; simpl in *; [discriminate|].
  rewrite update_progress_lookup_ne; [by apply results_written_backup|discriminate|].
  discriminate.
Qed.

(** So does a successful [save_scores]. *)
Lemma save_scores_backs_up (now : instant) (q : Z) (scores : pyval) (d : fs) (c : file) :
  (save_scores now q scores d).1 = true →
  d !! RESULTS_FILE = Some c →
  (save_scores now q scores d).2 !! (RESULTS_FILE ++ ".backup_" ++ stamp now)%string
  = Some c.
Proof.
  intros Hok Hc.
  destruct (save_scores_cases now q scores d) as [[Hf _]|(e & s & _ & _ & Heq)].
  { congruence. }
  rewrite Heq. simpl.
  rewrite update_progress_lookup_ne; [by apply results_written_backup|discriminate|].
  discriminate.
Qed.

(** [update_progress] on a progress file that parses touches no other
    path: the content it overwrites is kept nowhere. *)
Lemma update_progress_keeps_no_copy (now : instant) (q : Z) (sf : string)
    (d : fs) (v : pyval) (path : string) :
  d !! PROGRESS_FILE = Some (FJson v) →
  path ≠ PROGRESS_FILE →
  (update_progress now q sf d).2 !! path = d !! path.
Proof.
  intros Hv Hpath.
  destruct (update_progress_cases now q sf d) as [->|(e & _ & ->)]; simpl; [done|].
  rewrite lookup_insert_ne by done.
  unfold load_progress, load_json. by rewrite Hv.
Qed.

(** C6 at a concrete directory.  After the ChatGPT response of query 0 is
    saved, the progress file exists.  [update_progress] then overwrites it
    (the [google_done] flag of query 0 changes) and the directory holds the
    same paths as before: no backup of the progress file was made.  A
    [save_result] on the same directory, by contrast, leaves the results
    file it overwrites under the backup path. *)
Theorem update_progress_overwrites_without_backup :
  let d := (save_result t0 0 "chatgpt" paris ∅).2 in
  let d' := (update_progress t1 0 "google_done" d).2 in
  is_Some (d !! PROGRESS_FILE)
  ∧ field_of (progress_of d) "0" "google_done" = PBool false
  ∧ field_of (progress_of d') "0" "google_done" = PBool true
  ∧ dom d' = dom d
  ∧ d' !! (PROGRESS_FILE ++ ".backup_" ++ stamp t1)%string = None
  ∧ is_Some (d !! RESULTS_FILE)
  ∧ (save_result t1 0 "google" paris d).2 !! (RESULTS_FILE ++ ".backup_" ++ stamp t1)%string
    = d !! RESULTS_FILE.
Proof.
  repeat split; try (by vm_compute); vm_compute; eexists; reflexivity.
Qed.

End DataManagerProofs.

(* ===================================================================== *)
(** * Facts about the work queues and the progress file *)
(* ===================================================================== *)

Module WorkQueueProofs.
Import DataManager DataManagerProofs.
Local Open Scope list_scope.

(** ** The shared loop *)

(** With a batch size of at least 1 the loop returns the first
    [batch_size] queries that need work, in dataset order. *)
Lemma needing_loop_take (needs : query → option bool) (p : query → bool)
    (batch_size : Z) (queries needed : list query) :
  (∀ q, q ∈ queries → needs q = Some (p q)) →
  Z.of_nat (length needed) < batch_size →
  needing_loop needs batch_size queries needed
  = Some (needed ++ take (Z.to_nat batch_size - length needed)
                         (filter (λ q, p q = true) queries)).
Proof.
  revert needed. induction queries as [|q queries IH]; intros needed Hneeds Hlen.
  { cbn. by rewrite take_nil, app_nil_r. }
  cbn [needing_loop]. rewrite (Hneeds q) by (apply elem_of_cons; by left).
  assert (∀ q', q' ∈ queries → needs q' = Some (p q')) as Hrest.
  { intros q' Hq'. apply Hneeds. apply elem_of_cons. by right. }
  destruct (p q) eqn:Hp.
  - rewrite filter_cons_True by done. rewrite length_app. cbn [length].
    destruct (Z.to_nat batch_size - length needed)%nat as [|m] eqn:Hm; [lia|].
    cbn [take]. case_bool_decide as Hfull.
    + assert (m = 0%nat) as -> by lia. by rewrite take_0.
    + rewrite IH; [|done|rewrite length_app; cbn [length]; lia].
      rewrite length_app. cbn [length].
      replace (Z.to_nat batch_size - (length needed + 1))%nat with m by lia.
      by rewrite <- app_assoc.
  - rewrite filter_cons_False by (by rewrite Hp).
    rewrite bool_decide_false by lia. by apply IH.
Qed.

(** With a batch size below 1 the loop stops after the first query,
    whatever it did with it. *)
Lemma needing_loop_nonpositive (needs : query → option bool) (p : query → bool)
    (batch_size : Z) (queries : list query) :
  (∀ q, q ∈ queries → needs q = Some (p q)) →
  batch_size ≤ 0 →
  needing_loop needs batch_size queries []
  = Some (filter (λ q, p q = true) (take 1 queries)).
Proof.
  intros Hneeds Hsize. destruct queries as [|q queries]; [done|].
  cbn [needing_loop take]. rewrite (Hneeds q) by (apply elem_of_cons; by left).
  destruct (p q) eqn:Hp.
  - rewrite bool_decide_true by (cbn; lia).
    by rewrite filter_cons_True.
  - rewrite bool_decide_true by (cbn; lia).
    by rewrite filter_cons_False by (by rewrite Hp).
Qed.

(** Whatever the loop returns was in the list it started with or is a
    query that needs work. *)
Lemma needing_loop_elem_of (needs : query → option bool) (batch_size : Z)
    (queries needed result : list query) (x : query) :
  needing_loop needs batch_size queries needed = Some result →
  x ∈ result → x ∈ needed ∨ (x ∈ queries ∧ needs x = Some true).
Proof.
  revert needed. induction queries as [|q queries IH]; intros needed; cbn [needing_loop].
  { intros [= <-] ?. by left. }
  destruct (needs q) as [b|] eqn:Hq; [|done].
  assert (x ∈ (if b then needed ++ [q] else needed) →
          x ∈ needed ∨ x ∈ q :: queries ∧ needs x = Some true) as Hstep.
  { destruct b; [|by left].
    intros [?|Hx%list_elem_of_singleton]%elem_of_app; [by left|]. subst x.
    right. split; [apply elem_of_cons; by left|done]. }
  case_bool_decide.
  - intros [= <-]. exact Hstep.
  - intros Hloop Hx. destruct (IH _ Hloop Hx) as [?|[? ?]]; [by apply Hstep|].
    right. split; [apply elem_of_cons; by right|done].
Qed.

(** ** Reading the flags *)

(** A flag of a query as the progress file has it. *)
Definition flag_set (d : fs) (query_id : Z) (flag : string) : bool :=
  truthy (field_of (progress_of d) (str_int query_id) flag).

Lemma truthy_get_or_false (e : gmap string pyval) (flag : string) :
  truthy (get_or e flag (PBool false)) = truthy (get e flag).
Proof. unfold get_or, get. by destruct (e !! flag). Qed.

Lemma progress_flag_well_formed (now : instant) (d : fs) (q : Z) (flag : string) :
  progress_well_formed d →
  progress_flag (load_progress now d).1 (str_int q) flag = Some (flag_set d q flag).
Proof.
  intros (p & Hp & Hentries). unfold load_progress. rewrite load_json_fst, Hp.
  unfold flag_set, progress_of, field_of, progress_flag. rewrite Hp. cbn [as_dict].
  unfold get_or, get. destruct (p !! str_int q) as [v|] eqn:Hv; simpl.
  - destruct (Hentries _ _ Hv) as [e ->]. simpl. by destruct (e !! flag).
  - by rewrite lookup_empty.
Qed.

(** ** The three queues *)

(** The query lacks a stage, going by the progress file. *)
Definition lacks (d : fs) (flag : string) (q : query) : bool :=
  negb (flag_set d (id q) flag).

(** Some stage of the query is left. *)
Definition incomplete (d : fs) (q : query) : bool :=
  negb (flag_set d (id q) "chatgpt_done" && flag_set d (id q) "google_done"
        && flag_set d (id q) "scored").

Lemma next_batch_needs (now : instant) (d : fs) (q : query) :
  progress_well_formed d →
  (a ← progress_flag (load_progress now d).1 (str_int (id q)) "chatgpt_done";
   b ← progress_flag (load_progress now d).1 (str_int (id q)) "google_done";
   c ← progress_flag (load_progress now d).1 (str_int (id q)) "scored";
   Some (negb (a && b && c)))
  = Some (incomplete d q).
Proof. intros Hwf. by rewrite !progress_flag_well_formed. Qed.

(** With a batch size of at least 1 and a usable progress file, each of
    the three queue functions returns the first [batch_size] queries of the
    dataset, in dataset order, that lack its stage. *)
Theorem queues_take_first_needed (now : instant) (queries : list query)
    (batch_size : Z) (d : fs) :
  progress_well_formed d →
  1 ≤ batch_size →
  (get_queries_needing_chatgpt now queries batch_size d).1
  = Some (take (Z.to_nat batch_size)
               (filter (λ q, lacks d "chatgpt_done" q = true) queries))
  ∧ (get_queries_needing_google now queries batch_size d).1
    = Some (take (Z.to_nat batch_size)
                 (filter (λ q, lacks d "google_done" q = true) queries))
  ∧ (get_next_batch now queries batch_size d).1
    = Some (take (Z.to_nat batch_size)
                 (filter (λ q, incomplete d q = true) queries)).
Proof.
  intros Hwf Hsize.
  unfold get_queries_needing_chatgpt, get_queries_needing_google, get_next_batch.
  destruct (load_progress now d) as [progress d1] eqn:Hload. cbn [fst].
  assert (progress = (load_progress now d).1) as -> by (by rewrite Hload).
  repeat split.
  - rewrite (needing_loop_take _ (lacks d "chatgpt_done")); [|intros q _|cbn; lia].
    + cbn [app length]. by rewrite Nat.sub_0_r.
    + by rewrite progress_flag_well_formed.
  - rewrite (needing_loop_take _ (lacks d "google_done")); [|intros q _|cbn; lia].
    + cbn [app length]. by rewrite Nat.sub_0_r.
    + by rewrite progress_flag_well_formed.
  - rewrite (needing_loop_take _ (incomplete d)); [|intros q _|cbn; lia].
    + cbn [app length]. by rewrite Nat.sub_0_r.
    + by apply next_batch_needs.
Qed.

(** With a batch size of 0 or less the loop still looks at the first
    query before it tests the size: each function returns that query when
    it lacks the stage, and nothing otherwise. *)
Theorem queues_nonpositive_batch (now : instant) (queries : list query)
    (batch_size : Z) (d : fs) :
  progress_well_formed d →
  batch_size ≤ 0 →
  (get_queries_needing_chatgpt now queries batch_size d).1
  = Some (filter (λ q, lacks d "chatgpt_done" q = true) (take 1 queries))
  ∧ (get_queries_needing_google now queries batch_size d).1
    = Some (filter (λ q, lacks d "google_done" q = true) (take 1 queries))
  ∧ (get_next_batch now queries batch_size d).1
    = Some (filter (λ q, incomplete d q = true) (take 1 queries)).
Proof.
  intros Hwf Hsize.
  unfold get_queries_needing_chatgpt, get_queries_needing_google, get_next_batch.
  destruct (load_progress now d) as [progress d1] eqn:Hload. cbn [fst].
  assert (progress = (load_progress now d).1) as -> by (by rewrite Hload).
  repeat split.
  - apply needing_loop_nonpositive; [intros q _|done].
    by rewrite progress_flag_well_formed.
  - apply needing_loop_nonpositive; [intros q _|done].
    by rewrite progress_flag_well_formed.
  - apply needing_loop_nonpositive; [intros q _|done].
    by apply next_batch_needs.
Qed.

(** A progress file that is not a dictionary makes the queue functions
    raise as soon as there is a query to look at. *)
Theorem queues_raise_on_malformed_progress (now : instant) (q : query)
    (queries : list query) (batch_size : Z) (d : fs) (v : pyval) :
  d !! PROGRESS_FILE = Some (FJson v) →
  (∀ p, v ≠ PDict p) →
  (get_queries_needing_chatgpt now (q :: queries) batch_size d).1 = None
  ∧ (get_queries_needing_google now (q :: queries) batch_size d).1 = None
  ∧ (get_next_batch now (q :: queries) batch_size d).1 = None.
Proof.
  intros Hfile Hv.
  unfold get_queries_needing_chatgpt, get_queries_needing_google, get_next_batch,
    load_progress, load_json.
  rewrite Hfile. cbn [fst needing_loop].
  destruct v as [| | | | | |p]; try done. by destruct (Hv p).
Qed.

(** ** Saving and the queues *)

Lemma progress_well_formed_ext (d d' : fs) :
  d !! PROGRESS_FILE = d' !! PROGRESS_FILE →
  progress_well_formed d → progress_well_formed d'.
Proof.
  intros H (p & Hp & He). exists p. split; [|done].
  by rewrite <- (read_json_ext _ _ _ H).
Qed.

Lemma flag_set_ext (d d' : fs) (q : Z) (flag : string) :
  progress_of d = progress_of d' → flag_set d q flag = flag_set d' q flag.
Proof. unfold flag_set. by intros ->. Qed.

(** On a usable progress file [update_progress] goes through: the file
    stays usable and the flag it was asked to set is set. *)
Lemma update_progress_well_formed (now : instant) (q : Z) (sf : string) (d : fs) :
  progress_well_formed d →
  (update_progress now q sf d).1 = true
  ∧ progress_well_formed (update_progress now q sf d).2
  ∧ (sf ≠ "last_updated" → flag_set (update_progress now q sf d).2 q sf = true).
Proof.
  intros (p & Hp & He).
  assert (∃ e, update_progress now q sf d =
    (true,
     <[PROGRESS_FILE :=
         FJson (PDict (<[str_int q :=
                           PDict (<["last_updated" := PStr (isoformat now)]>
                                    (<[sf := PBool true]> e))]> p))]>
       ((load_progress now d).2))) as [e ->].
  { destruct (update_progress_cases now q sf d) as [Hfail|(e & _ & ->)].
    - exfalso. revert Hfail.
      unfold update_progress, load_progress, load_json.
      unfold read_json in Hp.
      destruct (d !! PROGRESS_FILE) as [[v|raw]|]; simplify_eq/=.
      + destruct (p !! str_int q) as [v|] eqn:Hv.
        * destruct (He _ _ Hv) as [e ->]. by rewrite Hv.
        * by rewrite lookup_insert_eq.
      + by rewrite lookup_empty, lookup_insert_eq.
      + by rewrite lookup_empty, lookup_insert_eq.
    - exists e. unfold progress_of. by rewrite Hp. }
  cbn [fst snd]. split; [done|]. split.
  - eexists. split; [apply read_json_insert|].
    intros k v. rewrite lookup_insert. case_decide; [|by apply He].
    intros [= <-]. by eexists.
  - intros Hsf. unfold flag_set, progress_of. rewrite read_json_insert.
    cbn [as_dict]. rewrite field_of_insert. unfold get.
    rewrite lookup_insert_ne by done. by rewrite lookup_insert_eq.
Qed.

Lemma done_field_not_last_updated (platform : string) :
  (platform ++ "_done")%string ≠ "last_updated".
Proof.
  intros H.
  do 13 (destruct platform as [|? platform]; [simpl in H; discriminate H|]).
  simpl in H. discriminate H.
Qed.

(** After a response is saved, its query is not in the queue of that
    stage any more, whatever the batch size and the dataset. *)
Theorem saved_response_leaves_queue (now : instant) (q : Z)
    (rd : gmap string pyval) (d : fs) :
  progress_well_formed d →
  ((save_result now q "chatgpt" rd d).1 = true →
   ∀ now' queries batch_size needed x,
     (get_queries_needing_chatgpt now' queries batch_size
        (save_result now q "chatgpt" rd d).2).1 = Some needed →
     x ∈ needed → id x ≠ q)
  ∧ ((save_result now q "google" rd d).1 = true →
     ∀ now' queries batch_size needed x,
       (get_queries_needing_google now' queries batch_size
          (save_result now q "google" rd d).2).1 = Some needed →
       x ∈ needed → id x ≠ q).
Proof.
  intros Hwf.
  assert (∀ platform,
    (save_result now q platform rd d).1 = true →
    progress_well_formed (save_result now q platform rd d).2
    ∧ flag_set (save_result now q platform rd d).2 q (platform ++ "_done") = true)
    as Hsaved.
  { intros platform Hok.
    destruct (save_result_cases now q platform rd d) as [Heq|(e & _ & Heq)];
      rewrite Heq in Hok |- *; cbn [fst snd] in *; [done|].
    destruct (update_progress_well_formed now q (platform ++ "_done")
                (results_written now q
                   (<[platform := PDict (with_timestamp now rd)]> e) d))
      as (_ & Hwf' & Hflag).
    { eapply progress_well_formed_ext; [|exact Hwf].
      symmetry. apply results_written_progress. }
    split; [exact Hwf'|]. apply Hflag, done_field_not_last_updated. }
  split.
  - intros Hok now' queries batch_size needed x Hneeded Hx Hid.
    destruct (Hsaved "chatgpt" Hok) as [Hwf' Hflag].
    unfold get_queries_needing_chatgpt in Hneeded.
    destruct (load_progress now' _) as [progress d1] eqn:Hload. cbn [fst] in Hneeded.
    assert (progress = (load_progress now' (save_result now q "chatgpt" rd d).2).1)
      as -> by (by rewrite Hload).
    destruct (needing_loop_elem_of _ _ _ _ _ _ Hneeded Hx) as [?%not_elem_of_nil|[_ Hn]];
      [done|].
    rewrite progress_flag_well_formed, Hid in Hn by done.
    change ("chatgpt" ++ "_done")%string with "chatgpt_done" in Hflag.
    rewrite Hflag in Hn. discriminate Hn.
  - intros Hok now' queries batch_size needed x Hneeded Hx Hid.
    destruct (Hsaved "google" Hok) as [Hwf' Hflag].
    unfold get_queries_needing_google in Hneeded.
    destruct (load_progress now' _) as [progress d1] eqn:Hload. cbn [fst] in Hneeded.
    assert (progress = (load_progress now' (save_result now q "google" rd d).2).1)
      as -> by (by rewrite Hload).
    destruct (needing_loop_elem_of _ _ _ _ _ _ Hneeded Hx) as [?%not_elem_of_nil|[_ Hn]];
      [done|].
    rewrite progress_flag_well_formed, Hid in Hn by done.
    change ("google" ++ "_done")%string with "google_done" in Hflag.
    rewrite Hflag in Hn. discriminate Hn.
Qed.

(** ** Progress only moves forward *)

Lemma flag_set_inv (d : fs) (q : Z) (flag : string) :
  flag_set d q flag = true →
  ∃ e, progress_of d !! str_int q = Some (PDict e) ∧ truthy (get e flag) = true.
Proof.
  unfold flag_set, field_of, get_or.
  destruct (progress_of d !! str_int q) as [[| | | | | |e]|]; simpl; try done.
  intros H. by exists e.
Qed.

Lemma update_progress_keeps_flags (now : instant) (q' : Z) (sf : string) (d : fs)
    (q : Z) (flag : string) :
  flag ≠ "last_updated" →
  flag_set d q flag = true →
  flag_set (update_progress now q' sf d).2 q flag = true.
Proof.
  intros Hflag Hset.
  destruct (update_progress_progress now q' sf d) as [Heq|(e & He & Heq)].
  { by rewrite (flag_set_ext _ _ _ _ Heq). }
  unfold flag_set. rewrite Heq.
  destruct (decide (str_int q' = str_int q)) as [Hk|Hk].
  - rewrite <- Hk, field_of_insert.
    destruct (flag_set_inv _ _ _ Hset) as (e0 & He0 & Htrue). rewrite <- Hk in He0.
    destruct He as [He|[He _]]; [|congruence].
    assert (e = e0) as -> by congruence.
    unfold get. rewrite lookup_insert_ne by done. rewrite lookup_insert.
    case_decide; [done|exact Htrue].
  - unfold field_of, get_or. rewrite lookup_insert_ne by done. exact Hset.
Qed.

(** A flag of the progress file that is set stays set through every
    sequence of [save_result] and [save_scores]: no save operation clears
    [chatgpt_done], [google_done] or [scored]. *)
Theorem flags_stay_set (ops : list op) (d : fs) (q : Z) (flag : string) :
  flag ≠ "last_updated" →
  flag_set d q flag = true →
  flag_set (run ops d) q flag = true.
Proof.
  intros Hflag. revert d. induction ops as [|o ops IH]; intros d Hset; [done|].
  cbn [run foldl]. apply IH.
  destruct o as [now q' platform rd|now q' scores]; cbn [run_op].
  - destruct (save_result_cases now q' platform rd d) as [->|(e & _ & ->)];
      cbn [snd]; [done|].
    apply update_progress_keeps_flags; [done|].
    rewrite <- Hset. apply flag_set_ext, progress_of_ext, results_written_progress.
  - destruct (save_scores_cases now q' scores d) as [[_ Hsame]|(e & s & _ & _ & ->)].
    + rewrite <- Hset. apply flag_set_ext, progress_of_ext, Hsame.
      symmetry. apply results_backup_not_progress.
    + cbn [snd]. apply update_progress_keeps_flags; [done|].
      rewrite <- Hset. apply flag_set_ext, progress_of_ext, results_written_progress.
Qed.

(** ** Resetting *)

Lemma filter_all_true {A : Type} (p : A → bool) (l : list A) :
  (∀ x, p x = true) → filter (λ x, p x = true) l = l.
Proof.
  intros Hp. induction l as [|x l IH]; [done|].
  rewrite filter_cons_True by done. by rewrite IH.
Qed.

(** [reset_progress] always reports success; the progress file is gone
    afterwards, its content is kept under the backup path, no other file
    changes, and every query of the dataset is back in the three queues. *)
Theorem reset_progress_restarts (now : instant) (d : fs) :
  (reset_progress now d).1 = true
  ∧ (reset_progress now d).2 !! PROGRESS_FILE = None
  ∧ (∀ c, d !! PROGRESS_FILE = Some c →
          (reset_progress now d).2 !! (PROGRESS_FILE ++ ".backup_" ++ stamp now)%string
          = Some c)
  ∧ (∀ path, path ≠ PROGRESS_FILE →
             path ≠ (PROGRESS_FILE ++ ".backup_" ++ stamp now)%string →
             (reset_progress now d).2 !! path = d !! path)
  ∧ (∀ now' queries batch_size,
       1 ≤ batch_size →
       (get_queries_needing_chatgpt now' queries batch_size (reset_progress now d).2).1
       = Some (take (Z.to_nat batch_size) queries)
       ∧ (get_queries_needing_google now' queries batch_size (reset_progress now d).2).1
         = Some (take (Z.to_nat batch_size) queries)
       ∧ (get_next_batch now' queries batch_size (reset_progress now d).2).1
         = Some (take (Z.to_nat batch_size) queries)).
Proof.
  assert ((reset_progress now d).2 !! PROGRESS_FILE = None) as Hgone.
  { unfold reset_progress. destruct (d !! PROGRESS_FILE) eqn:H; cbn [snd]; [|done].
    apply lookup_delete_eq. }
  split; [unfold reset_progress; by destruct (d !! PROGRESS_FILE)|].
  split; [exact Hgone|]. split; [|split].
  - intros c Hc. unfold reset_progress. rewrite Hc. cbn [snd].
    rewrite lookup_delete_ne by (symmetry; apply backup_path_ne).
    by apply backup_file_lookup_backup.
  - intros path Hp Hb. unfold reset_progress.
    destruct (d !! PROGRESS_FILE) eqn:H; cbn [snd]; [|done].
    rewrite lookup_delete_ne by done. by apply backup_file_lookup_ne.
  - intros now' queries batch_size Hsize.
    assert (progress_of (reset_progress now d).2 = ∅) as Hempty.
    { unfold progress_of, read_json. by rewrite Hgone. }
    assert (progress_well_formed (reset_progress now d).2) as Hwf.
    { exists ∅. split; [unfold read_json; by rewrite Hgone|].
      intros k v. by rewrite lookup_empty. }
    assert (∀ q flag, flag_set (reset_progress now d).2 q flag = false) as Hflags.
    { intros q flag. unfold flag_set. rewrite Hempty. reflexivity. }
    unfold get_queries_needing_chatgpt, get_queries_needing_google, get_next_batch.
    destruct (load_progress now' _) as [progress d1] eqn:Hload. cbn [fst].
    assert (progress = (load_progress now' (reset_progress now d).2).1) as ->
      by (by rewrite Hload).
    repeat split;
      rewrite (needing_loop_take _ (λ _, true)); cbn [length app];
      rewrite ?filter_all_true, ?Nat.sub_0_r; try done; try lia; intros q _;
      rewrite ?next_batch_needs, ?progress_flag_well_formed by done;
      unfold incomplete; by rewrite ?Hflags.
Qed.

End WorkQueueProofs.

(* ===================================================================== *)
(** * More facts about saving, loading and counting *)
(* ===================================================================== *)

Module StoreProofs.
Import DataManager DataManagerProofs.
Local Open Scope list_scope.

(** ** When the saves go through *)

Lemma results_of_lookup_dict (d : fs) (k : string) (v : pyval) :
  results_of d !! k = Some v →
  ∃ r, read_json RESULTS_FILE d = PDict r ∧ r !! k = Some v.
Proof.
  unfold results_of.
  destruct (read_json RESULTS_FILE d) as [| | | | | |r]; cbn [as_dict];
    rewrite ?lookup_empty; try done.
  intros H. by exists r.
Qed.

Lemma save_scores_known (now : instant) (q : Z) (s e : gmap string pyval) (d : fs) :
  results_of d !! str_int q = Some (PDict e) →
  save_scores now q (PDict s) d
  = (true,
     (update_progress now q "scored"
        (results_written now q
           (<["scores" := PDict (<["timestamp" := PStr (isoformat now)]> s)]> e) d)).2).
Proof.
  intros He.
  assert ((save_scores now q (PDict s) d).1 = true) as Hok.
  { destruct (results_of_lookup_dict _ _ _ He) as (r & Hr & Hk).
    unfold save_scores, load_results.
    pose proof (load_json_fst now RESULTS_FILE d) as Hfst.
    destruct (load_json now RESULTS_FILE d) as [results d1]. cbn [fst] in Hfst.
    rewrite Hfst, Hr, Hk. by destruct (update_progress _ _ _ _). }
  destruct (save_scores_cases now q (PDict s) d)
    as [[Hf _]|(e' & s' & He' & [= <-] & Heq)]; [congruence|].
  rewrite Heq. by replace e' with e by congruence.
Qed.

Lemma save_scores_unknown (now : instant) (q : Z) (scores : pyval) (d : fs) :
  results_of d !! str_int q = None →
  (save_scores now q scores d).1 = false
  ∧ ∀ path, path ≠ (RESULTS_FILE ++ ".backup_" ++ stamp now)%string →
            (save_scores now q scores d).2 !! path = d !! path.
Proof.
  intros Hnone.
  destruct (save_scores_cases now q scores d) as [?|(e & s & He & _)]; [done|congruence].
Qed.

Lemma save_result_usable (now : instant) (q : Z) (platform : string)
    (rd : gmap string pyval) (d : fs) (r : gmap string pyval) :
  read_json RESULTS_FILE d = PDict r →
  r !! str_int q = None ∨ (∃ e, r !! str_int q = Some (PDict e)) →
  (save_result now q platform rd d).1 = true.
Proof.
  intros Hr Hk. unfold save_result, load_results.
  pose proof (load_json_fst now RESULTS_FILE d) as Hfst.
  destruct (load_json now RESULTS_FILE d) as [results d1]. cbn [fst] in Hfst.
  rewrite Hfst, Hr.
  destruct Hk as [Hk|[e Hk]]; rewrite Hk.
  - rewrite lookup_insert_eq. by destruct (update_progress _ _ _ _).
  - rewrite Hk. by destruct (update_progress _ _ _ _).
Qed.

Lemma save_result_usable_inv (now : instant) (q : Z) (platform : string)
    (rd : gmap string pyval) (d : fs) :
  (save_result now q platform rd d).1 = true →
  ∃ r, read_json RESULTS_FILE d = PDict r
       ∧ (r !! str_int q = None ∨ ∃ e, r !! str_int q = Some (PDict e)).
Proof.
  unfold save_result, load_results.
  pose proof (load_json_fst now RESULTS_FILE d) as Hfst.
  destruct (load_json now RESULTS_FILE d) as [results d1]. cbn [fst] in Hfst.
  rewrite Hfst.
  destruct (read_json RESULTS_FILE d) as [| | | | | |r]; try done.
  intros Hok. exists r. split; [done|].
  destruct (r !! str_int q) as [[| | | | | |e]|] eqn:Hk; rewrite ?Hk in Hok;
    try done; [right; by exists e|by left].
Qed.

(** The results after a [save_result] that went through. *)
Lemma save_result_results (now : instant) (q : Z) (platform : string)
    (rd : gmap string pyval) (d : fs) :
  (save_result now q platform rd d).1 = true →
  ∃ e, (results_of d !! str_int q = Some (PDict e)
        ∨ (results_of d !! str_int q = None ∧ e = fresh_result q))
       ∧ results_of (save_result now q platform rd d).2
         = <[str_int q := PDict (<[platform := PDict (with_timestamp now rd)]> e)]>
             (results_of d).
Proof.
  intros Hok.
  destruct (save_result_cases now q platform rd d) as [Heq|(e & He & Heq)];
    rewrite Heq in Hok |- *; cbn [fst snd] in *; [done|].
  exists e. split; [done|].
  by rewrite update_progress_results, results_written_results.
Qed.

(** [save_scores] returns [True] exactly when the results hold a
    dictionary entry for the query and the scores are a dictionary; when it
    returns [False] nothing was written (the only file that can appear is
    the backup of a results file that does not parse). *)
Theorem save_scores_succeeds_iff (now : instant) (q : Z) (scores : pyval) (d : fs) :
  ((save_scores now q scores d).1 = true
   ↔ ∃ e s, results_of d !! str_int q = Some (PDict e) ∧ scores = PDict s)
  ∧ ((save_scores now q scores d).1 = false →
     ∀ path, path ≠ (RESULTS_FILE ++ ".backup_" ++ stamp now)%string →
             (save_scores now q scores d).2 !! path = d !! path).
Proof.
  split; [split|].
  - intros Hok.
    destruct (save_scores_cases now q scores d) as [[Hf _]|(e & s & He & Hs & _)];
      [congruence|by exists e, s].
  - intros (e & s & He & ->). by rewrite (save_scores_known now q s e d He).
  - intros Hfail.
    destruct (save_scores_cases now q scores d) as [[_ Hsame]|(e & s & _ & _ & Heq)];
      [exact Hsame|]. rewrite Heq in Hfail. discriminate Hfail.
Qed.

(** A [save_scores] that returns [True] stores the scores, stamped with
    the time, under [scores] of the query's entry; every other field of the
    entry and every other entry read as before; and on a usable progress
    file the query is marked as scored. *)
Theorem save_scores_stores (now : instant) (q : Z) (s : gmap string pyval) (d : fs) :
  (save_scores now q (PDict s) d).1 = true →
  field_of (results_of (save_scores now q (PDict s) d).2) (str_int q) "scores"
  = PDict (<["timestamp" := PStr (isoformat now)]> s)
  ∧ (∀ f, f ≠ "scores" →
          field_of (results_of (save_scores now q (PDict s) d).2) (str_int q) f
          = field_of (results_of d) (str_int q) f)
  ∧ (∀ k, k ≠ str_int q →
          results_of (save_scores now q (PDict s) d).2 !! k = results_of d !! k)
  ∧ (progress_well_formed d →
     WorkQueueProofs.flag_set (save_scores now q (PDict s) d).2 q "scored" = true).
Proof.
  intros Hok.
  destruct (save_scores_cases now q (PDict s) d) as [[Hf _]|(e & s' & He & [= <-] & Heq)];
    [congruence|].
  rewrite Heq. cbn [snd].
  rewrite update_progress_results, results_written_results.
  split; [|split; [|split]].
  - rewrite field_of_insert. unfold get. by rewrite lookup_insert_eq.
  - intros f Hf. rewrite field_of_insert. unfold get at 1.
    rewrite lookup_insert_ne by done.
    unfold field_of, get_or, get. by rewrite He.
  - intros k Hk. by rewrite lookup_insert_ne.
  - intros Hwf.
    apply WorkQueueProofs.update_progress_well_formed; [|done].
    eapply WorkQueueProofs.progress_well_formed_ext; [|exact Hwf].
    symmetry. apply results_written_progress.
Qed.

(** [save_result] returns [True] exactly when the results file is usable
    for the query: it is missing, does not parse, or holds a dictionary in
    which the query has no entry or a dictionary entry.  When it returns
    [False] the directory is exactly as before. *)
Theorem save_result_succeeds_iff (now : instant) (q : Z) (platform : string)
    (rd : gmap string pyval) (d : fs) :
  ((save_result now q platform rd d).1 = true
   ↔ ∃ r, read_json RESULTS_FILE d = PDict r
          ∧ (r !! str_int q = None ∨ ∃ e, r !! str_int q = Some (PDict e)))
  ∧ ((save_result now q platform rd d).1 = false →
     (save_result now q platform rd d).2 = d).
Proof.
  split; [split|].
  - apply save_result_usable_inv.
  - intros (r & Hr & Hk). by eapply save_result_usable.
  - intros Hfail.
    destruct (save_result_cases now q platform rd d) as [->|(e & _ & Heq)]; [done|].
    rewrite Heq in Hfail. discriminate Hfail.
Qed.

(** ** Loading the dataset *)

(** [load_queries] returns one query per row, in the order of the rows,
    whatever the rows carry: the query at position [i] has the id of row
    [i] when that row carries one and the id [i] when it carries none, and
    the other keys of the row as they are.  Hence a dataset in which every
    row has an id keeps these ids, and one in which no row has an id is
    numbered 0, 1, 2, ..., so that no two queries share an id; in a dataset
    that mixes the two the ids are distinct exactly when those numbers are.
    A dataset that cannot be read gives no queries. *)
Theorem load_queries_ids (rows : list dataset_row) :
  load_queries None = []
  ∧ length (load_queries (Some rows)) = length rows
  ∧ (∀ i r, rows !! i = Some r →
       ∃ q, load_queries (Some rows) !! i = Some q
            ∧ id q = match row_id r with Some z => z | None => Z.of_nat i end
            ∧ text q = row_text r
            ∧ category q = row_category r
            ∧ quality q = row_quality r
            ∧ intent_clarity q = row_intent_clarity r
            ∧ chatgpt_response q = None ∧ google_response q = None)
  ∧ (NoDup (id <$> load_queries (Some rows)) ↔
     ∀ i j ri rj, rows !! i = Some ri → rows !! j = Some rj →
       match row_id ri with Some z => z | None => Z.of_nat i end
       = match row_id rj with Some z => z | None => Z.of_nat j end → i = j)
  ∧ ((∀ r, r ∈ rows → is_Some (row_id r)) →
     Some <$> (id <$> load_queries (Some rows)) = row_id <$> rows)
  ∧ ((∀ r, r ∈ rows → row_id r = None) →
     id <$> load_queries (Some rows) = Z.of_nat <$> seq 0 (length rows)
     ∧ NoDup (id <$> load_queries (Some rows))).
Proof.
  split; [done|]. unfold load_queries. split; [by rewrite length_imap|].
  assert (∀ i, (id <$> imap (λ idx r,
              Query (default (Z.of_nat idx) (row_id r)) (row_text r) (row_category r)
                    (row_quality r) (row_intent_clarity r) None None) rows) !! i
            = (λ r, match row_id r with Some z => z | None => Z.of_nat i end)
                <$> rows !! i) as Hid.
  { intros i. rewrite list_lookup_fmap, list_lookup_imap.
    destruct (rows !! i) as [r|]; [|done]. cbn. by destruct (row_id r). }
  split.
  { intros i r Hr. rewrite list_lookup_imap, Hr. cbn.
    eexists. split; [done|]. cbn. by destruct (row_id r). }
  split.
  { rewrite NoDup_alt. split.
    - intros Hnd i j ri rj Hi Hj Heq.
      apply (Hnd i j (match row_id ri with Some z => z | None => Z.of_nat i end)).
      + by rewrite Hid, Hi.
      + rewrite Hid, Hj. cbn. by rewrite Heq.
    - intros Hinj i j z Hi Hj. rewrite Hid in Hi, Hj.
      destruct (rows !! i) as [ri|] eqn:Hri; [|done].
      destruct (rows !! j) as [rj|] eqn:Hrj; [|done].
      cbn in Hi, Hj. apply (Hinj i j ri rj Hri Hrj). congruence. }
  split.
  - intros Hids. apply list_eq. intros i.
    rewrite !list_lookup_fmap, list_lookup_imap.
    destruct (rows !! i) as [r|] eqn:Hr; [|done]. cbn.
    destruct (Hids r) as [z Hz]; [by eapply list_elem_of_lookup_2|].
    by rewrite Hz.
  - intros Hnone.
    assert (id <$> imap (λ idx r,
              Query (default (Z.of_nat idx) (row_id r)) (row_text r) (row_category r)
                    (row_quality r) (row_intent_clarity r) None None) rows
            = Z.of_nat <$> seq 0 (length rows)) as Heq.
    { apply list_eq. intros i.
      rewrite !list_lookup_fmap, list_lookup_imap.
      destruct (rows !! i) as [r|] eqn:Hr.
      - rewrite lookup_seq_lt by (by eapply lookup_lt_Some). cbn.
        by rewrite (Hnone r) by (by eapply list_elem_of_lookup_2).
      - rewrite lookup_seq_ge; [done|]. by apply lookup_ge_None. }
    split; [exact Heq|]. rewrite Heq.
    apply NoDup_fmap_2; [apply _|apply NoDup_seq].
Qed.

(** Two rows, of which only the first carries an id: the second is given
    its position, whatever the first carries; when the first carries the
    id 1, the two queries share it. *)
Example load_queries_mixed :
  id <$> load_queries (Some [DatasetRow (Some 41) (Some "a") None None None;
                             DatasetRow None (Some "b") None None None])
  = [41; 1]
  ∧ id <$> load_queries (Some [DatasetRow (Some 1) (Some "a") None None None;
                               DatasetRow None (Some "b") None None None])
    = [1; 1].
Proof. by split. Qed.

(** ** Counting *)

Lemma count_le {A : Type} (p p' : A → bool) (l : list A) :
  (∀ x, p x = true → p' x = true) →
  (length (filter (λ x, p x = true) l) ≤ length (filter (λ x, p' x = true) l))%nat.
Proof.
  intros Himpl. induction l as [|x l IH]; [done|].
  rewrite !filter_cons. destruct (decide (p x = true)) as [Hp|Hp].
  - rewrite decide_True by auto. cbn. lia.
  - case_decide; cbn; lia.
Qed.

(** The counts [get_completion_stats] returns: [total_queries] is the
    size of the dataset, a fully complete entry is counted in each of the
    three other counts, and no count exceeds the number of entries of the
    results file. *)
Theorem completion_stats_bounds (queries : list query) (d : fs) (st : completion_stats) :
  get_completion_stats queries d = Some st →
  total_queries st = length queries
  ∧ (fully_complete st ≤ chatgpt_responses st)%nat
  ∧ (fully_complete st ≤ google_responses st)%nat
  ∧ (fully_complete st ≤ scored st)%nat
  ∧ (chatgpt_responses st ≤ size (results_of d))%nat
  ∧ (google_responses st ≤ size (results_of d))%nat
  ∧ (scored st ≤ size (results_of d))%nat.
Proof.
  unfold get_completion_stats, results_of, read_json.
  destruct (d !! RESULTS_FILE) as [[v|raw]|]; cbn [as_dict].
  - destruct v as [| | | |s0|l|r]; try done.
    + case_bool_decide; [|done]. intros [= <-]. cbn. repeat split; lia.
    + case_bool_decide; [|done]. intros [= <-]. cbn. repeat split; lia.
    + destruct (mapM _ _) as [es|] eqn:Hes; [|done]. cbn [mbind option_bind].
      intros [= <-]. cbn [total_queries chatgpt_responses google_responses scored
                           fully_complete].
      assert (length es = size r) as Hlen.
      { apply length_mapM in Hes. rewrite length_fmap in Hes.
        by rewrite <- Hes, length_map_to_list. }
      cbn [as_dict]. rewrite <- Hlen.
      split; [done|].
      repeat split; try apply length_filter;
        apply count_le; intros e; rewrite !andb_true_iff; tauto.
  - rewrite map_to_list_empty. intros [= <-]. cbn. repeat split; lia.
  - rewrite map_to_list_empty. intros [= <-]. cbn. repeat split; lia.
Qed.

(** ** The progress file stays usable *)

Lemma save_result_well_formed (now : instant) (q : Z) (platform : string)
    (rd : gmap string pyval) (d : fs) :
  progress_well_formed d → progress_well_formed (save_result now q platform rd d).2.
Proof.
  intros Hwf.
  destruct (save_result_cases now q platform rd d) as [->|(e & _ & ->)]; [done|].
  cbn [snd]. apply WorkQueueProofs.update_progress_well_formed.
  eapply WorkQueueProofs.progress_well_formed_ext; [|exact Hwf].
  symmetry. apply results_written_progress.
Qed.

Lemma save_scores_well_formed (now : instant) (q : Z) (scores : pyval) (d : fs) :
  progress_well_formed d → progress_well_formed (save_scores now q scores d).2.
Proof.
  intros Hwf.
  destruct (save_scores_cases now q scores d) as [[_ Hsame]|(e & s & _ & _ & ->)].
  - eapply WorkQueueProofs.progress_well_formed_ext; [|exact Hwf].
    symmetry. apply Hsame. symmetry. apply results_backup_not_progress.
  - cbn [snd]. apply WorkQueueProofs.update_progress_well_formed.
    eapply WorkQueueProofs.progress_well_formed_ext; [|exact Hwf].
    symmetry. apply results_written_progress.
Qed.

Lemma progress_well_formed_empty : progress_well_formed ∅.
Proof. exists ∅. split; [done|]. intros k v. by rewrite lookup_empty. Qed.

(** Every sequence of save operations leaves a usable progress file
    usable; in particular every directory built from nothing by the two
    save operations has one. *)
Lemma run_well_formed (ops : list op) (d : fs) :
  progress_well_formed d → progress_well_formed (run ops d).
Proof.
  revert d. induction ops as [|o ops IH]; intros d Hwf; [done|].
  cbn [run foldl]. apply IH. destruct o; cbn [run_op].
  - by apply save_result_well_formed.
  - by apply save_scores_well_formed.
Qed.

(** ** The statements above at concrete stores *)

(** Three queries; on the store where only query 0 has its ChatGPT
    response, with the scores saved early. *)
Definition three_queries : list query :=
  [ Query 0 (Some "capital?") (Some "Factual") (Some "Well-formed") (Some "High") None None;
    Query 1 (Some "river?") (Some "Factual") (Some "Well-formed") (Some "High") None None;
    Query 2 (Some "best phone") (Some "Opinion") (Some "Ambiguous") (Some "Low") None None ].

Definition early_store : fs := run scored_early ∅.

Lemma early_store_well_formed : progress_well_formed early_store.
Proof. apply run_well_formed, progress_well_formed_empty. Qed.

(** The queues on the early store, for a batch of two. *)
Lemma queues_take_first_needed_witness :
  progress_well_formed early_store
  ∧ 1 ≤ 2
  ∧ (get_queries_needing_chatgpt t1 three_queries 2 early_store).1
    = Some (take (Z.to_nat 2)
              (filter (λ q, WorkQueueProofs.lacks early_store "chatgpt_done" q = true)
                      three_queries))
  ∧ (get_queries_needing_chatgpt t1 three_queries 2 early_store).1
    = Some (drop 1 three_queries)
  ∧ (get_queries_needing_google t1 three_queries 2 early_store).1
    = Some (take 2 three_queries).
Proof.
  split; [exact early_store_well_formed|]. split; [lia|].
  split; [|split; by vm_compute].
  exact (proj1 (WorkQueueProofs.queues_take_first_needed t1 three_queries 2 early_store
                  early_store_well_formed ltac:(lia))).
Defined.

(** The queues on the early store, for a batch size of 0. *)
Lemma queues_nonpositive_batch_witness :
  progress_well_formed early_store
  ∧ 0 ≤ 0
  ∧ (get_queries_needing_google t1 three_queries 0 early_store).1
    = Some (filter (λ q, WorkQueueProofs.lacks early_store "google_done" q = true)
                   (take 1 three_queries))
  ∧ (get_queries_needing_google t1 three_queries 0 early_store).1
    = Some (take 1 three_queries)
  ∧ (get_queries_needing_chatgpt t1 three_queries 0 early_store).1 = Some [].
Proof.
  split; [exact early_store_well_formed|]. split; [lia|].
  split; [|split; by vm_compute].
  exact (proj1 (proj2 (WorkQueueProofs.queues_nonpositive_batch t1 three_queries 0
                         early_store early_store_well_formed ltac:(lia)))).
Defined.

(** A progress file that holds a list. *)
Lemma queues_raise_on_malformed_progress_witness :
  ({[ PROGRESS_FILE := FJson (PList []) ]} : fs) !! PROGRESS_FILE = Some (FJson (PList []))
  ∧ (∀ p, PList [] ≠ PDict p)
  ∧ (get_next_batch t1 three_queries 20 {[ PROGRESS_FILE := FJson (PList []) ]}).1 = None.
Proof.
  assert (({[ PROGRESS_FILE := FJson (PList []) ]} : fs) !! PROGRESS_FILE
          = Some (FJson (PList []))) as Hfile by apply lookup_singleton_eq.
  assert (∀ p, PList [] ≠ PDict p) as Hv by done.
  split; [exact Hfile|]. split; [exact Hv|].
  exact (proj2 (proj2 (WorkQueueProofs.queues_raise_on_malformed_progress t1
                         (Query 0 (Some "capital?") (Some "Factual") (Some "Well-formed")
                                (Some "High") None None)
                         (drop 1 three_queries) 20 _ (PList []) Hfile Hv))).
Defined.

(** Saving the Google response of query 1 on the early store. *)
Lemma saved_response_leaves_queue_witness :
  progress_well_formed early_store
  ∧ (save_result t1 1 "google" paris early_store).1 = true
  ∧ ∀ now' queries batch_size needed x,
      (get_queries_needing_google now' queries batch_size
         (save_result t1 1 "google" paris early_store).2).1 = Some needed →
      x ∈ needed → id x ≠ 1.
Proof.
  assert ((save_result t1 1 "google" paris early_store).1 = true) as Hok
    by (by vm_compute).
  split; [exact early_store_well_formed|]. split; [exact Hok|].
  exact (proj2 (WorkQueueProofs.saved_response_leaves_queue t1 1 paris early_store
                  early_store_well_formed) Hok).
Defined.

(** The [scored] flag of query 0 through two more saves. *)
Lemma flags_stay_set_witness :
  "scored" ≠ "last_updated"
  ∧ WorkQueueProofs.flag_set early_store 0 "scored" = true
  ∧ WorkQueueProofs.flag_set
      (run [SaveResult t1 0 "google" paris; SaveResult t1 1 "chatgpt" paris] early_store)
      0 "scored" = true.
Proof.
  assert (WorkQueueProofs.flag_set early_store 0 "scored" = true) as Hset
    by (by vm_compute).
  split; [discriminate|]. split; [exact Hset|].
  exact (WorkQueueProofs.flags_stay_set _ early_store 0 "scored"
           ltac:(discriminate) Hset).
Defined.

(** Saving scores for query 0 once both responses are there. *)
Lemma save_scores_stores_witness :
  (save_scores t1 0 (PDict full_scores)
     (run [SaveResult t0 0 "chatgpt" paris; SaveResult t0 0 "google" paris] ∅)).1 = true
  ∧ field_of (results_of (save_scores t1 0 (PDict full_scores)
       (run [SaveResult t0 0 "chatgpt" paris; SaveResult t0 0 "google" paris] ∅)).2)
       (str_int 0) "scores"
    = PDict (<["timestamp" := PStr (isoformat t1)]> full_scores).
Proof.
  assert ((save_scores t1 0 (PDict full_scores)
     (run [SaveResult t0 0 "chatgpt" paris; SaveResult t0 0 "google" paris] ∅)).1 = true)
    as Hok by (by vm_compute).
  split; [exact Hok|].
  exact (proj1 (save_scores_stores t1 0 full_scores _ Hok)).
Defined.

(** The counts on the store where query 0 is answered by both and scored. *)
Lemma completion_stats_bounds_witness :
  get_completion_stats three_queries (run scored_late ∅)
  = Some (CompletionStats 3 1 1 1 1)
  ∧ (fully_complete (CompletionStats 3 1 1 1 1)
     ≤ chatgpt_responses (CompletionStats 3 1 1 1 1))%nat.
Proof.
  assert (get_completion_stats three_queries (run scored_late ∅)
          = Some (CompletionStats 3 1 1 1 1)) as Hst by (by vm_compute).
  split; [exact Hst|].
  exact (proj1 (proj2 (completion_stats_bounds _ _ _ Hst))).
Defined.

(** The second save of a response backs up the results the first left. *)
Lemma save_result_backs_up_witness :
  (save_result t1 0 "google" paris (save_result t0 0 "chatgpt" paris ∅).2).1 = true
  ∧ is_Some ((save_result t0 0 "chatgpt" paris ∅).2 !! RESULTS_FILE)
  ∧ (save_result t1 0 "google" paris (save_result t0 0 "chatgpt" paris ∅).2).2
      !! (RESULTS_FILE ++ ".backup_" ++ stamp t1)%string
    = (save_result t0 0 "chatgpt" paris ∅).2 !! RESULTS_FILE.
Proof.
  assert ((save_result t1 0 "google" paris (save_result t0 0 "chatgpt" paris ∅).2).1 = true)
    as Hok by (by vm_compute).
  destruct ((save_result t0 0 "chatgpt" paris ∅).2 !! RESULTS_FILE) as [c|] eqn:Hc;
    [|by vm_compute in Hc].
  split; [exact Hok|]. split; [by eexists|].
  exact (save_result_backs_up t1 0 "google" paris _ c Hok Hc).
Defined.

(** Saving the scores backs up the results the responses left. *)
Lemma save_scores_backs_up_witness :
  (save_scores t1 0 (PDict full_scores) (save_result t0 0 "chatgpt" paris ∅).2).1 = true
  ∧ (save_scores t1 0 (PDict full_scores) (save_result t0 0 "chatgpt" paris ∅).2).2
      !! (RESULTS_FILE ++ ".backup_" ++ stamp t1)%string
    = (save_result t0 0 "chatgpt" paris ∅).2 !! RESULTS_FILE.
Proof.
  assert ((save_scores t1 0 (PDict full_scores)
             (save_result t0 0 "chatgpt" paris ∅).2).1 = true)
    as Hok by (by vm_compute).
  destruct ((save_result t0 0 "chatgpt" paris ∅).2 !! RESULTS_FILE) as [c|] eqn:Hc;
    [|by vm_compute in Hc].
  split; [exact Hok|].
  exact (save_scores_backs_up t1 0 (PDict full_scores) _ c Hok Hc).
Defined.

End StoreProofs.

(* ===================================================================== *)
(** * The scoring queue against the results store *)
(* ===================================================================== *)

Module ScoringQueueProofs.
Import DataManager RunLLMJudge DataManagerProofs.

(** What the specification asks of the scoring queue, read off the results
    store the way [get_completion_stats] reads it: both responses are
    there, and neither manual nor automated scores are. *)
Definition needs_scores (d : fs) (query_id : Z) : bool :=
  let e := as_dict (get_or (results_of d) (str_int query_id) (PDict ∅)) in
  has_chatgpt e && has_google e && negb (has_scores e).

Definition capital : query :=
  Query 0 (Some "What is the capital of France?") (Some "Factual")
        (Some "Well-formed") (Some "High") None None.

Definition verdict : gmap string pyval :=
  {[ "chatgpt_relevance" := PInt 5; "google_relevance" := PInt 4;
     "model" := PStr "judge" ]}.

(** Both responses of query 0 are saved. *)
Definition answered : fs :=
  run [SaveResult t0 0 "chatgpt" paris; SaveResult t0 0 "google" paris] ∅.

(** [int] on the keys of these runs, which are strings of decimal
    digits. *)
Definition digit (a : Ascii.ascii) : option Z :=
  let n := Ascii.nat_of_ascii a in
  if (48 <=? n)%nat && (n <=? 57)%nat then Some (Z.of_nat (n - 48)) else None.

Fixpoint decimal_from (acc : Z) (s : string) : option Z :=
  match s with
  | EmptyString => Some acc
  | String a rest =>
      match digit a with
      | Some v => decimal_from (10 * acc + v) rest
      | None => None
      end
  end.

Definition decimal (s : string) : option Z :=
  match s with
  | EmptyString => None
  | _ => decimal_from 0 s
  end.

(** The dataset with the one query. *)
Definition capital_dataset : pyval :=
  PList [PDict {[ "query" := PStr "What is the capital of France?";
                  "category" := PStr "Factual";
                  "quality" := PStr "Well-formed";
                  "intent_clarity" := PStr "High" ]}].

(** Then the automated judge scores what is left to score. *)
Definition judged_store : fs :=
  run_llm_judge_on_remaining true (Some capital_dataset) decimal map_to_list
    (λ _ _, Scores verdict true) answered.

(** ** What the judge's run leaves alone *)

Section Frame.

Variable int_of : string → option Z.
Variable items : gmap string pyval → list (string * pyval).
Variable evaluate : nat → candidate → outcome.

Lemma judge_step_frame (i : nat) (c : candidate) (st st' : judge_state) (path : string) :
  judge_step evaluate i c st = Some st' →
  path ≠ RESULTS_FILE →
  directory st' !! path = directory st !! path.
Proof.
  unfold judge_step. intros Hstep Hpath.
  destruct (sliceable (cand_query c)); cbn [negb] in Hstep; [|done].
  destruct (evaluate i c) as [|s printed]; [by injection Hstep as <-|].
  destruct (results_data st !! str_int (cand_id c)) as [[| | | | | |e]|];
    try (by injection Hstep as <-).
  destruct printed; injection Hstep as <-; cbn [directory]; [|done].
  destruct (_ =? _)%nat; [|done]. by rewrite lookup_insert_ne.
Qed.

Lemma judge_loop_frame (cs : list candidate) (i : nat) (st : judge_state) (path : string) :
  path ≠ RESULTS_FILE →
  directory (judge_loop evaluate i cs st).1 !! path = directory st !! path.
Proof.
  intros Hpath. revert i st. induction cs as [|c cs IH]; intros i st; cbn [judge_loop].
  { done. }
  destruct (judge_step evaluate i c st) as [st'|] eqn:Hstep; [|done].
  rewrite IH. by eapply judge_step_frame.
Qed.

(** The judge's run changes no file but results.json. *)
Lemma run_llm_judge_frame (ready : bool) (dataset : option pyval) (d : fs) (path : string) :
  path ≠ RESULTS_FILE →
  run_llm_judge_on_remaining ready dataset int_of items evaluate d !! path = d !! path.
Proof.
  intros Hpath. unfold run_llm_judge_on_remaining.
  destruct ready; cbn [negb]; [|done].
  destruct (d !! RESULTS_FILE) as [[results|raw]|]; try done.
  destruct dataset as [ds|]; [|done].
  destruct results as [| | | | | |r]; try done.
  destruct (queue int_of ds (items r)) as [[|c cs]|]; try done.
  pose proof (judge_loop_frame (c :: cs) 1 (JudgeState r 0 d) path Hpath) as Hloop.
  destruct (judge_loop evaluate 1 (c :: cs) (JudgeState r 0 d)) as [st finished].
  cbn [fst directory] in Hloop.
  destruct finished; [|done]. by rewrite lookup_insert_ne.
Qed.

(** The judge's run leaves the progress file as it was. *)
Lemma run_llm_judge_keeps_progress (ready : bool) (dataset : option pyval) (d : fs) :
  run_llm_judge_on_remaining ready dataset int_of items evaluate d !! PROGRESS_FILE
  = d !! PROGRESS_FILE.
Proof. by apply run_llm_judge_frame. Qed.

End Frame.

(** Whether a query is queued is read off its progress entry alone: the
    results are consulted only for the responses to attach. *)
Lemma needing_scores_item_reads_progress (p : gmap string pyval) (results : pyval)
    (q : query) (r : option query) :
  needing_scores_item (PDict p) results q = Some r →
  ∃ e, get_or p (str_int (id q)) (PDict ∅) = PDict e
       ∧ (is_Some r ↔
          truthy (get_or e "chatgpt_done" (PBool false)) = true
          ∧ truthy (get_or e "google_done" (PBool false)) = true
          ∧ truthy (get_or e "scored" (PBool false)) = false).
Proof.
  unfold needing_scores_item.
  destruct (get_or p (str_int (id q)) (PDict ∅)) as [| | | | | |e]; try done.
  intros H. exists e. split; [done|].
  destruct (truthy (get_or e "chatgpt_done" _)), (truthy (get_or e "google_done" _)),
    (truthy (get_or e "scored" _)); cbn [andb negb] in H;
    try (injection H as <-; split; [by intros [? [=]]|by intros (? & ? & ?)]).
  split; [done|intros _].
  repeat case_match; simplify_eq; eauto.
Qed.

(** C2 at a concrete store.  After both responses of query 0 are saved
    and the automated judge has written its scores, the results hold
    [llm_scores] for the query, so by the specification it needs no
    scores; [get_queries_needing_scores] still returns it, because the
    progress file says [scored] is not set.  In the other direction, once
    the progress file is reset, a query with both responses and no scores
    at all is not returned. *)
Theorem needing_scores_ignores_llm_scores :
  truthy (field_of (results_of judged_store) "0" "llm_scores") = true
  ∧ needs_scores judged_store 0 = false
  ∧ (get_queries_needing_scores t1 [capital] judged_store).1
    = Some [Query 0 (Some "What is the capital of France?") (Some "Factual")
                  (Some "Well-formed") (Some "High")
                  (Some (PDict (with_timestamp t0 paris)))
                  (Some (PDict (with_timestamp t0 paris)))]
  ∧ needs_scores (reset_progress t1 answered).2 0 = true
  ∧ (get_queries_needing_scores t1 [capital] (reset_progress t1 answered).2).1
    = Some [].
Proof. repeat split; by vm_compute. Qed.

End ScoringQueueProofs.

(* ===================================================================== *)
(** * Facts about the automated scorer's run *)
(* ===================================================================== *)

Module JudgeRunProofs.
Import DataManager RunLLMJudge DataManagerProofs ScoringQueueProofs.
Local Open Scope list_scope.

Section Run.

Variable int_of : string → option Z.
Variable items : gmap string pyval → list (string * pyval).
Variable evaluate : nat → candidate → outcome.

(** ** The first loop *)

(** An entry is queued only when it has both responses and neither manual
    nor automated scores; the number of the candidate is what [int] makes
    of the key. *)
Lemma classify_queue (ds : pyval) (k : string) (data : pyval) (c : candidate) :
  classify int_of ds k data = Queue c →
  ∃ e, data = PDict e
       ∧ truthy (get e "chatgpt") = true ∧ truthy (get e "google") = true
       ∧ truthy (get e "scores") = false ∧ truthy (get e "llm_scores") = false
       ∧ int_of k = Some (cand_id c).
Proof.
  unfold classify. destruct data as [| | | | | |e]; try done.
  destruct (truthy (get e "chatgpt")) eqn:Hc; cbn [negb orb]; [|done].
  destruct (truthy (get e "google")) eqn:Hg; cbn [negb orb]; [|done].
  destruct (truthy (get e "scores")) eqn:Hs; [done|].
  destruct (truthy (get e "llm_scores")) eqn:Hl; [done|].
  destruct (int_of k) as [n|]; [|done].
  destruct (dataset_row_at ds n) as [query_info|]; [|done].
  intros H. exists e. do 5 (split; [done|]).
  repeat case_match; try done. by injection H as <-.
Qed.

Lemma queue_elem_of (ds : pyval) (entries : list (string * pyval))
    (cs : list candidate) (c : candidate) :
  queue int_of ds entries = Some cs → c ∈ cs →
  ∃ k data, (k, data) ∈ entries ∧ classify int_of ds k data = Queue c.
Proof.
  revert cs. induction entries as [|[k data] entries IH]; intros cs Hq Hc; cbn in Hq.
  { injection Hq as <-. by apply not_elem_of_nil in Hc. }
  destruct (classify int_of ds k data) as [|c0|] eqn:Hk; [| |done].
  - destruct (IH cs Hq Hc) as (k' & data' & Hin & Hcl).
    exists k', data'. split; [by apply elem_of_cons; right|done].
  - destruct (queue int_of ds entries) as [cs0|]; [|done]. injection Hq as <-.
    apply elem_of_cons in Hc as [->|Hc].
    + exists k, data. split; [by apply elem_of_cons; left|done].
    + destruct (IH cs0 eq_refl Hc) as (k' & data' & Hin & Hcl).
      exists k', data'. split; [by apply elem_of_cons; right|done].
Qed.

(** ** The second loop *)

(** [rd] is [r0] with [llm_scores] put into some of the entries that
    the candidates of [cs] point to. *)
Definition only_llm_scores (cs : list candidate) (r0 rd : gmap string pyval) : Prop :=
  ∀ k, rd !! k = r0 !! k
       ∨ ∃ c e s, c ∈ cs ∧ k = str_int (cand_id c)
                  ∧ r0 !! k = Some (PDict e)
                  ∧ rd !! k = Some (PDict (<["llm_scores" := PDict s]> e)).

(** The directory is [d], or [d] with such results written. *)
Definition written (cs : list candidate) (r0 : gmap string pyval) (d dir : fs) : Prop :=
  dir = d
  ∨ ∃ rd, only_llm_scores cs r0 rd ∧ dir = <[RESULTS_FILE := FJson (PDict rd)]> d.

Lemma written_again (cs : list candidate) (r0 rd : gmap string pyval) (d dir : fs) :
  written cs r0 d dir → only_llm_scores cs r0 rd →
  written cs r0 d (<[RESULTS_FILE := FJson (PDict rd)]> dir).
Proof.
  intros [->|(rd' & _ & ->)] Hrd; right; exists rd; split; try done.
  by rewrite insert_insert_eq.
Qed.

Lemma judge_step_only_llm_scores (cs : list candidate) (r0 : gmap string pyval) (d : fs)
    (i : nat) (c : candidate) (st st' : judge_state) :
  c ∈ cs →
  only_llm_scores cs r0 (results_data st) →
  written cs r0 d (directory st) →
  judge_step evaluate i c st = Some st' →
  only_llm_scores cs r0 (results_data st') ∧ written cs r0 d (directory st').
Proof.
  intros Hc Hrd Hdir. unfold judge_step.
  destruct (sliceable (cand_query c)); cbn [negb]; [|done].
  destruct (evaluate i c) as [|s printed]; [by intros [= <-]|].
  destruct (results_data st !! str_int (cand_id c)) as [[| | | | | |e]|] eqn:He;
    try (by intros [= <-]).
  assert (only_llm_scores cs r0
            (<[str_int (cand_id c) := PDict (<["llm_scores" := PDict s]> e)]>
               (results_data st))) as Hnew.
  { intros k. destruct (decide (k = str_int (cand_id c))) as [->|Hk].
    - right. rewrite lookup_insert_eq.
      destruct (Hrd (str_int (cand_id c))) as [Hsame|(c0 & e0 & s0 & _ & _ & H0 & Hs0)].
      + exists c, e, s. rewrite <- Hsame, He. done.
      + exists c, e0, s. rewrite He in Hs0. injection Hs0 as ->.
        by rewrite insert_insert_eq.
    - rewrite lookup_insert_ne by done. apply Hrd. }
  destruct printed; intros [= <-]; cbn [results_data directory]; split; try done.
  destruct (_ =? _)%nat; [|done]. by apply written_again.
Qed.

Lemma judge_loop_only_llm_scores (cs : list candidate) (r0 : gmap string pyval) (d : fs)
    (todo : list candidate) (i : nat) (st : judge_state) :
  (∀ c, c ∈ todo → c ∈ cs) →
  only_llm_scores cs r0 (results_data st) →
  written cs r0 d (directory st) →
  only_llm_scores cs r0 (results_data (judge_loop evaluate i todo st).1)
  ∧ written cs r0 d (directory (judge_loop evaluate i todo st).1).
Proof.
  revert i st. induction todo as [|c todo IH]; intros i st Hsub Hrd Hdir;
    cbn [judge_loop].
  { done. }
  destruct (judge_step evaluate i c st) as [st'|] eqn:Hstep; [|done].
  destruct (judge_step_only_llm_scores cs r0 d i c st st') as [Hrd' Hdir']; try done.
  { apply Hsub. by apply elem_of_cons; left. }
  apply IH; try done. intros c' Hc'. apply Hsub. by apply elem_of_cons; right.
Qed.

(** The run leaves the directory as it was, or with results written
    that differ from the ones read by [llm_scores] put into entries that
    candidates of the queue point to. *)
Lemma run_llm_judge_cases (ready : bool) (dataset : option pyval) (d : fs) :
  run_llm_judge_on_remaining ready dataset int_of items evaluate d = d
  ∨ ∃ ds r cs rd,
      dataset = Some ds
      ∧ d !! RESULTS_FILE = Some (FJson (PDict r))
      ∧ queue int_of ds (items r) = Some cs
      ∧ only_llm_scores cs r rd
      ∧ run_llm_judge_on_remaining ready dataset int_of items evaluate d
        = <[RESULTS_FILE := FJson (PDict rd)]> d.
Proof.
  unfold run_llm_judge_on_remaining.
  destruct ready; cbn [negb]; [|by left].
  destruct (d !! RESULTS_FILE) as [[results|raw]|] eqn:Hfile; try (by left).
  destruct dataset as [ds|]; [|by left].
  destruct results as [| | | | | |r]; try (by left).
  destruct (queue int_of ds (items r)) as [[|c cs]|] eqn:Hqueue; try (by left).
  destruct (judge_loop_only_llm_scores (c :: cs) r d (c :: cs) 1 (JudgeState r 0 d))
    as [Hrd Hdir]; [done|by left|by left|].
  destruct (judge_loop evaluate 1 (c :: cs) (JudgeState r 0 d)) as [st finished].
  cbn [fst] in Hrd, Hdir.
  destruct finished.
  - right. exists ds, r, (c :: cs), (results_data st).
    repeat (split; [done|]).
    destruct Hdir as [->|(rd' & _ & ->)]; [done|]. by rewrite insert_insert_eq.
  - destruct Hdir as [->|(rd' & Hrd' & ->)]; [by left|].
    right. by exists ds, r, (c :: cs), rd'.
Qed.

End Run.

(** The scorer's run touches nothing but results.json, where it keeps
    the set of entries and, in each entry, every field other than
    [llm_scores]: responses and manual scores are never changed.  An entry
    that is changed is the one under [str(int(key))] for the key of an
    entry that has both responses and neither manual nor automated scores,
    and it differs by its [llm_scores] only.  When every key of the
    results is what [str] gives for its number, an entry that already has
    manual or automated scores is left exactly as it is.  This holds
    however the run ends: at its end, or in the exception of a query
    whose text cannot be sliced, after some of the results were written. *)
Theorem run_llm_judge_only_adds_llm_scores (ready : bool) (dataset : option pyval)
    (int_of : string → option Z) (items : gmap string pyval → list (string * pyval))
    (evaluate : nat → candidate → outcome) (d : fs) :
  (∀ path, path ≠ RESULTS_FILE →
           run_llm_judge_on_remaining ready dataset int_of items evaluate d !! path
           = d !! path)
  ∧ (∀ k, is_Some (results_of (run_llm_judge_on_remaining ready dataset int_of items
                                  evaluate d) !! k)
          ↔ is_Some (results_of d !! k))
  ∧ (∀ k f, f ≠ "llm_scores" →
            field_of (results_of (run_llm_judge_on_remaining ready dataset int_of items
                                    evaluate d)) k f
            = field_of (results_of d) k f)
  ∧ (∀ k, results_of (run_llm_judge_on_remaining ready dataset int_of items
                        evaluate d) !! k
          = results_of d !! k
          ∨ ∃ key e n before s,
              (key, PDict e) ∈ items (results_of d)
              ∧ truthy (get e "chatgpt") = true ∧ truthy (get e "google") = true
              ∧ truthy (get e "scores") = false ∧ truthy (get e "llm_scores") = false
              ∧ int_of key = Some n
              ∧ k = str_int n
              ∧ results_of d !! k = Some (PDict before)
              ∧ results_of (run_llm_judge_on_remaining ready dataset int_of items
                              evaluate d) !! k
                = Some (PDict (<["llm_scores" := PDict s]> before)))
  ∧ ((∀ key data, (key, data) ∈ items (results_of d) →
                  results_of d !! key = Some data) →
     (∀ key n, is_Some (results_of d !! key) → int_of key = Some n →
               str_int n = key) →
     ∀ k, truthy (field_of (results_of d) k "scores") = true
          ∨ truthy (field_of (results_of d) k "llm_scores") = true →
          results_of (run_llm_judge_on_remaining ready dataset int_of items
                        evaluate d) !! k
          = results_of d !! k).
Proof.
  split; [intros path Hpath; by apply run_llm_judge_frame|].
  destruct (run_llm_judge_cases int_of items evaluate ready dataset d)
    as [->|(ds & r & cs & rd & _ & Hfile & Hqueue & Hrd & ->)].
  { split; [done|]. split; [done|]. split; [by left|]. done. }
  assert (results_of d = r) as Hr.
  { unfold results_of, read_json. by rewrite Hfile. }
  assert (results_of (<[RESULTS_FILE := FJson (PDict rd)]> d) = rd) as Hnew.
  { unfold results_of. by rewrite read_json_insert. }
  rewrite Hnew, Hr.
  assert (∀ k, rd !! k = r !! k
               ∨ ∃ key e n before s,
                   (key, PDict e) ∈ items r
                   ∧ truthy (get e "chatgpt") = true ∧ truthy (get e "google") = true
                   ∧ truthy (get e "scores") = false
                   ∧ truthy (get e "llm_scores") = false
                   ∧ int_of key = Some n
                   ∧ k = str_int n
                   ∧ r !! k = Some (PDict before)
                   ∧ rd !! k = Some (PDict (<["llm_scores" := PDict s]> before)))
    as Hchanged.
  { intros k. destruct (Hrd k) as [Hsame|(c & before & s & Hc & -> & Hbefore & Hafter)];
      [by left|right].
    destruct (queue_elem_of int_of ds (items r) cs c Hqueue Hc)
      as (key & data & Hin & Hclass).
    destruct (classify_queue int_of ds key data c Hclass)
      as (e & -> & Hcg & Hgg & Hs & Hl & Hint).
    by exists key, e, (cand_id c), before, s. }
  split; [|split; [|split; [exact Hchanged|]]].
  - intros k. destruct (Hrd k) as [->|(c & e & s & _ & _ & -> & ->)]; [done|].
    split; intros _; by eexists.
  - intros k f Hf. unfold field_of, get_or.
    destruct (Hrd k) as [->|(c & e & s & _ & _ & -> & ->)]; [done|].
    cbn [default]. unfold Datatypes.id. cbn [as_dict]. unfold get.
    by rewrite lookup_insert_ne.
  - intros Hitems Hkeys k Hscored.
    destruct (Hchanged k)
      as [Hsame|(key & e & n & before & s & Hin & _ & _ & Hs & Hl & Hint & -> & Hb & _)];
      [done|exfalso].
    pose proof (Hitems key (PDict e) Hin) as Hkey.
    rewrite (Hkeys key n) in Hb, Hscored by (by rewrite ?Hkey).
    unfold field_of, get_or in Hscored. rewrite Hkey in Hscored.
    cbn [default] in Hscored. unfold Datatypes.id in Hscored. cbn [as_dict] in Hscored.
    destruct Hscored; congruence.
Qed.

(** ** Concrete runs *)

(** A dataset of eight rows. *)
Definition eight_rows : pyval :=
  PList (replicate 8 (PDict {[ "query" := PStr "What is the capital of France?";
                               "category" := PStr "Factual";
                               "quality" := PStr "Well-formed";
                               "intent_clarity" := PStr "High" ]})).

(** Results in which query 7 has both responses and manual scores, and
    a second entry for the same number, under the key 007, has the
    responses only. *)
Definition two_keys_for_seven : fs :=
  {[ RESULTS_FILE :=
       FJson (PDict {[ "7" := PDict {[ "chatgpt" := PDict paris;
                                       "google" := PDict paris;
                                       "scores" := PDict full_scores ]};
                       "007" := PDict {[ "chatgpt" := PDict paris;
                                         "google" := PDict paris ]} ]}) ]}.

(** The entry under 007 is queued, as number 7, and its scores are put
    into the entry under 7, next to the manual scores there; the entry
    under 007 stays without. *)
Example scores_go_to_the_entry_of_the_number :
  let d' := run_llm_judge_on_remaining true (Some eight_rows) decimal map_to_list
              (λ _ _, Scores verdict true) two_keys_for_seven in
  truthy (field_of (results_of two_keys_for_seven) "7" "scores") = true
  ∧ field_of (results_of two_keys_for_seven) "7" "llm_scores" = PNone
  ∧ field_of (results_of d') "7" "llm_scores" = PDict verdict
  ∧ field_of (results_of d') "7" "scores" = PDict full_scores
  ∧ results_of d' !! "007" = results_of two_keys_for_seven !! "007".
Proof. repeat split; vm_compute; reflexivity. Qed.

(** Two queries with both responses, the second with a text that is null
    in the dataset. *)
Definition second_without_text : pyval :=
  PList [PDict {[ "query" := PStr "What is the capital of France?";
                  "category" := PStr "Factual";
                  "quality" := PStr "Well-formed";
                  "intent_clarity" := PStr "High" ]};
         PDict {[ "query" := PNone;
                  "category" := PStr "Factual";
                  "quality" := PStr "Well-formed";
                  "intent_clarity" := PStr "High" ]}].

Definition two_answered : fs :=
  run [SaveResult t0 0 "chatgpt" paris; SaveResult t0 0 "google" paris;
       SaveResult t0 1 "chatgpt" paris; SaveResult t0 1 "google" paris] ∅.

(** Whichever of the two comes first, the run ends in the exception of
    the one without text before anything is written: the scores given to
    the other, if it came first, are lost. *)
Example run_ends_at_a_null_text :
  run_llm_judge_on_remaining true (Some second_without_text) decimal map_to_list
    (λ _ _, Scores verdict true) two_answered = two_answered
  ∧ run_llm_judge_on_remaining true (Some second_without_text) decimal
      (λ r, reverse (map_to_list r)) (λ _ _, Scores verdict true) two_answered
    = two_answered.
Proof. split; vm_compute; reflexivity. Qed.

(** Six queries with both responses; in the dataset the text of the
    last one is null. *)
Definition six_answered : fs :=
  run (flat_map (λ q, [SaveResult t0 q "chatgpt" paris; SaveResult t0 q "google" paris])
         [0; 1; 2; 3; 4; 5]) ∅.

Definition last_without_text : pyval :=
  PList (replicate 5 (PDict {[ "query" := PStr "What is the capital of France?";
                               "category" := PStr "Factual";
                               "quality" := PStr "Well-formed";
                               "intent_clarity" := PStr "High" ]})
         ++ [PDict {[ "query" := PNone;
                      "category" := PStr "Factual";
                      "quality" := PStr "Well-formed";
                      "intent_clarity" := PStr "High" ]}]).

(** The entries in the order of their numbers. *)
Definition in_order (r : gmap string pyval) : list (string * pyval) :=
  omap (λ k, (λ v, (k, v)) <$> r !! k) ["0"; "1"; "2"; "3"; "4"; "5"].

(** The results are written after the fifth success, and the run ends in
    the exception of the sixth query: the file is left with the scores of
    the first five. *)
Example run_ends_after_a_save :
  let d' := run_llm_judge_on_remaining true (Some last_without_text) decimal in_order
              (λ _ _, Scores verdict true) six_answered in
  Forall (λ k, field_of (results_of d') k "llm_scores" = PDict verdict)
         ["0"; "1"; "2"; "3"; "4"]
  ∧ field_of (results_of d') "5" "llm_scores" = PNone
  ∧ truthy (field_of (results_of d') "5" "google") = true.
Proof. split; [repeat constructor|split]; vm_compute; reflexivity. Qed.

End JudgeRunProofs.

(* ===================================================================== *)
(** * Facts about the save-scores request *)
(* ===================================================================== *)

Module AppProofs.
Import DataManager App DataManagerProofs.

(** A value with no membership test has none for any key. *)
Lemma contains_raises (v : pyval) (k k' : string) :
  contains v k = None → contains v k' = None.
Proof. by destruct v. Qed.

(** How the validation loop ends: with every field found; at the first
    field that is not found, the ones before it found; or with the
    exception of a value that has no membership test. *)
Lemma validate_cases (fields : list string) (scores : pyval) :
  match validate fields scores with
  | Valid => ∀ f, f ∈ fields → contains scores f = Some true
  | MissingField f =>
      ∃ found rest, fields = (found ++ f :: rest)%list
                    ∧ (∀ g, g ∈ found → contains scores g = Some true)
                    ∧ contains scores f = Some false
  | NotIterable => ∀ f, contains scores f = None
  end.
Proof.
  induction fields as [|g fields IH]; cbn [validate].
  { intros f Hf. by apply not_elem_of_nil in Hf. }
  destruct (contains scores g) as [[|]|] eqn:Hg.
  - destruct (validate fields scores) as [|f|].
    + intros f Hf. apply elem_of_cons in Hf as [->|Hf]; [done|by apply IH].
    + destruct IH as (found & rest & -> & Hfound & Hf).
      exists (g :: found), rest. split; [done|]. split; [|done].
      intros g' Hg'. apply elem_of_cons in Hg' as [->|Hg']; [done|by apply Hfound].
    + exact IH.
  - exists [], fields. split; [done|]. split; [|done].
    intros g' Hg'. by apply not_elem_of_nil in Hg'.
  - intros f. by eapply contains_raises.
Qed.

(** C8, as amended.  A save-scores request without a query id, or whose
    scores are missing or empty (any value that is false in a test), or
    whose scores do not pass [field in scores] for some required field, is
    answered at once with [success] false and an error, and the directory
    (results file included) is left exactly as it was.  The answer is
    status 400 with "Missing required fields"; or status 400 with "Missing
    score field: " and the first required field that is not in the scores;
    or, when the scores are a number or [true], which have no membership
    test, status 500 with the text of the exception.  This covers every
    value of [scores], a JSON object or not. *)
Theorem save_scores_rejects_incomplete (now : instant) (data : scores_request) (d : fs) :
  body_query_id data = None
  ∨ truthy (body_scores data) = false
  ∨ (∃ f, f ∈ required_fields ∧ contains (body_scores data) f ≠ Some true) →
  success (save_scores now data d).1 = false
  ∧ message (save_scores now data d).1 = None
  ∧ ((status (save_scores now data d).1 = 400
      ∧ error (save_scores now data d).1 = Some "Missing required fields"
      ∧ (body_query_id data = None ∨ truthy (body_scores data) = false))
     ∨ (status (save_scores now data d).1 = 400
        ∧ ∃ found f rest,
            required_fields = (found ++ f :: rest)%list
            ∧ (∀ g, g ∈ found → contains (body_scores data) g = Some true)
            ∧ contains (body_scores data) f = Some false
            ∧ error (save_scores now data d).1
              = Some ("Missing score field: " ++ f)%string)
     ∨ (status (save_scores now data d).1 = 500
        ∧ (∀ f, contains (body_scores data) f = None)
        ∧ error (save_scores now data d).1
          = Some (not_iterable_text (body_scores data))))
  ∧ (save_scores now data d).2 = d.
Proof.
  intros Hbad. unfold save_scores.
  destruct (body_query_id data) as [q|]; [|cbn; by auto 10].
  destruct (truthy (body_scores data)) eqn:Htruthy; cbn [negb]; [|cbn; by auto 10].
  pose proof (validate_cases required_fields (body_scores data)) as Hcases.
  destruct (validate required_fields (body_scores data)) as [|f|]; cbn [fst snd].
  - destruct Hbad as [?|[?|(f & Hin & Hf)]]; [done|done|].
    by rewrite (Hcases f Hin) in Hf.
  - destruct Hcases as (found & rest & Hfields & Hfound & Hf).
    split; [done|]. split; [done|]. split; [|done].
    right. left. split; [done|]. by exists found, f, rest.
  - split; [done|]. split; [done|]. split; [|done].
    right. right. by split.
Qed.

(** The scores of a save-scores request that name the eight fields but
    are a list: what a JSON array of the field names reads as. *)
Definition field_names : pyval := PList (PStr <$> required_fields).

(** C8, as stated, fails.  The list of the eight names is not a JSON
    object, so it has no score field at all; yet every [field in scores]
    holds, the validation passes, [data_manager.save_scores] fails on the
    timestamp assignment, and the request is answered with status 200 and
    the message "Scores saved", without an error ([success] is false).
    The results are not touched. *)
Lemma field_names_pass_validation :
  (∀ s, field_names ≠ PDict s)
  ∧ (∀ f, f ∈ required_fields → contains field_names f = Some true)
  ∧ save_scores t1 (ScoresRequest (Some 0) field_names) ScoringQueueProofs.answered
    = (Response 200 false None (Some "Scores saved"), ScoringQueueProofs.answered)
  ∧ status (save_scores t1 (ScoresRequest (Some 0) field_names)
              ScoringQueueProofs.answered).1 ≠ 400
  ∧ error (save_scores t1 (ScoresRequest (Some 0) field_names)
             ScoringQueueProofs.answered).1 = None.
Proof.
  split; [done|]. split.
  { intros f Hf. unfold required_fields in Hf.
    repeat (apply elem_of_cons in Hf as [->|Hf]; [by vm_compute|]).
    by apply not_elem_of_nil in Hf. }
  split; [vm_compute; reflexivity|]. split; by vm_compute.
Qed.

(** The same with a string in which the eight names occur. *)
Example field_names_in_a_string :
  save_scores t1
    (ScoresRequest (Some 0)
       (PStr ("chatgpt_relevance chatgpt_completeness chatgpt_source_quality "
              ++ "google_relevance google_completeness google_source_quality "
              ++ "chatgpt_intent_understood google_intent_understood")))
    ScoringQueueProofs.answered
  = (Response 200 false None (Some "Scores saved"), ScoringQueueProofs.answered).
Proof. vm_compute. reflexivity. Qed.

(** The amended C8 on a request whose scores lack [google_relevance]. *)
Lemma save_scores_rejects_incomplete_witness :
  (body_query_id (ScoresRequest (Some 0) (PDict (delete "google_relevance" full_scores))) = None
   ∨ truthy (body_scores (ScoresRequest (Some 0) (PDict (delete "google_relevance" full_scores))))
     = false
   ∨ (∃ f, f ∈ required_fields
           ∧ contains (body_scores (ScoresRequest (Some 0)
                                      (PDict (delete "google_relevance" full_scores)))) f
             ≠ Some true))
  ∧ (save_scores t1 (ScoresRequest (Some 0) (PDict (delete "google_relevance" full_scores)))
       ScoringQueueProofs.answered).1
    = Response 400 false (Some "Missing score field: google_relevance") None
  ∧ (save_scores t1 (ScoresRequest (Some 0) (PDict (delete "google_relevance" full_scores)))
       ScoringQueueProofs.answered).2 = ScoringQueueProofs.answered.
Proof.
  assert (body_query_id (ScoresRequest (Some 0) (PDict (delete "google_relevance" full_scores))) = None
   ∨ truthy (body_scores (ScoresRequest (Some 0) (PDict (delete "google_relevance" full_scores))))
     = false
   ∨ (∃ f, f ∈ required_fields
           ∧ contains (body_scores (ScoresRequest (Some 0)
                                      (PDict (delete "google_relevance" full_scores)))) f
             ≠ Some true)) as Hbad.
  { right. right. exists "google_relevance".
    split; [unfold required_fields; set_solver|by vm_compute]. }
  split; [exact Hbad|].
  pose proof (save_scores_rejects_incomplete t1 _ ScoringQueueProofs.answered Hbad)
    as (_ & _ & _ & Hsame).
  split; [by vm_compute|exact Hsame].
Defined.

(** Scores that are not a JSON object and fail the validation: a list
    that lacks a name, the empty list, and a number. *)
Example save_scores_rejects_other_values :
  save_scores t1 (ScoresRequest (Some 0) (PList [PStr "chatgpt_relevance"]))
    ScoringQueueProofs.answered
  = (Response 400 false (Some "Missing score field: chatgpt_completeness") None,
     ScoringQueueProofs.answered)
  ∧ save_scores t1 (ScoresRequest (Some 0) (PList [])) ScoringQueueProofs.answered
    = (Response 400 false (Some "Missing required fields") None,
       ScoringQueueProofs.answered)
  ∧ save_scores t1 (ScoresRequest (Some 0) (PInt 5)) ScoringQueueProofs.answered
    = (Response 500 false (Some "argument of type 'int' is not iterable") None,
       ScoringQueueProofs.answered).
Proof. repeat split; vm_compute; reflexivity. Qed.

(** A complete request goes through to the store. *)
Example save_scores_accepts_complete :
  (save_scores t1 (ScoresRequest (Some 0) (PDict full_scores))
     ScoringQueueProofs.answered).1
  = Response 200 true None (Some "Scores saved").
Proof. by vm_compute. Qed.

End AppProofs.

(* ===================================================================== *)
(** * More facts about the request handlers *)
(* ===================================================================== *)

Module HandlerProofs.
Import DataManager App DataManagerProofs.

Lemma validate_complete (fields : list string) (s : gmap string pyval) :
  (∀ f, f ∈ fields → is_Some (s !! f)) → validate fields (PDict s) = Valid.
Proof.
  induction fields as [|f fields IH]; intros Hall; [done|].
  cbn [validate contains].
  rewrite bool_decide_true by (apply Hall, elem_of_cons; by left).
  apply IH. intros g Hg. apply Hall, elem_of_cons. by right.
Qed.

(** A save-scores request with a query id and a scores dictionary that
    has every required field is answered with status 200; [success] is
    what [data_manager.save_scores] returned.  When the query has an entry
    in the results, the scores are stored in it, stamped with the time. *)
Theorem save_scores_request_stores (now : instant) (q : Z) (s e : gmap string pyval)
    (d : fs) :
  (∀ f, f ∈ required_fields → is_Some (s !! f)) →
  results_of d !! str_int q = Some (PDict e) →
  (save_scores now (ScoresRequest (Some q) (PDict s)) d).1
  = Response 200 true None (Some "Scores saved")
  ∧ field_of (results_of (save_scores now (ScoresRequest (Some q) (PDict s)) d).2)
             (str_int q) "scores"
    = PDict (<["timestamp" := PStr (isoformat now)]> s).
Proof.
  intros Hall He. unfold save_scores. cbn [body_query_id body_scores].
  assert (truthy (PDict s) = true) as ->.
  { destruct (Hall "chatgpt_relevance") as [v Hv]; [unfold required_fields; set_solver|].
    cbn. destruct (size s) eqn:Hsize; [|done].
    apply map_size_empty_inv in Hsize. subst s. by rewrite lookup_empty in Hv. }
  cbn [negb]. rewrite validate_complete by done.
  rewrite (StoreProofs.save_scores_known now q s e d He). cbn [fst snd].
  split; [done|].
  rewrite update_progress_results, results_written_results, field_of_insert.
  unfold get. by rewrite lookup_insert_eq.
Qed.

(** A complete save-scores request for a query that has no entry in the
    results is still answered with status 200 and the message "Scores
    saved", with [success] false; the results and the progress file are
    not written. *)
Theorem save_scores_request_unknown_query (now : instant) (q : Z)
    (s : gmap string pyval) (d : fs) :
  (∀ f, f ∈ required_fields → is_Some (s !! f)) →
  results_of d !! str_int q = None →
  (save_scores now (ScoresRequest (Some q) (PDict s)) d).1
  = Response 200 false None (Some "Scores saved")
  ∧ (save_scores now (ScoresRequest (Some q) (PDict s)) d).2 !! RESULTS_FILE
    = d !! RESULTS_FILE
  ∧ (save_scores now (ScoresRequest (Some q) (PDict s)) d).2 !! PROGRESS_FILE
    = d !! PROGRESS_FILE.
Proof.
  intros Hall Hnone. unfold save_scores. cbn [body_query_id body_scores].
  assert (truthy (PDict s) = true) as ->.
  { destruct (Hall "chatgpt_relevance") as [v Hv]; [unfold required_fields; set_solver|].
    cbn. destruct (size s) eqn:Hsize; [|done].
    apply map_size_empty_inv in Hsize. subst s. by rewrite lookup_empty in Hv. }
  cbn [negb]. rewrite validate_complete by done.
  destruct (StoreProofs.save_scores_unknown now q (PDict s) d Hnone) as [Hno Hfail].
  destruct (DataManager.save_scores now q (PDict s) d) as [ok d'].
  cbn [fst snd] in *. subst ok.
  split; [done|]. split; apply Hfail; discriminate.
Qed.

(** A save-google-response request without a query id or without a
    response text is rejected with status 400 and nothing is written. *)
Theorem save_google_response_rejects (now : instant) (data : google_request) (d : fs) :
  google_query_id data = None ∨ truthy (google_response_text data) = false →
  save_google_response now data d
  = (Response 400 false (Some "Missing required fields") None, d).
Proof.
  intros Hbad. unfold save_google_response.
  destruct (google_query_id data); [|done].
  destruct Hbad as [?| ->]; done.
Qed.

(** A save-google-response request with a query id and a response text,
    on a results file that is usable for the query, is answered with
    status 200 and [success] true; the entry's [google] field then holds
    the response text, the time of the request and the response time as
    sent, and the entries of the other queries are untouched. *)
Theorem save_google_response_stores (now : instant) (q : Z) (text time_ms : pyval)
    (d : fs) (r : gmap string pyval) :
  truthy text = true →
  read_json RESULTS_FILE d = PDict r →
  r !! str_int q = None ∨ (∃ e, r !! str_int q = Some (PDict e)) →
  (save_google_response now (GoogleRequest (Some q) text time_ms) d).1
  = Response 200 true None (Some "Response saved")
  ∧ field_of (results_of (save_google_response now (GoogleRequest (Some q) text time_ms) d).2)
             (str_int q) "google"
    = PDict {[ "response" := text; "timestamp" := PStr (isoformat now);
               "response_time_ms" := time_ms ]}
  ∧ (∀ q', q' ≠ q →
       results_of (save_google_response now (GoogleRequest (Some q) text time_ms) d).2
         !! str_int q'
       = results_of d !! str_int q').
Proof.
  intros Htext Hr Hk. unfold save_google_response.
  cbn [google_query_id google_response_text google_response_time_ms].
  rewrite Htext. cbn [negb].
  set (rd := ({[ "response" := text; "timestamp" := PStr (isoformat now);
                 "response_time_ms" := time_ms ]} : gmap string pyval)).
  assert ((save_result now q "google" rd d).1 = true) as Hok.
  { by eapply StoreProofs.save_result_usable. }
  destruct (StoreProofs.save_result_results now q "google" rd d Hok) as (e & _ & Hres).
  destruct (save_result now q "google" rd d) as [ok d']. cbn [fst snd] in *. subst ok.
  rewrite Hres. split; [done|]. split.
  - rewrite field_of_insert. unfold get. rewrite lookup_insert_eq. cbn [default].
    reflexivity.
  - intros q' Hq'. rewrite lookup_insert_ne; [done|].
    intros H. by apply str_int_inj in H.
Qed.

(** ** The statements above at concrete requests *)

Definition both_answered : fs :=
  run [SaveResult t0 0 "chatgpt" paris; SaveResult t0 0 "google" paris] ∅.

Lemma full_scores_complete : ∀ f, f ∈ required_fields → is_Some (full_scores !! f).
Proof.
  intros f Hf. unfold required_fields in Hf.
  repeat (apply elem_of_cons in Hf as [->|Hf]; [by vm_compute; eexists|]).
  by apply not_elem_of_nil in Hf.
Qed.

(** Complete scores for query 0, once both its responses are there. *)
Lemma save_scores_request_stores_witness :
  (∀ f, f ∈ required_fields → is_Some (full_scores !! f))
  ∧ is_Some (results_of both_answered !! str_int 0)
  ∧ (save_scores t1 (ScoresRequest (Some 0) (PDict full_scores)) both_answered).1
    = Response 200 true None (Some "Scores saved")
  ∧ field_of (results_of (save_scores t1 (ScoresRequest (Some 0) (PDict full_scores))
                            both_answered).2) (str_int 0) "scores"
    = PDict (<["timestamp" := PStr (isoformat t1)]> full_scores).
Proof.
  destruct (results_of both_answered !! str_int 0) as [[| | | | | |e]|] eqn:He;
    try (by vm_compute in He).
  split; [exact full_scores_complete|]. split; [by eexists|].
  exact (save_scores_request_stores t1 0 full_scores e both_answered
           full_scores_complete He).
Defined.

(** Complete scores for query 7, which has no entry. *)
Lemma save_scores_request_unknown_query_witness :
  (∀ f, f ∈ required_fields → is_Some (full_scores !! f))
  ∧ results_of both_answered !! str_int 7 = None
  ∧ (save_scores t1 (ScoresRequest (Some 7) (PDict full_scores)) both_answered).1
    = Response 200 false None (Some "Scores saved")
  ∧ (save_scores t1 (ScoresRequest (Some 7) (PDict full_scores)) both_answered).2
      !! RESULTS_FILE = both_answered !! RESULTS_FILE
  ∧ (save_scores t1 (ScoresRequest (Some 7) (PDict full_scores)) both_answered).2
      !! PROGRESS_FILE = both_answered !! PROGRESS_FILE.
Proof.
  assert (results_of both_answered !! str_int 7 = None) as Hnone by (by vm_compute).
  split; [exact full_scores_complete|]. split; [exact Hnone|].
  exact (save_scores_request_unknown_query t1 7 full_scores both_answered
           full_scores_complete Hnone).
Defined.

(** A request with an empty response text. *)
Lemma save_google_response_rejects_witness :
  (google_query_id (GoogleRequest (Some 0) (PStr "") PNone) = None
   ∨ truthy (google_response_text (GoogleRequest (Some 0) (PStr "") PNone)) = false)
  ∧ save_google_response t1 (GoogleRequest (Some 0) (PStr "") PNone) both_answered
    = (Response 400 false (Some "Missing required fields") None, both_answered).
Proof.
  assert (google_query_id (GoogleRequest (Some 0) (PStr "") PNone) = None
          ∨ truthy (google_response_text (GoogleRequest (Some 0) (PStr "") PNone)) = false)
    as Hbad by (by right).
  split; [exact Hbad|].
  exact (save_google_response_rejects t1 _ both_answered Hbad).
Defined.

(** The first response saved into an empty directory. *)
Lemma save_google_response_stores_witness :
  truthy (PStr "Paris") = true
  ∧ read_json RESULTS_FILE (∅ : fs) = PDict ∅
  ∧ (save_google_response t1 (GoogleRequest (Some 3) (PStr "Paris") (PInt 900)) ∅).1
    = Response 200 true None (Some "Response saved")
  ∧ field_of (results_of (save_google_response t1
                (GoogleRequest (Some 3) (PStr "Paris") (PInt 900)) ∅).2)
             (str_int 3) "google"
    = PDict {[ "response" := PStr "Paris"; "timestamp" := PStr (isoformat t1);
               "response_time_ms" := PInt 900 ]}.
Proof.
  split; [reflexivity|]. split; [reflexivity|].
  pose proof (save_google_response_stores t1 3 (PStr "Paris") (PInt 900) ∅ ∅
                eq_refl eq_refl (or_introl (lookup_empty _))) as (H1 & H2 & _).
  exact (conj H1 H2).
Defined.

End HandlerProofs.

(* ===================================================================== *)
(** * Facts about sampling.py *)
(* ===================================================================== *)

Module SamplingProofs.
Import DataManager Sampling.
Local Open Scope list_scope.

(** ** Grouping *)

Lemma group_add_keys (k : string) (q : query) (d : groups) :
  (group_add k q d).*1 = if decide (k ∈ d.*1) then d.*1 else d.*1 ++ [k].
Proof.
  induction d as [|[k' qs] d IH]; cbn [group_add fmap list_fmap fst].
  { rewrite decide_False; [done|]. apply not_elem_of_nil. }
  destruct (decide (k' = k)) as [->|Hne]; cbn [group_add fmap list_fmap fst].
  - rewrite decide_True; [done|]. apply elem_of_cons. by left.
  - rewrite IH. destruct (decide (k ∈ d.*1)) as [Hin|Hnin].
    + rewrite decide_True; [done|]. apply elem_of_cons. by right.
    + rewrite decide_False; [done|].
      intros [?|?]%elem_of_cons; congruence.
Qed.

Lemma group_get_add (k k' : string) (q : query) (d : groups) :
  group_get (group_add k q d) k'
  = if decide (k = k') then group_get d k' ++ [q] else group_get d k'.
Proof.
  induction d as [|[k0 qs] d IH]; cbn [group_add group_get].
  { destruct (decide (k = k')); reflexivity. }
  destruct (decide (k0 = k)) as [->|Hne]; cbn [group_add group_get].
  - destruct (decide (k = k')); reflexivity.
  - destruct (decide (k0 = k')) as [->|Hne'].
    + rewrite decide_False; [reflexivity|]. congruence.
    + exact IH.
Qed.

Lemma group_get_elem_of (d : groups) (k : string) (qs : list query) :
  NoDup d.*1 → (k, qs) ∈ d → group_get d k = qs.
Proof.
  induction d as [|[k0 qs0] d IH]; cbn [group_get fmap list_fmap fst]; intros Hnd Hin.
  { by apply not_elem_of_nil in Hin. }
  apply NoDup_cons in Hnd as [Hk0 Hnd].
  apply elem_of_cons in Hin as [[= -> ->]|Hin].
  - by rewrite decide_True.
  - rewrite decide_False; [by apply IH|].
    intros ->. apply Hk0. apply list_elem_of_fmap. by exists (k, qs).
Qed.

Lemma group_by_snoc (key : query → string) (l : list query) (q : query) :
  group_by key (l ++ [q]) = group_add (key q) q (group_by key l).
Proof. unfold group_by. by rewrite foldl_snoc. Qed.

(** The keys of the grouping are the key values that occur, each once. *)
Lemma group_by_keys (key : query → string) (l : list query) :
  NoDup (group_by key l).*1
  ∧ ∀ k, k ∈ (group_by key l).*1 ↔ ∃ q, q ∈ l ∧ key q = k.
Proof.
  induction l as [|q l [IHnd IHin]] using rev_ind.
  { split; [constructor|]. intros k. split.
    - by intros ?%not_elem_of_nil.
    - by intros (q & ?%not_elem_of_nil & _). }
  rewrite group_by_snoc, group_add_keys.
  destruct (decide (key q ∈ (group_by key l).*1)) as [Hin|Hnin].
  - split; [exact IHnd|]. intros k. rewrite IHin. split.
    + intros (q' & Hq' & Hk). exists q'. split; [|done].
      apply elem_of_app. by left.
    + intros (q' & [Hq'|Hq']%elem_of_app & Hk); [by exists q'|].
      apply list_elem_of_singleton in Hq' as ->. subst k. by apply IHin.
  - split.
    + apply NoDup_app. split; [exact IHnd|]. split; [|apply NoDup_singleton].
      intros k Hk ->%list_elem_of_singleton. by apply Hnin.
    + intros k. rewrite elem_of_app, IHin, list_elem_of_singleton. split.
      * intros [(q' & Hq' & Hk)| ->].
        -- exists q'. split; [|done]. apply elem_of_app. by left.
        -- exists q. split; [|done]. apply elem_of_app. right.
           by apply list_elem_of_singleton.
      * intros (q' & [Hq'|Hq']%elem_of_app & Hk); [left; by exists q'|].
        apply list_elem_of_singleton in Hq' as ->. by right.
Qed.

(** Each group holds the queries with its key, in their order. *)
Lemma group_get_group_by (key : query → string) (l : list query) (k : string) :
  group_get (group_by key l) k = filter (λ q, key q = k) l.
Proof.
  induction l as [|q l IH] using rev_ind; [reflexivity|].
  rewrite group_by_snoc, group_get_add, filter_app, IH.
  destruct (decide (key q = k)) as [Hk|Hk].
  - by rewrite filter_cons_True.
  - rewrite filter_cons_False by done. by rewrite app_nil_r.
Qed.

Lemma group_by_elem_of (key : query → string) (l : list query) (k : string)
    (qs : list query) :
  (k, qs) ∈ group_by key l → qs = filter (λ q, key q = k) l.
Proof.
  intros Hin. rewrite <- group_get_group_by. symmetry.
  apply group_get_elem_of; [apply group_by_keys|done].
Qed.

Lemma group_by_nonempty (key : query → string) (l : list query) :
  l ≠ [] → length (group_by key l) ≠ 0%nat.
Proof.
  intros Hl Hlen. destruct l as [|q l]; [done|].
  destruct (group_by_keys key (q :: l)) as [_ Hin].
  assert (key q ∈ (group_by key (q :: l)).*1) as Hq.
  { apply Hin. exists q. split; [|done]. apply elem_of_cons. by left. }
  apply nil_length_inv in Hlen. rewrite Hlen in Hq.
  by apply not_elem_of_nil in Hq.
Qed.

(** ** Deduplication by id *)

Lemma dict_set_keys (k : Z) (q : query) (d : list (Z * query)) :
  (dict_set k q d).*1 = if decide (k ∈ d.*1) then d.*1 else d.*1 ++ [k].
Proof.
  induction d as [|[k' q'] d IH]; cbn [dict_set fmap list_fmap fst].
  { rewrite decide_False; [done|]. apply not_elem_of_nil. }
  destruct (decide (k' = k)) as [->|Hne]; cbn [dict_set fmap list_fmap fst].
  - rewrite decide_True; [done|]. apply elem_of_cons. by left.
  - rewrite IH. destruct (decide (k ∈ d.*1)) as [Hin|Hnin].
    + rewrite decide_True; [done|]. apply elem_of_cons. by right.
    + rewrite decide_False; [done|].
      intros [?|?]%elem_of_cons; congruence.
Qed.

Lemma dict_set_elem_of (k : Z) (q : query) (d : list (Z * query)) (kq : Z * query) :
  kq ∈ dict_set k q d → kq ∈ d ∨ kq = (k, q).
Proof.
  induction d as [|[k' q'] d IH]; cbn [dict_set].
  { intros ->%list_elem_of_singleton. by right. }
  destruct (decide (k' = k)) as [->|Hne].
  - intros [->|Hin]%elem_of_cons; [by right|]. left. apply elem_of_cons. by right.
  - intros [->|Hin]%elem_of_cons; [left; apply elem_of_cons; by left|].
    destruct (IH Hin) as [?|?]; [left; apply elem_of_cons; by right|by right].
Qed.

Lemma keyed_by_id_fmap (d : list (Z * query)) :
  (∀ kq, kq ∈ d → id kq.2 = kq.1) → id <$> d.*2 = d.*1.
Proof.
  induction d as [|[k q] d IH]; intros Hd; [reflexivity|].
  cbn [fmap list_fmap fst snd]. f_equal.
  - apply (Hd (k, q)). apply elem_of_cons. by left.
  - apply IH. intros kq Hkq. apply Hd. apply elem_of_cons. by right.
Qed.

Lemma unique_by_id_spec (l : list query) :
  NoDup (id <$> unique_by_id l) ∧ ∀ q, q ∈ unique_by_id l → q ∈ l.
Proof.
  unfold unique_by_id.
  assert (NoDup (foldl (λ d q, dict_set (id q) q d) [] l).*1
          ∧ ∀ kq, kq ∈ foldl (λ d q, dict_set (id q) q d) [] l →
                  id kq.2 = kq.1 ∧ kq.2 ∈ l) as [Hnd Hel].
  { induction l as [|q l [IHnd IHel]] using rev_ind.
    { split; [constructor|]. by intros kq ?%not_elem_of_nil. }
    rewrite foldl_snoc. split.
    - rewrite dict_set_keys. case_decide as Hin; [exact IHnd|].
      apply NoDup_app. split; [exact IHnd|]. split; [|apply NoDup_singleton].
      intros k Hk ->%list_elem_of_singleton. by apply Hin.
    - intros kq [Hkq| ->]%dict_set_elem_of.
      + destruct (IHel _ Hkq) as [? ?]. split; [done|].
        apply elem_of_app. by left.
      + split; [done|]. apply elem_of_app. right. by apply list_elem_of_singleton. }
  split.
  - rewrite keyed_by_id_fmap; [exact Hnd|]. intros kq Hkq. by apply Hel.
  - intros q [kq [-> Hkq]]%list_elem_of_fmap. by apply Hel.
Qed.

(** ** Sorting by id *)

Definition id_le (a b : query) : Prop := id a ≤ id b.

Lemma insert_by_id_perm (q : query) (l : list query) : insert_by_id q l ≡ₚ q :: l.
Proof.
  induction l as [|q' l IH]; cbn [insert_by_id]; [done|].
  case_decide; [done|]. rewrite IH. apply Permutation_swap.
Qed.

Lemma sort_by_id_perm (l : list query) : sort_by_id l ≡ₚ l.
Proof.
  induction l as [|q l IH]; [done|].
  cbn [sort_by_id foldr]. fold (sort_by_id l).
  by rewrite insert_by_id_perm, IH.
Qed.

Lemma insert_by_id_sorted (q : query) (l : list query) :
  StronglySorted id_le l → StronglySorted id_le (insert_by_id q l).
Proof.
  induction l as [|q' l IH]; cbn [insert_by_id]; intros Hs.
  { repeat constructor. }
  apply StronglySorted_inv in Hs as [Hs Hall].
  case_decide as Hle.
  - constructor; [by constructor|].
    constructor; [exact Hle|].
    eapply Forall_impl; [exact Hall|]. unfold id_le in *. simpl. intros; lia.
  - constructor; [by apply IH|].
    rewrite insert_by_id_perm. constructor; [|exact Hall].
    unfold id_le. lia.
Qed.

Lemma sort_by_id_sorted (l : list query) : StronglySorted id_le (sort_by_id l).
Proof.
  induction l as [|q l IH]; [constructor|].
  cbn [sort_by_id foldr]. by apply insert_by_id_sorted.
Qed.

(** ** The counter sampler draws without replacement *)

Lemma pick_spec (seed : nat) (pool : list query) (n : nat) :
  (n ≤ length pool)%nat →
  (pick seed pool n).1 ⊆+ pool ∧ length (pick seed pool n).1 = n.
Proof.
  revert seed pool. induction n as [|n IH]; intros seed pool Hn; cbn [pick].
  { split; [apply submseteq_nil_l|done]. }
  assert (seed `mod` length pool < length pool)%nat as Hi.
  { apply Nat.mod_upper_bound. lia. }
  destruct (lookup_lt_is_Some_2 pool _ Hi) as [q Hq]. rewrite Hq.
  specialize (IH (7 * seed + 3)%nat (delete (seed `mod` length pool)%nat pool)).
  destruct (pick _ _ n) as [rest seed'].
  destruct IH as [Hsub Hlen].
  { rewrite length_delete by eauto. lia. }
  cbn [fst] in *. split.
  - rewrite (delete_Permutation pool _ _ Hq). by apply submseteq_skip.
  - simpl. by rewrite Hlen.
Qed.

(** ** The selection *)

Lemma NoDup_fmap_eq {A B : Type} (f : A → B) (l : list A) (x y : A) :
  NoDup (f <$> l) → x ∈ l → y ∈ l → f x = f y → x = y.
Proof.
  induction l as [|a l IH]; intros Hnd Hx Hy Hf.
  { by apply not_elem_of_nil in Hx. }
  rewrite fmap_cons in Hnd. apply NoDup_cons in Hnd as [Ha Hnd].
  apply elem_of_cons in Hx as [->|Hx]; apply elem_of_cons in Hy as [->|Hy].
  - done.
  - exfalso. apply Ha. rewrite Hf. by apply list_elem_of_fmap_2.
  - exfalso. apply Ha. rewrite <- Hf. by apply list_elem_of_fmap_2.
  - by apply IH.
Qed.

Lemma submseteq_NoDup {A : Type} (l k : list A) : l ⊆+ k → NoDup k → NoDup l.
Proof.
  intros [k' Hk]%submseteq_Permutation Hnd. rewrite Hk in Hnd.
  by apply NoDup_app in Hnd as [? _].
Qed.

Lemma samples_per_category_bound (sample_size n : Z) :
  0 < n → n * Z.max 1 (sample_size `div` n) ≤ Z.max sample_size n.
Proof.
  intros Hn. pose proof (Z.mul_div_le sample_size n Hn).
  destruct (Z.max_spec 1 (sample_size `div` n)) as [[_ ->]|[_ ->]]; lia.
Qed.

Section WithSampler.

Context {rng : Type} (sample : rng → list query → nat → list query * rng).

(** [random.sample(population, k)] with [k] at most the size of the
    population returns [k] elements drawn from distinct positions. *)
Hypothesis sample_spec : ∀ g pool n,
  (n ≤ length pool)%nat →
  (sample g pool n).1 ⊆+ pool ∧ length (sample g pool n).1 = n.

Variable queries : list query.
Hypothesis ids_distinct : NoDup (id <$> queries).

(** What holds of the selection throughout: its queries are queries of
    the input, no id occurs twice, and [selected_ids] is the set of their
    ids. *)
Definition selection_ok (st : selection rng) : Prop :=
  NoDup (id <$> st.1.1)
  ∧ (∀ q, q ∈ st.1.1 → q ∈ queries)
  ∧ (∀ z, z ∈ st.1.2 ↔ z ∈ id <$> st.1.1).

Lemma draw_ok (pool : list query) (n : nat) (st : selection rng) :
  selection_ok st →
  (∀ q, q ∈ pool → q ∈ queries ∧ id q ∉ st.1.2) →
  NoDup (id <$> pool) →
  (n ≤ length pool)%nat →
  selection_ok (draw rng sample pool n st)
  ∧ length (draw rng sample pool n st).1.1 = (length st.1.1 + n)%nat.
Proof.
  destruct st as [[selected ids] g]. intros (Hnd & Hsub & Hids) Hpool Hpnd Hn.
  unfold draw. destruct (sample_spec g pool n Hn) as [Hs Hlen].
  destruct (sample g pool n) as [sampled g']. cbn [fst snd] in *.
  assert (∀ q, q ∈ sampled → q ∈ pool) as Hin.
  { intros q Hq. by eapply elem_of_submseteq. }
  split; [|by rewrite length_app, Hlen].
  unfold selection_ok. cbn [fst snd].
  split; [|split].
  - rewrite fmap_app. apply NoDup_app. split; [exact Hnd|]. split.
    + intros z Hz [q [-> Hq]]%list_elem_of_fmap.
      apply (Hpool q); [by apply Hin|]. by apply Hids.
    + apply (submseteq_NoDup _ (id <$> pool)); [|exact Hpnd].
      by apply (fmap_submseteq id).
  - intros q [Hq|Hq]%elem_of_app; [by apply Hsub|]. by apply Hpool, Hin.
  - intros z. rewrite elem_of_union, elem_of_list_to_set, fmap_app, elem_of_app.
    by rewrite Hids.
Qed.

Lemma unselected_ok (ids : gset Z) (l : list query) :
  (∀ q, q ∈ l → q ∈ queries) →
  NoDup (id <$> l) →
  (∀ q, q ∈ unselected ids l → q ∈ queries ∧ id q ∉ ids)
  ∧ NoDup (id <$> unselected ids l).
Proof.
  intros Hl Hnd. unfold unselected. split.
  - intros q [Hq Hin]%list_elem_of_filter. split; [by apply Hl|done].
  - apply (sublist_NoDup _ (id <$> l)); [exact Hnd|].
    apply (fmap_sublist id), sublist_filter.
Qed.

Lemma category_step_ok (spc : Z) (st : selection rng) (group : string * list query) :
  selection_ok st →
  group.2 `sublist_of` queries →
  selection_ok (category_step rng sample spc st group)
  ∧ (length (category_step rng sample spc st group).1.1
     ≤ length st.1.1 + Z.to_nat spc)%nat.
Proof.
  intros Hst Hsub. unfold category_step.
  destruct (unselected_ok st.1.2 group.2) as [Hpool Hnd].
  { intros q Hq. by eapply elem_of_sublist. }
  { apply (sublist_NoDup _ (id <$> queries)); [exact ids_distinct|].
    by apply (fmap_sublist id). }
  destruct (draw_ok (unselected st.1.2 group.2)
              (Z.to_nat (Z.min spc (Z.of_nat (length (unselected st.1.2 group.2))))) st)
    as [Hok Hlen]; try done.
  { lia. }
  split; [exact Hok|]. rewrite Hlen. lia.
Qed.

Lemma category_loop_ok (spc : Z) (gs : groups) (st : selection rng) :
  selection_ok st →
  (∀ group, group ∈ gs → group.2 `sublist_of` queries) →
  selection_ok (foldl (category_step rng sample spc) st gs)
  ∧ (length (foldl (category_step rng sample spc) st gs).1.1
     ≤ length st.1.1 + length gs * Z.to_nat spc)%nat.
Proof.
  revert st. induction gs as [|group gs IH]; intros st Hst Hgs.
  { cbn [foldl]. split; [done|simpl; lia]. }
  cbn [foldl].
  destruct (category_step_ok spc st group) as [Hok Hlen]; [done|..].
  { apply Hgs. apply elem_of_cons. by left. }
  destruct (IH _ Hok) as [Hok' Hlen'].
  { intros group' Hin. apply Hgs. apply elem_of_cons. by right. }
  split; [exact Hok'|]. cbn [length]. lia.
Qed.

(** The queries not selected yet are the rest of the input. *)
Lemma unselected_count (st : selection rng) :
  selection_ok st →
  (length (unselected st.1.2 queries) + length st.1.1 = length queries)%nat.
Proof.
  intros (Hnd & Hsub & Hids).
  pose proof (NoDup_fmap_1 _ _ ids_distinct) as Hq.
  rewrite <- (Permutation_length
                (filter_app_complement (λ q, id q ∉ st.1.2) queries)).
  rewrite length_app. unfold unselected. f_equal.
  apply Permutation_length, NoDup_Permutation.
  - by apply NoDup_fmap_1 in Hnd.
  - by apply NoDup_filter.
  - intros q. rewrite list_elem_of_filter. split.
    + intros Hin. split; [|by apply Hsub].
      intros Hnot. apply Hnot, Hids. by apply list_elem_of_fmap_2.
    + intros [Hnn Hin].
      assert (id q ∈ st.1.2) as Hid by (by apply dec_stable).
      apply Hids in Hid as [q' [Heq Hq']]%list_elem_of_fmap.
      by rewrite (NoDup_fmap_eq id queries q q' ids_distinct Hin (Hsub _ Hq') Heq).
Qed.

Lemma group_get_sublist (key : query → string) (k : string) :
  group_get (group_by key queries) k `sublist_of` queries.
Proof. rewrite group_get_group_by. apply sublist_filter. Qed.

Lemma priority_groups_ok (ids : gset Z) :
  let priority :=
    priority_groups (group_by quality_of queries) (group_by intent_of queries) ids in
  (∀ q, q ∈ priority → q ∈ queries ∧ id q ∉ ids) ∧ NoDup (id <$> priority).
Proof.
  unfold priority_groups.
  destruct (unique_by_id_spec
    (unselected ids (group_get (group_by quality_of queries) "Poorly-formed"
                     ++ group_get (group_by quality_of queries) "Ambiguous")
     ++ unselected ids (group_get (group_by intent_of queries) "Low"
                        ++ group_get (group_by intent_of queries) "Very Low")))
    as [Hnd Hel].
  split; [|exact Hnd].
  intros q Hq. apply Hel in Hq.
  unfold unselected in Hq.
  rewrite elem_of_app, !list_elem_of_filter, !elem_of_app in Hq.
  destruct Hq as [[Hid [Hq|Hq]]|[Hid [Hq|Hq]]]; (split; [|done]);
    (eapply elem_of_sublist; [exact Hq|apply group_get_sublist]).
Qed.

Lemma selection_ok_start (g : rng) : selection_ok ([], ∅, g).
Proof.
  split; [constructor|]. split.
  - by intros q ?%not_elem_of_nil.
  - intros z. cbn [fst snd fmap list_fmap]. split.
    + by intros ?%not_elem_of_empty.
    + by intros ?%not_elem_of_nil.
Qed.

(** The selection the three phases produce: it is well formed, it has at
    most [max sample_size #categories] queries, and at least
    [min sample_size #queries]. *)
Lemma select_unsorted_ok (sample_size : Z) (g : rng) :
  queries ≠ [] →
  ∃ st, select_unsorted rng sample queries sample_size g = Some st
        ∧ selection_ok st
        ∧ Z.of_nat (length st.1.1)
          ≤ Z.max sample_size (Z.of_nat (length (group_by category_of queries)))
        ∧ Z.min sample_size (Z.of_nat (length queries)) ≤ Z.of_nat (length st.1.1).
Proof.
  intros Hne. unfold select_unsorted.
  pose proof (group_by_nonempty category_of queries Hne) as Hcat.
  rewrite decide_False by done.
  set (ncat := length (group_by category_of queries)) in *.
  set (spc := Z.max 1 (sample_size `div` Z.of_nat ncat)).
  destruct (category_loop_ok spc (group_by category_of queries) ([], ∅, g))
    as [Hok1 Hlen1].
  { apply selection_ok_start. }
  { intros [k qs] Hin. cbn [snd].
    rewrite (group_by_elem_of _ _ _ _ Hin). apply sublist_filter. }
  set (st1 := foldl (category_step rng sample spc) ([], ∅, g)
                (group_by category_of queries)) in *.
  assert (Z.of_nat (length st1.1.1) ≤ Z.max sample_size (Z.of_nat ncat)) as Hmax1.
  { pose proof (samples_per_category_bound sample_size (Z.of_nat ncat)) as Hb.
    fold spc in Hb. cbn [fst length] in Hlen1. fold ncat in Hlen1.
    assert (1 ≤ spc) by (unfold spc; lia). nia. }
  set (remaining := sample_size - Z.of_nat (length st1.1.1)).
  match goal with
  | |- context [let '(st2, remaining2) := ?e in _] =>
      assert (selection_ok e.1
              ∧ e.2 = sample_size - Z.of_nat (length e.1.1.1)
              ∧ Z.of_nat (length e.1.1.1) ≤ Z.max sample_size (Z.of_nat ncat)) as H2;
      [|destruct e as [st2 remaining2]]
  end.
  { case_bool_decide as Hrem; [|done].
    destruct (priority_groups_ok st1.1.2) as [Hp Hpnd].
    destruct (priority_groups _ _ _) as [|p priority]; [done|].
    cbn [fst snd].
    destruct (draw_ok (p :: priority)
                (Z.to_nat (Z.min remaining (Z.of_nat (length (p :: priority))))) st1)
      as [Hok Hlen]; try done.
    { lia. }
    split; [exact Hok|]. rewrite Hlen. unfold remaining in *. lia. }
  cbn [fst snd] in H2. destruct H2 as (Hok2 & -> & Hmax2).
  pose proof (unselected_count st2 Hok2) as Hcount.
  case_bool_decide as Hrem3.
  - destruct (unselected_ok st2.1.2 queries) as [Hp Hpnd]; [done..|].
    destruct (unselected st2.1.2 queries) as [|a available] eqn:Hav.
    + eexists. split; [reflexivity|]. cbn [length] in Hcount.
      split; [done|]. split; lia.
    + destruct (draw_ok (a :: available)
                  (Z.to_nat (Z.min (sample_size - Z.of_nat (length st2.1.1))
                                   (Z.of_nat (length (a :: available))))) st2)
        as [Hok Hlen]; try done.
      { lia. }
      eexists. split; [reflexivity|].
      split; [exact Hok|]. rewrite Hlen. split; lia.
  - eexists. split; [reflexivity|]. split; [done|]. split; lia.
Qed.

(** C4, as amended.  For a non-empty list of queries with pairwise
    distinct ids, [select_stratified_sample] returns a list in which no
    id occurs twice and whose length is at most the larger of
    [sample_size] and the number of distinct categories: one query per
    category is drawn even when there are more categories than
    [sample_size]. *)
Theorem select_size_and_distinct (sample_size : Z) (g : rng) :
  queries ≠ [] →
  ∃ r, select_stratified_sample rng sample queries sample_size g = Some r
       ∧ Z.of_nat (length r)
         ≤ Z.max sample_size (Z.of_nat (length (group_by category_of queries)))
       ∧ NoDup (id <$> r).
Proof.
  intros Hne.
  destruct (select_unsorted_ok sample_size g Hne) as (st & Hst & Hok & Hmax & _).
  unfold select_stratified_sample. rewrite Hst. cbn [mbind option_bind].
  eexists. split; [reflexivity|].
  rewrite (sort_by_id_perm st.1.1). split; [exact Hmax|].
  apply Hok.
Qed.

(** C9, as amended.  For a non-empty list of queries with pairwise
    distinct ids and a [sample_size] of at least their number, the result
    is the whole input in ascending order of id. *)
Theorem select_all_when_small (sample_size : Z) (g : rng) :
  queries ≠ [] →
  Z.of_nat (length queries) ≤ sample_size →
  ∃ r, select_stratified_sample rng sample queries sample_size g = Some r
       ∧ r ≡ₚ queries
       ∧ StronglySorted id_le r.
Proof.
  intros Hne Hsize.
  destruct (select_unsorted_ok sample_size g Hne)
    as (st & Hst & (Hnd & Hsub & _) & _ & Hmin).
  unfold select_stratified_sample. rewrite Hst. cbn [mbind option_bind].
  eexists. split; [reflexivity|]. split; [|apply sort_by_id_sorted].
  rewrite sort_by_id_perm.
  apply submseteq_length_Permutation; [|lia].
  apply NoDup_submseteq; [|exact Hsub]. by apply NoDup_fmap_1 in Hnd.
Qed.

End WithSampler.

(** ** Concrete selections *)

Definition mk_query (i : Z) (c ql it : string) : query :=
  Query i (Some "q") (Some c) (Some ql) (Some it) None None.

Definition four_queries : list query :=
  [ mk_query 3 "Factual" "Well-formed" "High";
    mk_query 1 "Opinion" "Ambiguous" "Low";
    mk_query 2 "Factual" "Poorly-formed" "High";
    mk_query 0 "How-to" "Well-formed" "Very Low" ].

Definition two_categories : list query :=
  [ mk_query 0 "Factual" "Well-formed" "High";
    mk_query 1 "Opinion" "Well-formed" "High" ].

Lemma four_queries_distinct : NoDup (id <$> four_queries).
Proof. apply (bool_decide_unpack _). by vm_compute. Qed.

(** C4, as stated, fails: with two categories and a sample size of 1 the
    sampler returns two queries. *)
Lemma select_exceeds_sample_size :
  select_stratified_sample nat pick two_categories 1 0%nat = Some two_categories
  ∧ (1 < length two_categories)%nat.
Proof. split; [by vm_compute|simpl; lia]. Qed.

(** The amended C4 on four queries in three categories, with the counter
    sampler. *)
Lemma select_size_and_distinct_witness :
  NoDup (id <$> four_queries)
  ∧ four_queries ≠ []
  ∧ ∃ r, select_stratified_sample nat pick four_queries 2 5%nat = Some r
         ∧ Z.of_nat (length r)
           ≤ Z.max 2 (Z.of_nat (length (group_by category_of four_queries)))
         ∧ NoDup (id <$> r).
Proof.
  split; [exact four_queries_distinct|]. split; [discriminate|].
  exact (select_size_and_distinct pick pick_spec four_queries four_queries_distinct
           2 5%nat ltac:(discriminate)).
Defined.

(** C9, as stated, fails on the empty list: the division by the number of
    categories raises. *)
Lemma select_empty_raises :
  select_stratified_sample nat pick [] 20 0%nat = None.
Proof. reflexivity. Qed.

(** With a repeated id, which the dataset excludes, a query is lost. *)
Example select_repeated_id :
  select_stratified_sample nat pick
    [mk_query 0 "Factual" "Well-formed" "High"; mk_query 0 "Opinion" "Well-formed" "High"]
    20 0%nat
  = Some [mk_query 0 "Factual" "Well-formed" "High"].
Proof. by vm_compute. Qed.

(** The amended C9 on four queries and a sample size of 20. *)
Lemma select_all_when_small_witness :
  NoDup (id <$> four_queries)
  ∧ four_queries ≠ []
  ∧ Z.of_nat (length four_queries) ≤ 20
  ∧ ∃ r, select_stratified_sample nat pick four_queries 20 5%nat = Some r
         ∧ r ≡ₚ four_queries
         ∧ StronglySorted id_le r.
Proof.
  split; [exact four_queries_distinct|]. split; [discriminate|].
  split; [simpl; lia|].
  exact (select_all_when_small pick pick_spec four_queries four_queries_distinct
           20 5%nat ltac:(discriminate) ltac:(simpl; lia)).
Defined.

Example select_all_four :
  select_stratified_sample nat pick four_queries 20 5%nat
  = Some [ mk_query 0 "How-to" "Well-formed" "Very Low";
           mk_query 1 "Opinion" "Ambiguous" "Low";
           mk_query 2 "Factual" "Poorly-formed" "High";
           mk_query 3 "Factual" "Well-formed" "High" ].
Proof. by vm_compute. Qed.

End SamplingProofs.

(* ===================================================================== *)
(** * More facts about sampling.py *)
(* ===================================================================== *)

Module DistributionProofs.
Import DataManager Sampling SamplingProofs.
Local Open Scope list_scope.

(** ** Counting by key *)

Lemma count_add_keys (k : string) (d : counts) :
  (count_add k d).*1 = if decide (k ∈ d.*1) then d.*1 else d.*1 ++ [k].
Proof.
  induction d as [|[k' n] d IH]; cbn [count_add fmap list_fmap fst].
  { rewrite decide_False; [done|]. apply not_elem_of_nil. }
  destruct (decide (k' = k)) as [->|Hne]; cbn [count_add fmap list_fmap fst].
  - rewrite decide_True; [done|]. apply elem_of_cons. by left.
  - rewrite IH. destruct (decide (k ∈ d.*1)) as [Hin|Hnin].
    + rewrite decide_True; [done|]. apply elem_of_cons. by right.
    + rewrite decide_False; [done|].
      intros [?|?]%elem_of_cons; congruence.
Qed.

Lemma count_add_sum (k : string) (d : counts) :
  sum_list (count_add k d).*2 = S (sum_list d.*2).
Proof.
  induction d as [|[k' n] d IH]; cbn [count_add]; [done|].
  destruct (decide (k' = k)); cbn [fmap list_fmap snd sum_list]; [done|].
  fold (fmap (M:=list) (@snd string nat)). rewrite IH. lia.
Qed.

(** [d.get(k, 0)]. *)
Fixpoint count_get (d : counts) (k : string) : nat :=
  match d with
  | [] => 0%nat
  | (k', n) :: rest => if decide (k' = k) then n else count_get rest k
  end.

Lemma count_get_add (k k' : string) (d : counts) :
  count_get (count_add k d) k'
  = if decide (k = k') then S (count_get d k') else count_get d k'.
Proof.
  induction d as [|[k0 n] d IH]; cbn [count_add count_get].
  { destruct (decide (k = k')); reflexivity. }
  destruct (decide (k0 = k)) as [->|Hne]; cbn [count_add count_get].
  - destruct (decide (k = k')); reflexivity.
  - destruct (decide (k0 = k')) as [->|Hne'].
    + rewrite decide_False; [reflexivity|]. congruence.
    + exact IH.
Qed.

Lemma count_get_elem_of (d : counts) (k : string) (n : nat) :
  NoDup d.*1 → (k, n) ∈ d → count_get d k = n.
Proof.
  induction d as [|[k0 n0] d IH]; cbn [count_get fmap list_fmap fst]; intros Hnd Hin.
  { by apply not_elem_of_nil in Hin. }
  apply NoDup_cons in Hnd as [Hk0 Hnd].
  apply elem_of_cons in Hin as [[= -> ->]|Hin].
  - by rewrite decide_True.
  - rewrite decide_False; [by apply IH|].
    intros ->. apply Hk0. apply list_elem_of_fmap. by exists (k, n).
Qed.

Lemma count_by_snoc (key : query → string) (l : list query) (q : query) :
  count_by key (l ++ [q]) = count_add (key q) (count_by key l).
Proof. unfold count_by. by rewrite foldl_snoc. Qed.

Lemma count_by_spec (key : query → string) (l : list query) :
  NoDup (count_by key l).*1
  ∧ (∀ k, k ∈ (count_by key l).*1 ↔ ∃ q, q ∈ l ∧ key q = k)
  ∧ (∀ k, count_get (count_by key l) k = length (filter (λ q, key q = k) l))
  ∧ sum_list (count_by key l).*2 = length l.
Proof.
  induction l as [|q l (IHnd & IHin & IHget & IHsum)] using rev_ind.
  { split; [constructor|]. split; [|done]. intros k. split.
    - by intros ?%not_elem_of_nil.
    - by intros (q & ?%not_elem_of_nil & _). }
  rewrite count_by_snoc. split; [|split; [|split]].
  - rewrite count_add_keys. case_decide as Hin; [done|].
    apply NoDup_app. split; [done|]. split; [|apply NoDup_singleton].
    intros k Hk Hk'%list_elem_of_singleton. subst k. by apply Hin.
  - intros k. rewrite count_add_keys. split.
    + intros Hk.
      assert (k ∈ (count_by key l).*1 ∨ k = key q) as [Hold| ->].
      { case_decide; [by left|].
        apply elem_of_app in Hk as [?|?%list_elem_of_singleton]; auto. }
      * apply IHin in Hold as (q' & Hq' & Hkq). exists q'. split; [|done].
        apply elem_of_app. by left.
      * exists q. split; [|done]. apply elem_of_app. right.
        by apply list_elem_of_singleton.
    + intros (q' & [Hq'|Hq']%elem_of_app & Hkq).
      * assert (k ∈ (count_by key l).*1) by (apply IHin; by exists q').
        case_decide; [done|]. apply elem_of_app. by left.
      * apply list_elem_of_singleton in Hq'. subst q' k.
        case_decide; [done|]. apply elem_of_app. right.
        by apply list_elem_of_singleton.
  - intros k. rewrite count_get_add, filter_app, length_app, IHget.
    destruct (decide (key q = k)) as [Hk|Hk].
    + rewrite filter_cons_True by done. cbn. lia.
    + rewrite filter_cons_False by done. cbn. lia.
  - rewrite count_add_sum, IHsum, length_app. cbn. lia.
Qed.

(** The distribution of a sample: nothing for the empty sample;
    otherwise [total] is the size of the sample, and each of the three
    breakdowns lists every value that occurs exactly once, with the number
    of queries that have it, so that its counts add up to [total]. *)
Theorem sample_distribution_counts (sample : list query) :
  get_sample_distribution [] = None
  ∧ (sample ≠ [] →
     ∃ dist, get_sample_distribution sample = Some dist
       ∧ total dist = length sample
       ∧ ∀ key cs,
           (key, cs) ∈ [(category_of, by_category dist); (quality_of, by_quality dist);
                        (intent_of, by_intent_clarity dist)] →
           NoDup cs.*1
           ∧ sum_list cs.*2 = total dist
           ∧ (∀ k n, (k, n) ∈ cs ↔
                     n = length (filter (λ q, key q = k) sample) ∧ (0 < n)%nat)).
Proof.
  split; [done|]. intros Hne. destruct sample as [|q0 sample]; [done|].
  eexists. split; [reflexivity|]. split; [done|].
  cbn [total by_category by_quality by_intent_clarity].
  set (l := q0 :: sample).
  assert (∀ key, NoDup (count_by key l).*1
    ∧ sum_list (count_by key l).*2 = length l
    ∧ (∀ k n, (k, n) ∈ count_by key l ↔
              n = length (filter (λ q, key q = k) l) ∧ (0 < n)%nat)) as Hkey.
  { intros key. destruct (count_by_spec key l) as (Hnd & Hin & Hget & Hsum).
    split; [done|]. split; [done|]. intros k n. split.
    - intros Hkn. rewrite <- Hget, (count_get_elem_of _ _ _ Hnd Hkn). split; [done|].
      assert (k ∈ (count_by key l).*1) as Hk.
      { apply list_elem_of_fmap. by exists (k, n). }
      apply Hin in Hk as (q & Hq & Hkq).
      rewrite <- (count_get_elem_of _ _ _ Hnd Hkn), Hget.
      assert (q ∈ filter (λ q, key q = k) l) as Hf by (by apply list_elem_of_filter).
      destruct (filter _ l); [by apply not_elem_of_nil in Hf|cbn; lia].
    - intros [-> Hpos].
      assert (k ∈ (count_by key l).*1) as Hk.
      { apply Hin. destruct (filter (λ q, key q = k) l) as [|q f] eqn:Hf; [cbn in Hpos; lia|].
        assert (q ∈ filter (λ q, key q = k) l) as Hq by (rewrite Hf; apply elem_of_cons; by left).
        apply list_elem_of_filter in Hq as [? ?]. by exists q. }
      apply list_elem_of_fmap in Hk as ([k' n] & -> & Hkn). cbn [fst].
      by rewrite <- Hget, (count_get_elem_of _ _ _ Hnd Hkn). }
  intros key cs Hin.
  repeat (apply elem_of_cons in Hin as [[= -> ->]|Hin]; [apply Hkey|]).
  by apply not_elem_of_nil in Hin.
Qed.

(** ** What the selection guarantees *)

Section Selected.

Context {rng : Type} (sample : rng → list query → nat → list query * rng).

(** [random.sample(population, k)] with [k] at most the size of the
    population returns [k] elements drawn from distinct positions. *)
Hypothesis sample_spec : ∀ g pool n,
  (n ≤ length pool)%nat →
  (sample g pool n).1 ⊆+ pool ∧ length (sample g pool n).1 = n.

Variable queries : list query.
Hypothesis ids_distinct : NoDup (id <$> queries).

Lemma selection_submseteq (st : selection rng) :
  selection_ok queries st → st.1.1 ⊆+ queries.
Proof.
  intros (Hnd & Hsub & _).
  apply NoDup_submseteq; [|exact Hsub]. by apply NoDup_fmap_1 in Hnd.
Qed.

(** The sample is made of queries of the input, each taken at most once,
    in ascending order of id, and it is never smaller than both
    [sample_size] and the input. *)
Theorem select_sorted_part_of_input (sample_size : Z) (g : rng) :
  queries ≠ [] →
  ∃ r, select_stratified_sample rng sample queries sample_size g = Some r
       ∧ r ⊆+ queries
       ∧ StronglySorted id_le r
       ∧ Z.min sample_size (Z.of_nat (length queries)) ≤ Z.of_nat (length r).
Proof.
  intros Hne.
  destruct (select_unsorted_ok sample sample_spec queries ids_distinct sample_size g Hne)
    as (st & Hst & Hok & _ & Hmin).
  unfold select_stratified_sample. rewrite Hst. cbn [mbind option_bind].
  eexists. split; [reflexivity|]. split; [|split].
  - rewrite sort_by_id_perm. by apply selection_submseteq.
  - apply sort_by_id_sorted.
  - by rewrite sort_by_id_perm.
Qed.

(** When [sample_size] is at least the number of categories, the sample
    has exactly [sample_size] queries, or all of them when the input has
    fewer. *)
Theorem select_exact_size (sample_size : Z) (g : rng) :
  queries ≠ [] →
  Z.of_nat (length (group_by category_of queries)) ≤ sample_size →
  ∃ r, select_stratified_sample rng sample queries sample_size g = Some r
       ∧ Z.of_nat (length r) = Z.min sample_size (Z.of_nat (length queries)).
Proof.
  intros Hne Hcat.
  destruct (select_unsorted_ok sample sample_spec queries ids_distinct sample_size g Hne)
    as (st & Hst & Hok & Hmax & Hmin).
  unfold select_stratified_sample. rewrite Hst. cbn [mbind option_bind].
  eexists. split; [reflexivity|]. rewrite sort_by_id_perm.
  pose proof (submseteq_length _ _ (selection_submseteq st Hok)). lia.
Qed.

(** *** Every category is represented *)

Lemma draw_extends (pool : list query) (n : nat) (st : selection rng) :
  ∃ sampled, (draw rng sample pool n st).1.1 = st.1.1 ++ sampled
             ∧ sampled = (sample st.2 pool n).1.
Proof.
  destruct st as [[selected ids] g]. unfold draw. cbn [fst snd].
  destruct (sample g pool n) as [sampled g']. by exists sampled.
Qed.

(** After the turn of a category, one of its queries is selected. *)
Lemma category_step_covers (spc : Z) (st : selection rng) (group : string * list query) :
  1 ≤ spc →
  selection_ok queries st →
  group.2 `sublist_of` queries →
  group.2 ≠ [] →
  let st' := category_step rng sample spc st group in
  (∀ q, q ∈ st.1.1 → q ∈ st'.1.1) ∧ ∃ q, q ∈ group.2 ∧ q ∈ st'.1.1.
Proof.
  intros Hspc Hok Hsub Hne. cbn zeta. unfold category_step.
  set (available := unselected st.1.2 group.2).
  set (n := Z.to_nat (Z.min spc (Z.of_nat (length available)))).
  destruct (draw_extends available n st) as (sampled & -> & Hs).
  split; [intros q Hq; apply elem_of_app; by left|].
  destruct available as [|a available'] eqn:Hav.
  - (* every query of the category has been selected before *)
    assert (∃ q, q ∈ group.2) as [q Hq].
    { destruct group.2 as [|q qs]; [done|]. exists q. apply elem_of_cons. by left. }
    exists q. split; [done|]. apply elem_of_app. left.
    assert (id q ∈ st.1.2) as Hid.
    { apply dec_stable. intros Hnot.
      assert (q ∈ unselected st.1.2 group.2) as Hin.
      { unfold unselected. by apply list_elem_of_filter. }
      fold available in Hin. rewrite Hav in Hin.
      by apply not_elem_of_nil in Hin. }
    destruct Hok as (_ & Hin & Hids).
    apply Hids in Hid as [q' [Heq Hq']]%list_elem_of_fmap.
    assert (q ∈ queries) by (by eapply elem_of_sublist).
    by rewrite (NoDup_fmap_eq id queries q q' ids_distinct ltac:(done) (Hin _ Hq') Heq).
  - destruct (sample_spec st.2 (a :: available') n) as [Hsubm Hlen].
    { unfold n. cbn [length]. lia. }
    rewrite <- Hs in Hsubm, Hlen.
    destruct sampled as [|q sampled].
    { unfold n in Hlen. cbn [length] in Hlen. lia. }
    exists q.
    assert (q ∈ a :: available') as Hq.
    { eapply elem_of_submseteq; [|exact Hsubm]. apply elem_of_cons. by left. }
    split.
    + assert (q ∈ unselected st.1.2 group.2) as Hq'.
      { fold available. by rewrite Hav. }
      unfold unselected in Hq'. by apply list_elem_of_filter in Hq' as [_ ?].
    + apply elem_of_app. right. apply elem_of_cons. by left.
Qed.

Lemma category_loop_covers (spc : Z) (gs : groups) (st : selection rng) :
  1 ≤ spc →
  selection_ok queries st →
  (∀ group, group ∈ gs → group.2 `sublist_of` queries ∧ group.2 ≠ []) →
  let st' := foldl (category_step rng sample spc) st gs in
  (∀ q, q ∈ st.1.1 → q ∈ st'.1.1)
  ∧ ∀ group, group ∈ gs → ∃ q, q ∈ group.2 ∧ q ∈ st'.1.1.
Proof.
  intros Hspc. revert st. induction gs as [|group gs IH]; intros st Hok Hgs; cbn zeta.
  { split; [done|]. by intros group ?%not_elem_of_nil. }
  cbn [foldl].
  destruct (Hgs group) as [Hsub Hne]; [apply elem_of_cons; by left|].
  destruct (category_step_covers spc st group Hspc Hok Hsub Hne) as [Hkeep Hcov].
  destruct (category_step_ok sample sample_spec queries ids_distinct spc st group Hok Hsub)
    as [Hok' _].
  destruct (IH _ Hok') as [Hkeep' Hcov'].
  { intros group' Hin. apply Hgs. apply elem_of_cons. by right. }
  split; [intros q Hq; by apply Hkeep', Hkeep|].
  intros group' [->|Hin]%elem_of_cons; [|by apply Hcov'].
  destruct Hcov as (q & Hq & Hsel). exists q. split; [done|]. by apply Hkeep'.
Qed.

(** The later phases only add to what the loop over the categories
    selected. *)
Lemma select_unsorted_extends (sample_size : Z) (g : rng) (st : selection rng) :
  select_unsorted rng sample queries sample_size g = Some st →
  ∀ q,
    q ∈ (foldl (category_step rng sample
                  (Z.max 1 (sample_size `div` Z.of_nat (length (group_by category_of queries)))))
           ([], ∅, g) (group_by category_of queries)).1.1 →
    q ∈ st.1.1.
Proof.
  unfold select_unsorted. case_decide; [done|].
  set (st1 := foldl _ _ _).
  set (remaining := sample_size - Z.of_nat (length st1.1.1)).
  match goal with
  | |- context [let '(st2, remaining2) := ?e in _] =>
      assert (∀ q, q ∈ st1.1.1 → q ∈ e.1.1.1) as H2; [|destruct e as [st2 remaining2]]
  end.
  { case_bool_decide; [|done].
    destruct (priority_groups _ _ _) as [|p priority]; [done|]. cbn [fst].
    intros q Hq. destruct (draw_extends (p :: priority)
      (Z.to_nat (Z.min remaining (Z.of_nat (length (p :: priority))))) st1)
      as (sampled & -> & _).
    apply elem_of_app. by left. }
  cbn [fst] in H2. intros [= <-] q Hq%H2.
  case_bool_decide; [|done].
  destruct (unselected st2.1.2 queries) as [|a available]; [done|].
  destruct (draw_extends (a :: available)
    (Z.to_nat (Z.min remaining2 (Z.of_nat (length (a :: available))))) st2)
    as (sampled & -> & _).
  apply elem_of_app. by left.
Qed.

(** Whatever [sample_size] is, every category of the input has a query in
    the sample. *)
Theorem select_covers_categories (sample_size : Z) (g : rng) :
  queries ≠ [] →
  ∃ r, select_stratified_sample rng sample queries sample_size g = Some r
       ∧ ∀ q, q ∈ queries → ∃ q', q' ∈ r ∧ category_of q' = category_of q.
Proof.
  intros Hne.
  destruct (select_unsorted_ok sample sample_spec queries ids_distinct sample_size g Hne)
    as (st & Hst & _).
  unfold select_stratified_sample. rewrite Hst. cbn [mbind option_bind].
  eexists. split; [reflexivity|]. intros q Hq.
  set (spc := Z.max 1 (sample_size `div` Z.of_nat (length (group_by category_of queries)))).
  destruct (category_loop_covers spc (group_by category_of queries) ([], ∅, g))
    as [_ Hcov].
  { unfold spc. lia. }
  { apply selection_ok_start. }
  { intros [k qs] Hin. cbn [snd].
    rewrite (group_by_elem_of _ _ _ _ Hin). split; [apply sublist_filter|].
    destruct (group_by_keys category_of queries) as [_ Hkeys].
    assert (k ∈ (group_by category_of queries).*1) as Hk.
    { apply list_elem_of_fmap. by exists (k, qs). }
    apply Hkeys in Hk as (q0 & Hq0 & Hk0).
    intros Hnil.
    assert (q0 ∈ filter (λ q, category_of q = k) queries) as Hf
      by (by apply list_elem_of_filter).
    rewrite Hnil in Hf. by apply not_elem_of_nil in Hf. }
  destruct (group_by_keys category_of queries) as [_ Hkeys].
  assert (category_of q ∈ (group_by category_of queries).*1) as Hk.
  { apply Hkeys. by exists q. }
  apply list_elem_of_fmap in Hk as ([k qs] & Hkq & Hin). cbn [fst] in Hkq. subst k.
  destruct (Hcov _ Hin) as (q' & Hq' & Hsel). cbn [snd] in Hq'.
  rewrite (group_by_elem_of _ _ _ _ Hin) in Hq'.
  apply list_elem_of_filter in Hq' as [Hcat _].
  exists q'. split; [|done]. rewrite sort_by_id_perm.
  by apply (select_unsorted_extends sample_size g st Hst).
Qed.

End Selected.

(** The three guarantees on four queries in three categories, with the
    counter sampler. *)
Lemma select_sorted_part_of_input_witness :
  NoDup (id <$> four_queries)
  ∧ four_queries ≠ []
  ∧ ∃ r, select_stratified_sample nat pick four_queries 2 5%nat = Some r
         ∧ r ⊆+ four_queries
         ∧ StronglySorted id_le r
         ∧ Z.min 2 (Z.of_nat (length four_queries)) ≤ Z.of_nat (length r).
Proof.
  split; [exact four_queries_distinct|]. split; [discriminate|].
  exact (select_sorted_part_of_input pick pick_spec four_queries four_queries_distinct
           2 5%nat ltac:(discriminate)).
Defined.

Lemma select_exact_size_witness :
  NoDup (id <$> four_queries)
  ∧ four_queries ≠ []
  ∧ Z.of_nat (length (group_by category_of four_queries)) ≤ 3
  ∧ ∃ r, select_stratified_sample nat pick four_queries 3 5%nat = Some r
         ∧ Z.of_nat (length r) = Z.min 3 (Z.of_nat (length four_queries)).
Proof.
  split; [exact four_queries_distinct|]. split; [discriminate|].
  split; [by vm_compute|].
  exact (select_exact_size pick pick_spec four_queries four_queries_distinct
           3 5%nat ltac:(discriminate) ltac:(by vm_compute)).
Defined.

Lemma select_covers_categories_witness :
  NoDup (id <$> four_queries)
  ∧ four_queries ≠ []
  ∧ ∃ r, select_stratified_sample nat pick four_queries 1 5%nat = Some r
         ∧ ∀ q, q ∈ four_queries → ∃ q', q' ∈ r ∧ category_of q' = category_of q.
Proof.
  split; [exact four_queries_distinct|]. split; [discriminate|].
  exact (select_covers_categories pick pick_spec four_queries four_queries_distinct
           1 5%nat ltac:(discriminate)).
Defined.

Example distribution_of_four :
  ∃ dist, get_sample_distribution four_queries = Some dist
    ∧ total dist = 4%nat
    ∧ by_category dist = [("Factual", 2%nat); ("Opinion", 1%nat); ("How-to", 1%nat)].
Proof. eexists. by vm_compute. Qed.

End DistributionProofs.

(* ===================================================================== *)
(** * Facts about chatgpt_client.py *)
(* ===================================================================== *)

Module ChatGPTClientProofs.
Import DataManager ChatGPTClient.
Local Open Scope list_scope.

(** The sleeps of a trace, in order. *)
Definition sleeps (t : list event) : list Q :=
  omap (λ e, match e with EvSleep s => Some s | _ => None end) t.

(** ** The retry loop *)

Lemma query_chatgpt_trace (service : api) (query_text : string) (w : world) :
  trace (query_chatgpt service query_text w).2 = trace w ++ [EvRequest query_text]
  ∧ requests (query_chatgpt service query_text w).2 = S (requests w).
Proof. unfold query_chatgpt. by destruct (service _ _). Qed.

(** With [query_chatgpt] as the call, the loop only sends requests: a
    failed request comes back as [None], never as an exception, so the
    branch that sleeps is not taken.  It stops at the first answer, and
    uses up its iterations when there is none. *)
Lemma retry_loop_requests (service : api) (query_text : string) (delay : Q)
    (max_attempts : Z) (left attempt : nat) (w : world) :
  let run := retry_loop (λ w0, let '(r, w1) := query_chatgpt service query_text w0 in
                               (Returned r, w1))
                        delay max_attempts attempt left w in
  ∃ k, (k ≤ left)%nat
       ∧ trace run.2 = trace w ++ replicate k (EvRequest query_text)
       ∧ requests run.2 = (requests w + k)%nat
       ∧ (run.1 = None → k = left).
Proof.
  revert attempt w. induction left as [|left IH]; intros attempt w; cbn [retry_loop].
  { exists 0%nat. cbn. rewrite app_nil_r. repeat split; lia. }
  destruct (query_chatgpt_trace service query_text w) as [Htr Hreq].
  destruct (query_chatgpt service query_text w) as [[r|] w1]; cbn [fst snd] in *.
  - exists 1%nat. cbn. repeat split; [lia|done|lia|done].
  - destruct (IH (S attempt) w1) as (k & Hk & Htr' & Hreq' & Hnone).
    exists (S k). split; [lia|]. split; [|split].
    + rewrite Htr', Htr, <- app_assoc. reflexivity.
    + lia.
    + intros H. by rewrite (Hnone H).
Qed.

Lemma query_with_retry_requests (service : api) (cfg : config) (query_text : string)
    (max_attempts : option Z) (w : world) :
  ∃ k, trace (query_with_retry service cfg query_text max_attempts w).2
       = trace w ++ replicate k (EvRequest query_text).
Proof.
  unfold query_with_retry, retry_with.
  destruct (retry_loop_requests service query_text
              (default (2 # 1)%Q (retry_delay cfg))
              (default (default 3 (retry_attempts cfg)) max_attempts)
              (Z.to_nat (default (default 3 (retry_attempts cfg)) max_attempts))
              0 w) as (k & _ & Htr & _).
  by exists k.
Qed.

Lemma sleeps_app (t1 t2 : list event) : sleeps (t1 ++ t2) = sleeps t1 ++ sleeps t2.
Proof. unfold sleeps. apply omap_app. Qed.

Lemma sleeps_requests (k : nat) (query_text : string) :
  sleeps (replicate k (EvRequest query_text)) = [].
Proof. induction k as [|k IH]; [done|exact IH]. Qed.

(** Whatever the service does, [query_with_retry] never sleeps. *)
Lemma query_with_retry_never_sleeps (service : api) (cfg : config) (query_text : string)
    (max_attempts : option Z) (w : world) :
  sleeps (trace (query_with_retry service cfg query_text max_attempts w).2)
  = sleeps (trace w).
Proof.
  destruct (query_with_retry_requests service cfg query_text max_attempts w) as [k ->].
  by rewrite sleeps_app, sleeps_requests, app_nil_r.
Qed.

(** A service that fails every request uses up the attempts: with
    [max_attempts = 3] exactly three requests are sent, nothing else
    happens, and the result is [None]. *)
Lemma retry_exhausts_three_attempts (service : api) (cfg : config) (query_text : string)
    (w : world) :
  (∀ n t, ∃ reason, service n t = Fails reason) →
  query_with_retry service cfg query_text (Some 3) w
  = (None, World (requests w + 3) (trace w ++ replicate 3 (EvRequest query_text))).
Proof.
  intros Hdown. unfold query_with_retry, retry_with.
  change (default (default 3 (retry_attempts cfg)) (Some 3)) with 3.
  change (Z.to_nat 3) with 3%nat. cbn [retry_loop]. unfold query_chatgpt.
  destruct (Hdown (requests w) query_text) as [r1 ->]. cbn [requests trace].
  destruct (Hdown (S (requests w)) query_text) as [r2 ->]. cbn [requests trace].
  destruct (Hdown (S (S (requests w))) query_text) as [r3 ->].
  f_equal. f_equal; [lia|]. by rewrite <- !app_assoc.
Qed.

(** A service that fails two requests and answers the third is asked
    three times in a row, and the answer is returned. *)
Lemma retry_succeeds_third_time (service : api) (cfg : config) (query_text : string)
    (w : world) (r1 r2 : string) (c : completion) :
  service (requests w) query_text = Fails r1 →
  service (S (requests w)) query_text = Fails r2 →
  service (S (S (requests w))) query_text = Answers c →
  query_with_retry service cfg query_text (Some 3) w
  = (Some (result_of c),
     World (requests w + 3) (trace w ++ replicate 3 (EvRequest query_text))).
Proof.
  intros H1 H2 H3. unfold query_with_retry, retry_with.
  change (default (default 3 (retry_attempts cfg)) (Some 3)) with 3.
  change (Z.to_nat 3) with 3%nat. cbn [retry_loop]. unfold query_chatgpt.
  rewrite H1. cbn [requests trace]. rewrite H2. cbn [requests trace]. rewrite H3.
  f_equal. f_equal; [lia|]. by rewrite <- !app_assoc.
Qed.

(** ** Concrete services *)

Definition paris_completion : completion :=
  Completion "Paris" "gpt-4-turbo" 42 30 12 "stop" 0 "2025-01-01T10:00:00" 812.5%float.

(** Fails on its first two requests, answers from the third on. *)
Definition flaky : api :=
  λ n _, if (n <? 2)%nat then Fails "timeout" else Answers paris_completion.

(** Never answers. *)
Definition down : api := λ _ _, Fails "timeout".

Definition defaults : config := Config None None None.

Definition idle : world := World 0 [].

Definition ask (i : Z) (t : string) : query :=
  Query i (Some t) (Some "Factual") (Some "Well-formed") (Some "High") None None.

(** The loop with a call that raises, as the [except] branch expects:
    two failures bring two sleeps, of [retry_delay] and twice that. *)
Example backoff_when_the_call_raises :
  let raising : world → attempt_outcome * world :=
    λ w, (if (requests w <? 2)%nat then Raised "timeout"
          else Returned (Some (result_of paris_completion)),
          World (S (requests w)) (trace w ++ [EvRequest "capital?"])) in
  retry_with raising defaults (Some 3) idle
  = (Some (result_of paris_completion),
     World 3 [EvRequest "capital?"; EvSleep (2 # 1)%Q;
              EvRequest "capital?"; EvSleep (4 # 1)%Q;
              EvRequest "capital?"]).
Proof. vm_compute. reflexivity. Qed.

(** C3 at concrete services.  Against a service that fails twice and
    then answers, [query_with_retry] with three attempts returns the
    answer after three requests, and the trace holds no sleep between them:
    the two backoff sleeps the claim asks for do not happen.  Against a
    service that never answers it gives up after exactly three requests,
    and the batch goes on to the next query, recording both as failures. *)
Theorem retry_sends_three_requests_without_backoff :
  query_with_retry flaky defaults "capital?" (Some 3) idle
  = (Some (result_of paris_completion),
     World 3 [EvRequest "capital?"; EvRequest "capital?"; EvRequest "capital?"])
  ∧ sleeps (trace (query_with_retry flaky defaults "capital?" (Some 3) idle).2) = []
  ∧ query_with_retry down defaults "capital?" (Some 3) idle
    = (None, World 3 [EvRequest "capital?"; EvRequest "capital?"; EvRequest "capital?"])
  ∧ (batch_query down defaults false [ask 0 "capital?"; ask 1 "river?"] idle).1
    = [BatchResult 0 false None (Some "Failed after retries");
       BatchResult 1 false None (Some "Failed after retries")]
  ∧ (batch_query flaky defaults false [ask 0 "capital?"; ask 1 "river?"] idle).1
    = [BatchResult 0 true (Some (result_of paris_completion)) None;
       BatchResult 1 true (Some (result_of paris_completion)) None].
Proof. repeat split; by vm_compute. Qed.

(** ** The batch loop *)

(** A query without text is skipped: nothing is sent and nothing slept. *)
Lemma batch_item_skips (service : api) (cfg : config) (callback : bool)
    (total idx : nat) (q : query) (st : list batch_result * world) :
  text q = None ∨ text q = Some "" →
  batch_item service cfg callback total idx q st = st.
Proof. unfold batch_item. by intros [->| ->]. Qed.

(** One turn of the loop.  For a query with text, at position [idx] of
    [total], the events of its turn are its requests, the callback when
    there is one, and then the fixed delay exactly when [idx < total - 1];
    the result of the call, success or failure, plays no part in the
    delay, and is what the entry added to the results records. *)
Lemma batch_item_delay (service : api) (cfg : config) (callback : bool)
    (total idx : nat) (q : query) (query_text : string)
    (results : list batch_result) (w : world) :
  text q = Some query_text →
  query_text ≠ "" →
  ∃ k entry,
    let result := (query_with_retry service cfg query_text None w).1 in
    (batch_item service cfg callback total idx q (results, w)).1 = results ++ [entry]
    ∧ result_success entry = succeeded result
    ∧ trace (batch_item service cfg callback total idx q (results, w)).2
      = trace w
        ++ replicate k (EvRequest query_text)
        ++ (if callback then [EvCallback (S idx) total (id q) result] else [])
        ++ (if bool_decide (Z.of_nat idx < Z.of_nat total - 1)
            then [EvSleep (default 1%Q (rate_limit_delay cfg))] else []).
Proof.
  intros Htext Hne. unfold batch_item. rewrite Htext.
  destruct query_text as [|c query_text]; [done|].
  set (t := String c query_text).
  destruct (query_with_retry_requests service cfg t None w) as [k Hk].
  cbn [fst snd].
  destruct (query_with_retry service cfg t None w) as [result w1].
  cbn [fst snd] in *.
  exists k. eexists. split; [reflexivity|]. split.
  { by destruct (succeeded result). }
  destruct callback; case_bool_decide; cbn [emit trace];
    rewrite Hk, <- ?app_assoc; by rewrite ?app_nil_r.
Qed.

(** How many delays a batch owes: one for each query with text that is not
    at the last position. *)
Fixpoint delays_due (total idx : nat) (queries : list query) : nat :=
  match queries with
  | [] => 0%nat
  | q :: rest =>
      Nat.add
        match text q with
        | None | Some "" => 0%nat
        | Some _ => if bool_decide (Z.of_nat idx < Z.of_nat total - 1) then 1%nat else 0%nat
        end
        (delays_due total (S idx) rest)
  end.

Lemma batch_item_sleeps (service : api) (cfg : config) (callback : bool)
    (total idx : nat) (q : query) (st : list batch_result * world) :
  sleeps (trace (batch_item service cfg callback total idx q st).2)
  = sleeps (trace st.2)
    ++ replicate (delays_due total idx [q]) (default 1%Q (rate_limit_delay cfg)).
Proof.
  unfold batch_item. cbn [delays_due].
  destruct (text q) as [[|c query_text]|]; try (by rewrite app_nil_r).
  pose proof (query_with_retry_never_sleeps service cfg (String c query_text) None st.2)
    as Hquiet.
  destruct (query_with_retry service cfg (String c query_text) None st.2) as [result w1].
  cbn [fst snd] in *.
  destruct callback; case_bool_decide; cbn [emit trace];
    rewrite ?sleeps_app, Hquiet; cbn; by rewrite ?app_nil_r.
Qed.

Lemma batch_loop_sleeps (service : api) (cfg : config) (callback : bool)
    (total idx : nat) (queries : list query) (st : list batch_result * world) :
  sleeps (trace (batch_loop service cfg callback total idx queries st).2)
  = sleeps (trace st.2)
    ++ replicate (delays_due total idx queries) (default 1%Q (rate_limit_delay cfg)).
Proof.
  revert idx st. induction queries as [|q queries IH]; intros idx st;
    cbn [batch_loop].
  { cbn. by rewrite app_nil_r. }
  rewrite IH, batch_item_sleeps, <- app_assoc, <- replicate_add.
  f_equal. f_equal. cbn [delays_due]. lia.
Qed.

(** The sleeps of a whole batch are the delays owed, and nothing else. *)
Lemma batch_query_sleeps (service : api) (cfg : config) (callback : bool)
    (queries : list query) (w : world) :
  sleeps (trace (batch_query service cfg callback queries w).2)
  = sleeps (trace w)
    ++ replicate (delays_due (length queries) 0 queries)
         (default 1%Q (rate_limit_delay cfg)).
Proof. apply batch_loop_sleeps. Qed.

(** C7, as stated, fails: against a service that never answers, the first
    of two queries fails after three requests and the delay follows all
    the same. *)
Lemma delay_follows_a_failed_call :
  batch_query down defaults true [ask 0 "capital?"; ask 1 "river?"] idle
  = ([BatchResult 0 false None (Some "Failed after retries");
      BatchResult 1 false None (Some "Failed after retries")],
     World 6 [EvRequest "capital?"; EvRequest "capital?"; EvRequest "capital?";
              EvCallback 1 2 0 None;
              EvSleep 1%Q;
              EvRequest "river?"; EvRequest "river?"; EvRequest "river?";
              EvCallback 2 2 1 None]).
Proof. by vm_compute. Qed.

End ChatGPTClientProofs.

(* ===================================================================== *)
(** * More facts about chatgpt_client.py *)
(* ===================================================================== *)

Module BatchProofs.
Import DataManager ChatGPTClient ChatGPTClientProofs.
Local Open Scope list_scope.

(** ** What [query_with_retry] returns *)

(** The requests numbered [first], ..., [first + k - 1] all fail. *)
Definition all_fail (service : api) (query_text : string) (first k : nat) : Prop :=
  ∀ j, (j < k)%nat → ∃ reason, service (first + j)%nat query_text = Fails reason.

Lemma all_fail_shift (service : api) (query_text : string) (first k : nat) (reason : string) :
  service first query_text = Fails reason →
  all_fail service query_text (S first) k →
  all_fail service query_text first (S k).
Proof.
  intros H0 Hk [|j] Hj.
  - exists reason. by rewrite Nat.add_0_r.
  - destruct (Hk j) as [r Hr]; [lia|]. exists r.
    by replace (first + S j)%nat with (S first + j)%nat by lia.
Qed.

Lemma retry_loop_first_answer (service : api) (query_text : string) (delay : Q)
    (max_attempts : Z) (left attempt : nat) (w : world) :
  let run := retry_loop (λ w0, let '(r, w1) := query_chatgpt service query_text w0 in
                               (Returned r, w1))
                        delay max_attempts attempt left w in
  ∃ k, run.2 = World (requests w + k) (trace w ++ replicate k (EvRequest query_text))
       ∧ ((run.1 = None ∧ k = left ∧ all_fail service query_text (requests w) left)
          ∨ (∃ c k', k = S k' ∧ (k' < left)%nat
                     ∧ run.1 = Some (result_of c)
                     ∧ service (requests w + k')%nat query_text = Answers c
                     ∧ all_fail service query_text (requests w) k')).
Proof.
  revert attempt w. induction left as [|left IH]; intros attempt [n t]; cbn [retry_loop].
  { exists 0%nat. cbn [fst snd requests trace replicate]. split.
    - by rewrite Nat.add_0_r, app_nil_r.
    - left. split; [done|]. split; [done|]. intros j Hj. lia. }
  assert (query_chatgpt service query_text (World n t)
          = match service n query_text with
            | Answers c => (Some (result_of c), World (S n) (t ++ [EvRequest query_text]))
            | Fails _ => (None, World (S n) (t ++ [EvRequest query_text]))
            end) as Hq by reflexivity.
  rewrite Hq. clear Hq.
  destruct (service n query_text) as [c|reason] eqn:Hs.
  - exists 1%nat. cbn [fst snd requests trace replicate]. split.
    + by rewrite Nat.add_1_r.
    + right. exists c, 0%nat. rewrite Nat.add_0_r.
      split; [done|]. split; [lia|]. split; [done|]. split; [done|].
      intros j Hj. lia.
  - destruct (IH (S attempt) (World (S n) (t ++ [EvRequest query_text])))
      as (k & Hw & Hcase).
    cbn [requests trace] in *. exists (S k). split.
    + rewrite Hw. f_equal; [lia|]. by rewrite <- app_assoc.
    + destruct Hcase as [(Hnone & -> & Hall)|(c & k' & -> & Hlt & Hsome & Hans & Hall)].
      * left. split; [done|]. split; [done|]. by eapply all_fail_shift.
      * right. exists c, (S k'). split; [done|]. split; [lia|]. split; [done|]. split.
        -- by replace (n + S k')%nat with (S n + k')%nat by lia.
        -- by eapply all_fail_shift.
Qed.

(** [query_with_retry] sends the same request up to [max_attempts] times
    in a row, and does nothing else.  It stops at the first request that is
    answered and returns the dictionary built from that answer; it returns
    [None] exactly when all [max_attempts] requests have failed. *)
Theorem query_with_retry_first_answer (service : api) (cfg : config)
    (query_text : string) (max_attempts : option Z) (w : world) :
  let n := Z.to_nat (default (default 3 (retry_attempts cfg)) max_attempts) in
  let run := query_with_retry service cfg query_text max_attempts w in
  ∃ k, run.2 = World (requests w + k) (trace w ++ replicate k (EvRequest query_text))
       ∧ ((run.1 = None ∧ k = n ∧ all_fail service query_text (requests w) n)
          ∨ (∃ c k', k = S k' ∧ (k' < n)%nat
                     ∧ run.1 = Some (result_of c)
                     ∧ service (requests w + k')%nat query_text = Answers c
                     ∧ all_fail service query_text (requests w) k')).
Proof. apply retry_loop_first_answer. Qed.

(** ** What [batch_query] returns *)

(** [if not query_text: continue]. *)
Definition has_text (q : query) : bool :=
  match text q with
  | None | Some "" => false
  | Some _ => true
  end.

(** The two shapes of an entry of the results. *)
Definition entry_shape (e : batch_result) : Prop :=
  (result_success e = true ∧ (∃ r, result_data e = Some r) ∧ result_error e = None)
  ∨ (result_success e = false ∧ result_data e = None
     ∧ result_error e = Some "Failed after retries").

Lemma filter_has_text_one (q : query) :
  filter has_text [q] = if has_text q then [q] else [].
Proof.
  destruct (has_text q) eqn:Hq.
  - rewrite filter_cons_True; [done|]. rewrite Hq. exact I.
  - rewrite filter_cons_False; [done|]. rewrite Hq. exact (λ H, H).
Qed.

Lemma batch_item_results (service : api) (cfg : config) (callback : bool)
    (total idx : nat) (q : query) (st : list batch_result * world) :
  ∃ new, (batch_item service cfg callback total idx q st).1 = st.1 ++ new
         ∧ result_query_id <$> new = id <$> filter has_text [q]
         ∧ Forall entry_shape new.
Proof.
  rewrite filter_has_text_one. unfold batch_item, has_text.
  destruct (text q) as [[|c query_text]|] eqn:Htext.
  - exists []. rewrite app_nil_r. split; [done|]. split; [done|constructor].
  - destruct (query_with_retry service cfg (String c query_text) None st.2)
      as [result w1].
    eexists [_]. cbn [fst]. split; [reflexivity|]. split.
    + cbn. by destruct (succeeded result).
    + constructor; [|constructor]. unfold entry_shape.
      destruct result as [r|]; cbn [succeeded];
        [destruct (truthy (PDict r))|];
        cbn [result_success result_data result_error];
        [left|right|right]; repeat split; by eexists.
  - exists []. rewrite app_nil_r. split; [done|]. split; [done|constructor].
Qed.

Lemma batch_loop_results (service : api) (cfg : config) (callback : bool)
    (total idx : nat) (queries : list query) (st : list batch_result * world) :
  ∃ new, (batch_loop service cfg callback total idx queries st).1 = st.1 ++ new
         ∧ result_query_id <$> new = id <$> filter has_text queries
         ∧ Forall entry_shape new.
Proof.
  revert idx st. induction queries as [|q queries IH]; intros idx st; cbn [batch_loop].
  { exists []. rewrite app_nil_r. repeat split. constructor. }
  destruct (batch_item_results service cfg callback total idx q st)
    as (new1 & H1 & Hid1 & Hsh1).
  destruct (IH (S idx) (batch_item service cfg callback total idx q st))
    as (new2 & H2 & Hid2 & Hsh2).
  exists (new1 ++ new2). split; [|split].
  - by rewrite H2, H1, <- app_assoc.
  - rewrite fmap_app, Hid1, Hid2, <- fmap_app. f_equal.
    by rewrite <- filter_app.
  - by apply Forall_app.
Qed.

(** The list [batch_query] returns has one entry for each query that has a
    text, in the order of the input, and none for the others; an entry is
    either a success carrying the response or a failure carrying the fixed
    error text. *)
Theorem batch_query_results (service : api) (cfg : config) (callback : bool)
    (queries : list query) (w : world) :
  let results := (batch_query service cfg callback queries w).1 in
  result_query_id <$> results = id <$> filter has_text queries
  ∧ Forall entry_shape results.
Proof.
  cbn zeta. unfold batch_query.
  destruct (batch_loop_results service cfg callback (length queries) 0 queries ([], w))
    as (new & -> & Hid & Hsh).
  by rewrite app_nil_l.
Qed.

(** ** When [batch_query] sleeps *)

Lemma delays_due_count (total idx : nat) (queries : list query) :
  (idx + length queries = total)%nat →
  delays_due total idx queries
  = length (filter has_text (take (length queries - 1) queries)).
Proof.
  revert idx. induction queries as [|q queries IH]; intros idx Hlen; [done|].
  cbn [delays_due length] in *.
  destruct queries as [|q' queries].
  - cbn [delays_due length take Nat.sub] in *. rewrite filter_nil.
    rewrite bool_decide_false by lia. by destruct (text q) as [[|??]|].
  - rewrite (IH (S idx)) by (cbn [length] in *; lia).
    replace (S (length (q' :: queries)) - 1)%nat with (S (length (q' :: queries) - 1))
      by (cbn [length]; lia).
    cbn [take]. rewrite bool_decide_true by (cbn [length] in *; lia).
    change (q :: take (length (q' :: queries) - 1) (q' :: queries))
      with ([q] ++ take (length (q' :: queries) - 1) (q' :: queries)).
    rewrite filter_app, length_app, filter_has_text_one. unfold has_text.
    by destruct (text q) as [[|??]|].
Qed.

(** A batch sleeps once, for [rate_limit_delay] seconds (1 second when the
    configuration has none), after each query that has a text and is not
    at the last position of the input, whether its call succeeded or not,
    and at no other time; a query without text at the last position does
    not spare the one before it the delay. *)
Theorem batch_query_delays (service : api) (cfg : config) (callback : bool)
    (queries : list query) (w : world) :
  sleeps (trace (batch_query service cfg callback queries w).2)
  = sleeps (trace w)
    ++ replicate (length (filter has_text (take (length queries - 1) queries)))
         (default 1%Q (rate_limit_delay cfg)).
Proof.
  unfold batch_query. rewrite batch_loop_sleeps. cbn [snd].
  by rewrite delays_due_count.
Qed.

(** ** The turns of a batch *)

(** The events of the turn of the query at position [idx], given the
    number [k] of requests sent and the result of the call. *)
Definition turn_events (cfg : config) (callback : bool) (total idx : nat) (q : query)
    (k : nat) (result : option (gmap string pyval)) : list event :=
  match text q with
  | None | Some "" => []
  | Some query_text =>
      replicate k (EvRequest query_text)
      ++ (if callback then [EvCallback (S idx) total (id q) result] else [])
      ++ (if bool_decide (Z.of_nat idx < Z.of_nat total - 1)
          then [EvSleep (default 1%Q (rate_limit_delay cfg))] else [])
  end.

Lemma batch_item_turn (service : api) (cfg : config) (callback : bool)
    (total idx : nat) (q : query) (st : list batch_result * world) :
  ∃ k, trace (batch_item service cfg callback total idx q st).2
       = trace st.2
         ++ turn_events cfg callback total idx q k
              (query_with_retry service cfg (default "" (text q)) None st.2).1.
Proof.
  unfold batch_item, turn_events.
  destruct (text q) as [[|c query_text]|]; try (exists 0%nat; by rewrite app_nil_r).
  cbn [default]. unfold Datatypes.id.
  destruct (query_with_retry_requests service cfg (String c query_text) None st.2)
    as [k Hk].
  destruct (query_with_retry service cfg (String c query_text) None st.2) as [result w1].
  cbn [fst snd] in *. exists k.
  destruct callback; case_bool_decide; cbn [emit trace];
    rewrite Hk, <- ?app_assoc; by rewrite ?app_nil_r.
Qed.

Lemma batch_loop_turns (service : api) (cfg : config) (callback : bool)
    (total idx : nat) (queries : list query) (st : list batch_result * world) :
  ∃ turns : list (list event),
    trace (batch_loop service cfg callback total idx queries st).2
    = trace st.2 ++ concat turns
    ∧ length turns = length queries
    ∧ ∀ i q, queries !! i = Some q →
        ∃ k w0,
          trace w0 = trace st.2 ++ concat (take i turns)
          ∧ turns !! i
            = Some (turn_events cfg callback total (idx + i) q k
                      (query_with_retry service cfg (default "" (text q)) None w0).1).
Proof.
  revert idx st. induction queries as [|q queries IH]; intros idx st; cbn [batch_loop].
  { exists []. cbn. rewrite app_nil_r. repeat split. intros i q Hq. done. }
  destruct (batch_item_turn service cfg callback total idx q st) as [k0 Hitem].
  destruct (IH (S idx) (batch_item service cfg callback total idx q st))
    as (turns & Htrace & Hlen & Hturns).
  eexists (_ :: turns). split; [|split].
  - rewrite Htrace, Hitem, <- app_assoc. reflexivity.
  - cbn [length]. by rewrite Hlen.
  - intros [|i] q' Hq'; cbn in Hq'.
    + injection Hq' as <-. exists k0, st.2. cbn [take concat lookup].
      rewrite app_nil_r, Nat.add_0_r. done.
    + destruct (Hturns i q' Hq') as (k & w0 & Hw0 & Hturn).
      exists k, w0. split.
      * rewrite Hw0, Hitem, <- app_assoc. reflexivity.
      * replace (idx + S i)%nat with (S idx + i)%nat by lia. exact Hturn.
Qed.

(** C7, as amended.  The trace of a batch is made of one turn for each
    query of the input, in order.  The turn of a query without text is
    empty: no request and no delay.  The turn of a query with text is its
    requests, then the callback when there is one, told the result of the
    call, and then the fixed delay ([rate_limit_delay], 1 second when the
    configuration has none) exactly when the query is not at the last
    position of the input; the result of the call, success or failure,
    plays no part in it.  These delays are the only sleeps of the batch:
    one for each query with text before the last position. *)
Theorem batch_query_turns (service : api) (cfg : config) (callback : bool)
    (queries : list query) (w : world) :
  ∃ turns : list (list event),
    trace (batch_query service cfg callback queries w).2 = trace w ++ concat turns
    ∧ length turns = length queries
    ∧ (∀ idx q, queries !! idx = Some q →
         match text q with
         | None | Some "" => turns !! idx = Some []
         | Some query_text =>
             ∃ k w0,
               trace w0 = trace w ++ concat (take idx turns)
               ∧ turns !! idx
                 = Some (replicate k (EvRequest query_text)
                         ++ (if callback
                             then [EvCallback (S idx) (length queries) (id q)
                                     (query_with_retry service cfg query_text None w0).1]
                             else [])
                         ++ (if bool_decide (idx = (length queries - 1)%nat)
                             then []
                             else [EvSleep (default 1%Q (rate_limit_delay cfg))]))
         end)
    ∧ sleeps (trace (batch_query service cfg callback queries w).2)
      = sleeps (trace w)
        ++ replicate (length (filter has_text (take (length queries - 1) queries)))
             (default 1%Q (rate_limit_delay cfg)).
Proof.
  unfold batch_query.
  destruct (batch_loop_turns service cfg callback (length queries) 0 queries ([], w))
    as (turns & Htrace & Hlen & Hturns).
  exists turns. split; [exact Htrace|]. split; [exact Hlen|]. split.
  - intros idx q Hq. destruct (Hturns idx q Hq) as (k & w0 & Hw0 & Hturn).
    pose proof (lookup_lt_Some _ _ _ Hq) as Hlt.
    cbn [snd] in *. unfold turn_events in Hturn.
    destruct (text q) as [[|c query_text]|]; try exact Hturn.
    exists k, w0. split; [exact Hw0|]. rewrite Hturn. cbn [Nat.add default].
    unfold Datatypes.id.
    destruct (decide (idx = (length queries - 1)%nat)) as [Hlast|Hlast].
    + rewrite (bool_decide_true _ Hlast), bool_decide_false by lia. done.
    + rewrite (bool_decide_false _ Hlast), bool_decide_true by lia. done.
  - rewrite batch_loop_sleeps. cbn [snd]. by rewrite delays_due_count.
Qed.

(** ** What the callback is told *)

(** The calls of the callback in a trace, in order. *)
Definition callbacks (t : list event)
    : list (nat * nat * Z * option (gmap string pyval)) :=
  omap (λ e, match e with
             | EvCallback current total query_id result =>
                 Some (current, total, query_id, result)
             | _ => None
             end) t.

Lemma callbacks_app (t1 t2 : list event) :
  callbacks (t1 ++ t2) = callbacks t1 ++ callbacks t2.
Proof. unfold callbacks. apply omap_app. Qed.

Lemma callbacks_requests (k : nat) (query_text : string) :
  callbacks (replicate k (EvRequest query_text)) = [].
Proof. induction k as [|k IH]; [done|exact IH]. Qed.

(** The positions, counted from 1, of the queries with a text. *)
Fixpoint positions_with_text (idx : nat) (queries : list query) : list (nat * Z) :=
  match queries with
  | [] => []
  | q :: rest =>
      (if has_text q then [(S idx, id q)] else []) ++ positions_with_text (S idx) rest
  end.

Lemma batch_item_callbacks (service : api) (cfg : config)
    (total idx : nat) (q : query) (st : list batch_result * world) :
  (callbacks (trace (batch_item service cfg true total idx q st).2)).*1
  = (callbacks (trace st.2)).*1
    ++ ((λ p, (p.1, total, p.2)) <$> positions_with_text idx [q])
  ∧ callbacks (trace (batch_item service cfg false total idx q st).2)
    = callbacks (trace st.2).
Proof.
  unfold batch_item, has_text. cbn [positions_with_text]. unfold has_text.
  destruct (text q) as [[|c query_text]|]; try (by rewrite app_nil_r).
  destruct (query_with_retry_requests service cfg (String c query_text) None st.2)
    as [k Hk].
  destruct (query_with_retry service cfg (String c query_text) None st.2) as [result w1].
  cbn [fst snd] in *.
  split; case_bool_decide; cbn [emit trace];
    rewrite ?callbacks_app, Hk, ?callbacks_app, callbacks_requests;
    cbn; rewrite ?app_nil_r; try done; by rewrite fmap_app.
Qed.

Lemma batch_loop_callbacks (service : api) (cfg : config)
    (total idx : nat) (queries : list query) (st : list batch_result * world) :
  (callbacks (trace (batch_loop service cfg true total idx queries st).2)).*1
  = (callbacks (trace st.2)).*1
    ++ ((λ p, (p.1, total, p.2)) <$> positions_with_text idx queries)
  ∧ callbacks (trace (batch_loop service cfg false total idx queries st).2)
    = callbacks (trace st.2).
Proof.
  revert idx st. induction queries as [|q queries IH]; intros idx st; cbn [batch_loop].
  { cbn. by rewrite app_nil_r. }
  destruct (IH (S idx) (batch_item service cfg true total idx q st)) as [IHt _].
  destruct (IH (S idx) (batch_item service cfg false total idx q st)) as [_ IHf].
  destruct (batch_item_callbacks service cfg total idx q st) as [Ht Hf].
  split.
  - rewrite IHt, Ht, <- app_assoc. f_equal.
    cbn [positions_with_text]. by rewrite app_nil_r, fmap_app.
  - by rewrite IHf, Hf.
Qed.

(** The callback is called once for each query that has a text, in the
    order of the input, with the position of the query in the input
    counted from 1 (so the positions of skipped queries are never
    reported), the size of the whole input, and the id of the query;
    without a callback nothing is called. *)
Theorem batch_query_callbacks (service : api) (cfg : config)
    (queries : list query) (w : world) :
  (callbacks (trace (batch_query service cfg true queries w).2)).*1
  = (callbacks (trace w)).*1
    ++ ((λ p, (p.1, length queries, p.2)) <$> positions_with_text 0 queries)
  ∧ callbacks (trace (batch_query service cfg false queries w).2)
    = callbacks (trace w).
Proof. apply batch_loop_callbacks. Qed.

(** ** Concrete batches *)

Definition no_text (i : Z) : query :=
  Query i None (Some "Factual") (Some "Well-formed") (Some "High") None None.

(** The query without text at the end is skipped, and the delay after the
    one before it stays. *)
Example batch_with_skipped_last :
  batch_query flaky defaults true [ask 0 "capital?"; no_text 1] idle
  = ([BatchResult 0 true (Some (result_of paris_completion)) None],
     World 3 [EvRequest "capital?"; EvRequest "capital?"; EvRequest "capital?";
              EvCallback 1 2 0 (Some (result_of paris_completion));
              EvSleep 1%Q]).
Proof. vm_compute. reflexivity. Qed.

End BatchProofs.

(* ===================================================================== *)
(** * Facts about the paired test *)
(* ===================================================================== *)

Module AnalyzerProofs.
Import Analyzer.
Local Open Scope list_scope.
Local Set Warnings "-inexact-float".

(** Two queries, both assistants scored 4 on relevance. *)
Definition same_scores : dataframe :=
  {[ "chatgpt_relevance" := [Some 4%float; Some 4%float];
     "google_relevance" := [Some 4%float; Some 4%float] ]}.

(** Five queries, the two assistants scored alike on each, with one row
    where a score is missing. *)
Definition same_scores_five : dataframe :=
  {[ "chatgpt_relevance" :=
       [Some 5%float; Some 3%float; None; Some 1%float; Some 4%float; Some 2%float];
     "google_relevance" :=
       [Some 5%float; Some 3%float; Some 2%float; Some 1%float; Some 4%float; Some 2%float] ]}.

(** The threshold chain sends a NaN to the last branch. *)
Lemma interpret_nan : interpret_cohens_d PrimFloat.nan = "large".
Proof. reflexivity. Qed.

Lemma interpret_zero : interpret_cohens_d 0%float = "negligible".
Proof. reflexivity. Qed.

(** Cohen's d of [k] zero differences, as [paired_t_test] computes it. *)
Definition zero_effect (k : nat) : float :=
  PrimFloat.div (mean (replicate k 0%float)) (std (replicate k 0%float)).

(** Evaluated for every sample size from 2 to 1000: the effect of zero
    differences is classified "large". *)
Lemma zero_effect_table :
  forallb (λ k, String.eqb (interpret_cohens_d (zero_effect k)) "large") (seq 2 999)
  = true.
Proof. by vm_compute. Qed.

Lemma zero_effect_large (k : nat) :
  (2 ≤ k ≤ 1000)%nat → interpret_cohens_d (zero_effect k) = "large".
Proof.
  intros Hk. pose proof zero_effect_table as Htab.
  rewrite forallb_forall in Htab.
  apply String.eqb_eq, Htab, in_seq. lia.
Qed.

(** A score on the five-point scale. *)
Definition five_point (x : float) : Prop := x ∈ [1; 2; 3; 4; 5]%float.

Lemma dropna_same (xs : list float) :
  dropna (zip (Some <$> xs) (Some <$> xs)) = (λ x, (x, x)) <$> xs.
Proof. induction xs as [|x xs IH]; [done|]. cbn. f_equal. exact IH. Qed.

Lemma diff_same (xs : list float) :
  Forall five_point xs →
  zip_with PrimFloat.sub xs xs = replicate (length xs) 0%float.
Proof.
  induction 1 as [|x xs Hx _ IH]; [done|]. cbn [zip_with length replicate].
  f_equal; [|exact IH].
  unfold five_point in Hx.
  repeat (apply elem_of_cons in Hx as [->|Hx]; [reflexivity|]).
  by apply not_elem_of_nil in Hx.
Qed.

(** On any frame where the two assistants have the same five-point score
    in each of 2 to 1000 rows, the effect is classified "large". *)
Lemma equal_scores_classified_large
    (ttest_rel : list float → list float → float * float) (round : float → Z → float)
    (xs : list float) :
  Forall five_point xs →
  (2 ≤ length xs ≤ 1000)%nat →
  ∃ r, paired_t_test ttest_rel round
         {[ "chatgpt_relevance" := Some <$> xs; "google_relevance" := Some <$> xs ]}
         "relevance" = inr r
       ∧ n r = length xs
       ∧ cohens_d r = round (zero_effect (length xs)) 3
       ∧ interpretation r = "large".
Proof.
  intros Hxs Hlen. unfold paired_t_test.
  change ("chatgpt_" ++ "relevance")%string with "chatgpt_relevance".
  change ("google_" ++ "relevance")%string with "google_relevance".
  rewrite lookup_insert_eq, lookup_insert_ne by done.
  rewrite lookup_singleton_eq, dropna_same, length_fmap.
  destruct (Nat.ltb_spec (length xs) 2) as [?|_]; [lia|].
  rewrite <- !list_fmap_compose.
  replace ((fst ∘ (λ x : float, (x, x))) <$> xs) with xs
    by (symmetry; apply list_fmap_id).
  replace ((snd ∘ (λ x : float, (x, x))) <$> xs) with xs
    by (symmetry; apply list_fmap_id).
  destruct (ttest_rel xs xs) as [t p].
  rewrite (diff_same xs Hxs).
  eexists. split; [reflexivity|]. cbn [n cohens_d interpretation].
  split; [done|]. split; [done|]. by apply zero_effect_large.
Qed.

(** C5 at concrete frames.  On identical paired scores the differences
    are all zero, their mean and standard deviation are zero, and Cohen's
    d is 0/0, a NaN: the effect size is reported as the rounding of NaN,
    not as 0, and classified "large", not "negligible".  This holds
    whatever the t-test and the rounding return. *)
Theorem identical_scores_classified_large
    (ttest_rel : list float → list float → float * float) (round : float → Z → float) :
  (∃ r, paired_t_test ttest_rel round same_scores "relevance" = inr r
        ∧ n r = 2%nat
        ∧ cohens_d r = round PrimFloat.nan 3
        ∧ interpretation r = "large")
  ∧ (∃ r, paired_t_test ttest_rel round same_scores_five "relevance" = inr r
          ∧ n r = 5%nat
          ∧ cohens_d r = round PrimFloat.nan 3
          ∧ interpretation r = "large").
Proof.
  split.
  - unfold paired_t_test.
    replace (same_scores !! ("chatgpt_" ++ "relevance")%string)
      with (Some [Some 4%float; Some 4%float]) by (by vm_compute).
    replace (same_scores !! ("google_" ++ "relevance")%string)
      with (Some [Some 4%float; Some 4%float]) by (by vm_compute).
    cbn [zip zip_with dropna omap list_omap length Nat.ltb Nat.leb fmap list_fmap fst snd].
    destruct (ttest_rel _ _) as [t p].
    eexists. split; [reflexivity|]. repeat split.
  - unfold paired_t_test.
    replace (same_scores_five !! ("chatgpt_" ++ "relevance")%string)
      with (Some [Some 5%float; Some 3%float; None; Some 1%float; Some 4%float; Some 2%float])
      by (by vm_compute).
    replace (same_scores_five !! ("google_" ++ "relevance")%string)
      with (Some [Some 5%float; Some 3%float; Some 2%float; Some 1%float; Some 4%float; Some 2%float])
      by (by vm_compute).
    cbn [zip zip_with dropna omap list_omap length Nat.ltb Nat.leb fmap list_fmap fst snd].
    destruct (ttest_rel _ _) as [t p].
    eexists. split; [reflexivity|]. repeat split.
Qed.

End AnalyzerProofs.

(* ===================================================================== *)
(** * Facts about migrate_web_search_field.py *)
(* ===================================================================== *)

Module MigrationProofs.
Import DataManager DataManagerProofs Migration.

Lemma truthy_insert (k : string) (v : pyval) (m : gmap string pyval) :
  truthy (PDict (<[k := v]> m)) = true.
Proof.
  cbn [truthy]. destruct (size (<[k := v]> m)) eqn:Hsize; [|done].
  apply map_size_empty_inv in Hsize. by apply insert_non_empty in Hsize.
Qed.

Lemma backup_path_fresh (now : instant) :
  (RESULTS_FILE ++ ".backup_" ++ stamp now)%string ≠ RESULTS_FILE.
Proof. discriminate. Qed.

Section Detect.

Variable count_citations : string → nat.

Local Abbreviation migrate_entry := (Migration.migrate_entry count_citations).
Local Abbreviation migrate_results := (Migration.migrate_results count_citations).
Local Abbreviation detect := (detect_web_search_from_content count_citations).

(** The chatgpt dictionary with the two fields filled in. *)
Definition with_web_search (used : bool) (count : Z) (c : gmap string pyval)
    : gmap string pyval :=
  <["web_search_citations_count" := PInt count]> (<["web_search_used" := PBool used]> c).

(** An iteration that does not raise leaves the entry as it is, or fills
    the two fields in; the second only for an entry whose [chatgpt] is a
    non-empty dictionary without [web_search_used]. *)
Lemma migrate_entry_cases (v v' : pyval) :
  migrate_entry v = Some v' →
  (v' = v
   ∧ ∀ e, v = PDict e → truthy (get e "chatgpt") = true →
          contains (get e "chatgpt") "web_search_used" = Some true)
  ∨ ∃ e c used count,
      v = PDict e
      ∧ e !! "chatgpt" = Some (PDict c)
      ∧ truthy (PDict c) = true
      ∧ c !! "web_search_used" = None
      ∧ detect (get_or c "response" (PStr "")) = Some (used, count)
      ∧ v' = PDict (<["chatgpt" := PDict (with_web_search used count c)]> e).
Proof.
  unfold Migration.migrate_entry.
  destruct (contains v "chatgpt") as [[|]|] eqn:Hhas; cbn [mbind option_bind negb]; [| |done].
  2:{ intros [= <-]. left. split; [done|]. intros e -> Ht.
      cbn [contains] in Hhas. injection Hhas as Hhas.
      apply bool_decide_eq_false in Hhas. unfold get in Ht.
      destruct (e !! "chatgpt") eqn:He; [exfalso; apply Hhas; eauto|]. done. }
  destruct v as [| | | | |l|e]; try done.
  cbn [contains] in Hhas. injection Hhas as Hhas. apply bool_decide_eq_true in Hhas.
  destruct Hhas as [cd Hcd].
  assert (get e "chatgpt" = cd) as Hget by (unfold get; by rewrite Hcd).
  rewrite Hget.
  destruct (truthy cd) eqn:Ht; cbn [negb].
  2:{ intros [= <-]. left. split; [done|]. intros e' [= <-]. rewrite Hget. congruence. }
  destruct (contains cd "web_search_used") as [[|]|] eqn:Hknown;
    cbn [mbind option_bind]; [| |done].
  { intros [= <-]. left. split; [done|]. intros e' [= <-] _. by rewrite Hget. }
  destruct cd as [| | | | |l|c]; try done.
  destruct (detect_web_search_from_content count_citations (get_or c "response" (PStr "")))
    as [[used count]|] eqn:Hdet; cbn [mbind option_bind]; [|done].
  intros [= <-]. right. exists e, c, used, count.
  cbn [contains] in Hknown. injection Hknown as Hknown.
  apply bool_decide_eq_false in Hknown.
  repeat split; try done.
  destruct (c !! "web_search_used") eqn:Hc; [exfalso; apply Hknown; eauto|done].
Qed.

Lemma with_web_search_known (used : bool) (count : Z) (c : gmap string pyval) :
  contains (PDict (with_web_search used count c)) "web_search_used" = Some true.
Proof.
  cbn [contains]. f_equal. apply bool_decide_eq_true. unfold with_web_search.
  rewrite lookup_insert_ne by done. rewrite lookup_insert_eq. eauto.
Qed.

(** A migrated entry goes through the loop unchanged. *)
Lemma migrate_entry_stable (v v' : pyval) :
  migrate_entry v = Some v' → migrate_entry v' = Some v'.
Proof.
  intros Hv. destruct (migrate_entry_cases v v' Hv)
    as [[-> _]|(e & c & used & count & -> & He & Ht & Hc & Hdet & ->)]; [done|].
  unfold Migration.migrate_entry. cbn [contains].
  rewrite bool_decide_true by (rewrite lookup_insert_eq; eauto).
  cbn [mbind option_bind negb].
  assert (get (<["chatgpt" := PDict (with_web_search used count c)]> e) "chatgpt"
          = PDict (with_web_search used count c)) as ->.
  { unfold get. by rewrite lookup_insert_eq. }
  unfold with_web_search at 1. rewrite truthy_insert. cbn [negb].
  by rewrite with_web_search_known.
Qed.

Lemma no_entry_raises (results : gmap string pyval) :
  existsb (λ kv, negb (bool_decide (is_Some (migrate_entry kv.2)))) (map_to_list results)
  = false
  ↔ ∀ k v, results !! k = Some v → is_Some (migrate_entry v).
Proof.
  split.
  - intros Hex k v Hkv. apply elem_of_map_to_list in Hkv.
    destruct (migrate_entry v) as [v'|] eqn:Hv; [eauto|].
    assert (existsb (λ kv, negb (bool_decide (is_Some (migrate_entry kv.2))))
              (map_to_list results) = true) as Htrue; [|congruence].
    apply existsb_exists. exists (k, v). split; [by apply list_elem_of_In|].
    cbn [snd]. rewrite Hv. rewrite bool_decide_false; [done|]. by intros [? ?].
  - intros Hall. apply not_true_is_false. intros Hex.
    apply existsb_exists in Hex as ([k v] & Hin & Hneg). cbn [snd] in Hneg.
    apply list_elem_of_In, elem_of_map_to_list in Hin.
    rewrite bool_decide_true in Hneg; [done|]. by eapply Hall.
Qed.

(** The entry as the run leaves it. *)
Definition migrated (data : pyval) : pyval := default data (migrate_entry data).

(** How a run ends. *)
Lemma migrate_results_cases (now : instant) (d : fs) :
  (d !! RESULTS_FILE = None ∧ migrate_results now d = (false, d))
  ∨ (∃ c, d !! RESULTS_FILE = Some c
          ∧ migrate_results now d
            = (false, <[(RESULTS_FILE ++ ".backup_" ++ stamp now)%string := c]> d))
  ∨ ∃ results,
      d !! RESULTS_FILE = Some (FJson (PDict results))
      ∧ (∀ k v, results !! k = Some v → is_Some (migrate_entry v))
      ∧ migrate_results now d
        = (true,
           <[RESULTS_FILE := FJson (PDict (migrated <$> results))]>
             (<[(RESULTS_FILE ++ ".backup_" ++ stamp now)%string := FJson (PDict results)]> d)).
Proof.
  unfold Migration.migrate_results.
  destruct (d !! RESULTS_FILE) as [[v|raw]|] eqn:Hd; [| |by left].
  2:{ right. left. by eexists. }
  destruct v as [| | | | | |results]; try (right; left; by eexists).
  destruct (existsb _ (map_to_list results)) eqn:Hex.
  - right. left. by eexists.
  - right. right. exists results. split; [done|]. split; [|done]. by apply no_entry_raises.
Qed.

Lemma migrate_results_success (now : instant) (d : fs) :
  (migrate_results now d).1 = true →
  (∀ k v, results_of d !! k = Some v → is_Some (migrate_entry v))
  ∧ (migrate_results now d).2 !! RESULTS_FILE
    = Some (FJson (PDict (migrated <$> results_of d)))
  ∧ results_of (migrate_results now d).2 = migrated <$> results_of d.
Proof.
  intros Hok.
  destruct (migrate_results_cases now d)
    as [[_ Heq]|[(c & _ & Heq)|(results & Hd & Hall & Heq)]];
    rewrite Heq in Hok |- *; try discriminate Hok.
  assert (results_of d = results) as ->.
  { unfold results_of, read_json. by rewrite Hd. }
  split; [done|]. cbn [snd]. rewrite lookup_insert_eq. split; [done|].
  unfold results_of, read_json. by rewrite lookup_insert_eq.
Qed.

Lemma migrated_cases (v : pyval) :
  is_Some (migrate_entry v) →
  (migrated v = v
   ∧ ∀ e, v = PDict e → truthy (get e "chatgpt") = true →
          contains (get e "chatgpt") "web_search_used" = Some true)
  ∨ ∃ e c used count,
      v = PDict e
      ∧ e !! "chatgpt" = Some (PDict c)
      ∧ truthy (PDict c) = true
      ∧ c !! "web_search_used" = None
      ∧ detect (get_or c "response" (PStr "")) = Some (used, count)
      ∧ migrated v = PDict (<["chatgpt" := PDict (with_web_search used count c)]> e).
Proof.
  intros [v' Hv]. unfold migrated. rewrite Hv. cbn [default]; unfold Datatypes.id.
  exact (migrate_entry_cases v v' Hv).
Qed.

(** What a run writes.  Apart from the backup, which holds the results as
    they were, no other file changes.  A run that stops on an exception
    leaves the results file as it was.  A run that reaches its end keeps
    the set of entries, every field of an entry other than [chatgpt], and
    every field of [chatgpt] other than the two it fills in; an entry whose
    [chatgpt] already says whether web search was used is left exactly as
    it is. *)
Theorem migrate_results_writes (now : instant) (d : fs) :
  let d' := (migrate_results now d).2 in
  (∀ path, path ≠ RESULTS_FILE →
           path ≠ (RESULTS_FILE ++ ".backup_" ++ stamp now)%string →
           d' !! path = d !! path)
  ∧ (∀ c, d !! RESULTS_FILE = Some c →
          d' !! (RESULTS_FILE ++ ".backup_" ++ stamp now)%string = Some c)
  ∧ ((migrate_results now d).1 = false → d' !! RESULTS_FILE = d !! RESULTS_FILE)
  ∧ ((migrate_results now d).1 = true →
     (∀ k, is_Some (results_of d' !! k) ↔ is_Some (results_of d !! k))
     ∧ (∀ k f, f ≠ "chatgpt" →
               field_of (results_of d') k f = field_of (results_of d) k f)
     ∧ (∀ k f, f ≠ "web_search_used" → f ≠ "web_search_citations_count" →
               get (as_dict (field_of (results_of d') k "chatgpt")) f
               = get (as_dict (field_of (results_of d) k "chatgpt")) f)
     ∧ (∀ k e, results_of d !! k = Some (PDict e) →
               contains (get e "chatgpt") "web_search_used" = Some true →
               results_of d' !! k = Some (PDict e))).
Proof.
  cbn zeta. pose proof (backup_path_fresh now) as Hfresh.
  split; [|split; [|split]].
  - intros path Hp Hb.
    destruct (migrate_results_cases now d)
      as [[_ ->]|[(c & _ & ->)|(results & _ & _ & ->)]]; cbn [snd]; [done|..].
    + by rewrite lookup_insert_ne.
    + by rewrite !lookup_insert_ne.
  - intros c Hc.
    destruct (migrate_results_cases now d)
      as [[Hn _]|[(c' & Hc' & ->)|(results & Hr & _ & ->)]]; cbn [snd]; [congruence|..].
    + rewrite lookup_insert_eq. congruence.
    + rewrite lookup_insert_ne by done. rewrite lookup_insert_eq. congruence.
  - intros Hf.
    destruct (migrate_results_cases now d)
      as [[_ Heq]|[(c' & _ & Heq)|(results & _ & _ & Heq)]];
      rewrite Heq in Hf |- *; cbn [fst snd] in *; [done| |discriminate Hf].
    by rewrite lookup_insert_ne.
  - intros Hok.
    destruct (migrate_results_success now d Hok) as (Hall & _ & ->).
    split; [|split; [|split]].
    + intros k. rewrite lookup_fmap. by rewrite fmap_is_Some.
    + intros k f Hf. unfold field_of, get_or. rewrite lookup_fmap.
      destruct (results_of d !! k) as [v|] eqn:Hk; cbn [fmap option_fmap option_map default]; unfold Datatypes.id;
        [|done].
      destruct (migrated_cases v (Hall _ _ Hk))
        as [[-> _]|(e & c & used & count & -> & _ & _ & _ & _ & ->)]; [done|].
      cbn [as_dict]. unfold get. by rewrite lookup_insert_ne.
    + intros k f Hu Hc. unfold field_of, get_or. rewrite lookup_fmap.
      destruct (results_of d !! k) as [v|] eqn:Hk; cbn [fmap option_fmap option_map default]; unfold Datatypes.id;
        [|done].
      destruct (migrated_cases v (Hall _ _ Hk))
        as [[-> _]|(e & c & used & count & -> & He & _ & _ & _ & ->)]; [done|].
      cbn [as_dict]. unfold get at 2 4. rewrite lookup_insert_eq, He. cbn [default as_dict]; unfold Datatypes.id; cbn [as_dict].
      unfold get, with_web_search. by rewrite !lookup_insert_ne.
    + intros k e Hk Hknown. rewrite lookup_fmap, Hk.
      cbn [fmap option_fmap option_map]. f_equal.
      destruct (migrated_cases (PDict e) (Hall _ _ Hk))
        as [[-> _]|(e' & c & used & count & [= <-] & He & _ & Hc & _ & _)]; [done|].
      exfalso. unfold get in Hknown. rewrite He in Hknown. cbn [default] in Hknown; unfold Datatypes.id in Hknown; cbn [contains] in Hknown.
      injection Hknown as Hknown. apply bool_decide_eq_true in Hknown.
      rewrite Hc in Hknown. by destruct Hknown.
Qed.

(** After a run that reached its end, every entry with a ChatGPT response
    says whether web search was used.  For an entry that did not say so
    before, the two fields hold what
    [detect_web_search_from_content] makes of the response text: web search
    counts as used exactly when at least one citation is found, and a
    response without text gives [False] and 0. *)
Theorem migrate_results_fills_in (now : instant) (d : fs) :
  (migrate_results now d).1 = true →
  let d' := (migrate_results now d).2 in
  (∀ k e, results_of d' !! k = Some (PDict e) →
          truthy (get e "chatgpt") = true →
          contains (get e "chatgpt") "web_search_used" = Some true)
  ∧ (∀ k e c, results_of d !! k = Some (PDict e) →
              e !! "chatgpt" = Some (PDict c) →
              truthy (PDict c) = true →
              c !! "web_search_used" = None →
              ∃ n, field_of (results_of d') k "chatgpt"
                   = PDict (with_web_search (bool_decide (0 < n)%nat) (Z.of_nat n) c)
                   ∧ match get_or c "response" (PStr "") with
                     | PStr s => n = if String.eqb s "" then 0%nat else count_citations s
                     | _ => n = 0%nat
                     end).
Proof.
  intros Hok. cbn zeta.
  destruct (migrate_results_success now d Hok) as (Hall & _ & ->).
  split.
  - intros k e Hk Ht. rewrite lookup_fmap in Hk.
    destruct (results_of d !! k) as [v|] eqn:Hv; [|done].
    cbn [fmap option_fmap option_map] in Hk. injection Hk as Hk.
    destruct (migrated_cases v (Hall _ _ Hv))
      as [[Hm Hkeep]|(e' & c & used & count & -> & He & _ & Hc & _ & Hm)];
      rewrite Hm in Hk.
    + by apply Hkeep.
    + injection Hk as <-. unfold get. rewrite lookup_insert_eq. cbn [default]; unfold Datatypes.id.
      apply with_web_search_known.
  - intros k e c Hk He Ht Hc. set (resp := get_or c "response" (PStr "")).
    unfold field_of, get_or. rewrite lookup_fmap, Hk.
    cbn [fmap option_fmap option_map default]; unfold Datatypes.id.
    destruct (migrated_cases (PDict e) (Hall _ _ Hk))
      as [[_ Hkeep]|(e' & c' & used & count & [= <-] & He' & _ & _ & Hdet & ->)].
    + exfalso. specialize (Hkeep e eq_refl). unfold get in Hkeep. rewrite He in Hkeep.
      cbn [default] in Hkeep; unfold Datatypes.id in Hkeep. specialize (Hkeep Ht). cbn [contains] in Hkeep.
      injection Hkeep as Hkeep. apply bool_decide_eq_true in Hkeep.
      rewrite Hc in Hkeep. by destruct Hkeep.
    + rewrite He in He'. injection He' as <-.
      change (get_or c "response" (PStr "")) with resp in Hdet. clearbody resp.
      cbn [as_dict]. unfold get. rewrite lookup_insert_eq. cbn [default]; unfold Datatypes.id.
      unfold detect_web_search_from_content in Hdet.
      destruct resp as [| b | z | f | s | l | m]; cbn [truthy negb] in Hdet.
      * injection Hdet as <- <-. exists 0%nat; rewrite (bool_decide_false (0 < 0)%nat) by lia; split; reflexivity.
      * destruct b; cbn [negb] in Hdet; [done|]. injection Hdet as <- <-. exists 0%nat; rewrite (bool_decide_false (0 < 0)%nat) by lia; split; reflexivity.
      * destruct (z =? 0); cbn [negb] in Hdet; [|done].
        injection Hdet as <- <-. exists 0%nat; rewrite (bool_decide_false (0 < 0)%nat) by lia; split; reflexivity.
      * destruct (PrimFloat.eqb f 0); cbn [negb] in Hdet; [|done].
        injection Hdet as <- <-. exists 0%nat; rewrite (bool_decide_false (0 < 0)%nat) by lia; split; reflexivity.
      * destruct (String.eqb s "") eqn:Hs; cbn [negb] in Hdet.
        -- injection Hdet as <- <-. exists 0%nat. rewrite (bool_decide_false (0 < 0)%nat) by lia.
           split; reflexivity.
        -- injection Hdet as <- <-. exists (count_citations s). split; reflexivity.
      * destruct (Nat.eqb (length l) 0); cbn [negb] in Hdet; [|done].
        injection Hdet as <- <-. exists 0%nat; rewrite (bool_decide_false (0 < 0)%nat) by lia; split; reflexivity.
      * destruct (Nat.eqb (size m) 0); cbn [negb] in Hdet; [|done].
        injection Hdet as <- <-. exists 0%nat; rewrite (bool_decide_false (0 < 0)%nat) by lia; split; reflexivity.
Qed.

(** A second run, whenever it happens, reaches its end too and writes back
    the results it found: the migration changes nothing once it has been
    applied. *)
Theorem migrate_results_idempotent (now now' : instant) (d : fs) :
  (migrate_results now d).1 = true →
  let d' := (migrate_results now d).2 in
  (migrate_results now' d').1 = true
  ∧ (migrate_results now' d').2 !! RESULTS_FILE = d' !! RESULTS_FILE.
Proof.
  intros Hok. cbn zeta.
  destruct (migrate_results_success now d Hok) as (Hall & Hfile & _).
  set (results := results_of d) in *.
  set (d' := (migrate_results now d).2) in *. clearbody d'.
  assert (∀ k v, (migrated <$> results) !! k = Some v → migrate_entry v = Some v) as Hst.
  { intros k v Hk. rewrite lookup_fmap in Hk.
    destruct (results !! k) as [v0|] eqn:Hv0; [|done].
    cbn [fmap option_fmap option_map] in Hk. injection Hk as <-.
    destruct (Hall _ _ Hv0) as [v' Hv']. unfold migrated. rewrite Hv'. cbn [default]; unfold Datatypes.id.
    by eapply migrate_entry_stable. }
  destruct (migrate_results_cases now' d')
    as [[Hn _]|[(c & Hc & Heq)|(results' & Hr' & _ & Heq)]].
  - congruence.
  - exfalso. rewrite Hfile in Hc. injection Hc as <-.
    unfold Migration.migrate_results in Heq. rewrite Hfile in Heq.
    destruct (existsb _ _) eqn:Hex; [|discriminate Heq].
    assert (existsb (λ kv, negb (bool_decide (is_Some (migrate_entry kv.2))))
              (map_to_list (migrated <$> results)) = false) as Hno; [|congruence].
    apply no_entry_raises. intros k v Hk. rewrite (Hst _ _ Hk). eauto.
  - rewrite Heq. cbn [fst snd]. split; [done|].
    rewrite lookup_insert_eq, Hfile. rewrite Hfile in Hr'. injection Hr' as <-.
    do 3 f_equal. apply map_eq. intros k. rewrite lookup_fmap.
    destruct ((migrated <$> results) !! k) as [v|] eqn:Hk; [|done].
    cbn [fmap option_fmap option_map]. f_equal. unfold migrated at 1.
    by rewrite (Hst _ _ Hk).
Qed.

End Detect.

(** ** A concrete migration *)

(** A counter that finds one citation in a text that holds a URL. *)
Definition one_per_url (s : string) : nat :=
  if is_substring "https://" s then 1%nat else 0%nat.

(** Results from before the field existed: query 0 answered with a URL,
    query 1 answered and already marked, query 2 not answered by ChatGPT. *)
Definition legacy : fs :=
  {[ RESULTS_FILE :=
       FJson (PDict {[
         "0" := PDict {[ "query_id" := PInt 0;
                         "chatgpt" := PDict {[ "response" := PStr "See https://example.org" ]};
                         "google" := PNone ]};
         "1" := PDict {[ "query_id" := PInt 1;
                         "chatgpt" := PDict {[ "response" := PStr "Paris";
                                               "web_search_used" := PBool true ]};
                         "google" := PNone ]};
         "2" := PDict {[ "query_id" := PInt 2;
                         "chatgpt" := PNone;
                         "google" := PDict paris ]} ]}) ]}.

Lemma legacy_migrates : (Migration.migrate_results one_per_url t0 legacy).1 = true.
Proof. by vm_compute. Qed.

Example legacy_migrated :
  field_of (results_of (Migration.migrate_results one_per_url t0 legacy).2) "0" "chatgpt"
  = PDict {[ "response" := PStr "See https://example.org";
             "web_search_used" := PBool true;
             "web_search_citations_count" := PInt 1 ]}
  ∧ field_of (results_of (Migration.migrate_results one_per_url t0 legacy).2) "1" "chatgpt"
    = PDict {[ "response" := PStr "Paris"; "web_search_used" := PBool true ]}.
Proof. split; by vm_compute. Qed.

(** An entry that is a number stops the run after the backup. *)
Example migrate_stops_on_a_number :
  Migration.migrate_results one_per_url t0 {[ RESULTS_FILE := FJson (PDict {[ "0" := PInt 7 ]}) ]}
  = (false,
     {[ RESULTS_FILE := FJson (PDict {[ "0" := PInt 7 ]});
        (RESULTS_FILE ++ ".backup_" ++ stamp t0)%string
          := FJson (PDict {[ "0" := PInt 7 ]}) ]}).
Proof. vm_compute. reflexivity. Qed.

Lemma migrate_results_fills_in_witness :
  (Migration.migrate_results one_per_url t0 legacy).1 = true
  ∧ ∀ k e,
      results_of (Migration.migrate_results one_per_url t0 legacy).2 !! k = Some (PDict e) →
      truthy (get e "chatgpt") = true →
      contains (get e "chatgpt") "web_search_used" = Some true.
Proof.
  split; [exact legacy_migrates|].
  exact (proj1 (migrate_results_fills_in one_per_url t0 legacy legacy_migrates)).
Defined.

Lemma migrate_results_idempotent_witness :
  (Migration.migrate_results one_per_url t0 legacy).1 = true
  ∧ (Migration.migrate_results one_per_url t1
       (Migration.migrate_results one_per_url t0 legacy).2).1 = true
  ∧ (Migration.migrate_results one_per_url t1
       (Migration.migrate_results one_per_url t0 legacy).2).2 !! RESULTS_FILE
    = (Migration.migrate_results one_per_url t0 legacy).2 !! RESULTS_FILE.
Proof.
  split; [exact legacy_migrates|].
  exact (migrate_results_idempotent one_per_url t0 t1 legacy legacy_migrates).
Defined.

End MigrationProofs.
